(** * Device emulation engine of testlib: charger and inverter emulators

    Shallow embedding of [testlib/emulators/charger_emulator.py] and
    [testlib/emulators/inverter_emulator.py].

    Conventions of the embedding.
    - Python floats are idealised as exact numbers: rationals [Q] in the
      charger (only [+ - * /] and comparisons occur there), reals [R] in
      the inverter (which calls [math.sin] and [math.pi]).
    - [datetime] values are integers, microseconds since the Unix epoch
      (the resolution of [datetime]); all the datetimes of the two
      emulators are in UTC.
    - Python dicts are [gmap]s; a subscript on a missing key raises
      [KeyError], which the embedding writes out.
    - Reads of the wall clock ([datetime.now], [time.time]), the uuid
      generator and the optional [astral] library are explicit inputs.
    - [threading.Timer] objects are entries of a list of pending timers,
      fired in the order of their due times.
    - The sinks [on_data] / [on_status_change] only receive values; of the
      payloads, the embedding records the status notifications of the
      charger and the per-tick report of the inverter. *)

From Stdlib Require Import ZArith QArith Qminmax Lia Reals Psatz.
From stdpp Require Import gmap strings list fin_maps.

Local Open Scope Z_scope.

(* ===================================================================== *)
(** ** Exceptions and the state-and-exception monad of the emulators     *)
(* ===================================================================== *)

Inductive exn := ValueError | KeyError | ZeroDivisionError.

Inductive outcome (A : Type) :=
| Ret (a : A)
| Raise (e : exn).
Arguments Ret {A} a.
Arguments Raise {A} e.

Module Charger.

(** *** Enumerations *)

Inductive ChargerStatus :=
| AVAILABLE | PREPARING | CHARGING | SUSPENDED_EVSE | SUSPENDED_EV
| FINISHING | RESERVED | UNAVAILABLE | FAULTED.

Inductive TransactionStatus := ACTIVE | STOPPED | COMPLETED.

#[global] Instance ChargerStatus_eq_dec : EqDecision ChargerStatus.
Proof. solve_decision. Defined.

#[global] Instance TransactionStatus_eq_dec : EqDecision TransactionStatus.
Proof. solve_decision. Defined.

(** *** Records: the dict values of [self.connectors] and
    [self.active_transactions], and the options the engine reads *)

Record Connector := mkConnector {
  connector_id : Z;
  c_status : ChargerStatus;
  error_code : string;
  info : string;
  vendor_id : string;
  vendor_error_code : string
}.

Record Transaction := mkTransaction {
  transaction_id : string;
  t_connector_id : Z;
  id_tag : string;
  start_time : Z;
  meter_start : Q;
  meter_stop : option Q;
  t_status : TransactionStatus;
  t_energy_delivered : Q;
  current_power : Q;
  stop_time : option Z
}.

Record Options := mkOptions {
  opt_connectors : Z;
  max_power : Q;
  tick_interval_ms : Q
}.

(** The arguments of a pending [threading.Timer]. *)
Inductive Callback :=
| CbStartCharging (transaction_id : string)
| CbFinishTransaction (transaction_id : string).

Record Timer := mkTimer { due : Z; callback : Callback }.

Record State := mkState {
  options : Options;
  connectors : gmap Z Connector;
  active_transactions : gmap string Transaction;
  energy_delivered : gmap Z Q;
  timers : list Timer;
  status_log : list (Z * ChargerStatus)
}.

(** *** Field updates *)

Definition with_c_status (st : ChargerStatus) (c : Connector) : Connector :=
  mkConnector (connector_id c) st (error_code c) (info c)
              (vendor_id c) (vendor_error_code c).

Definition with_t_status (st : TransactionStatus) (t : Transaction) : Transaction :=
  mkTransaction (transaction_id t) (t_connector_id t) (id_tag t) (start_time t)
                (meter_start t) (meter_stop t) st (t_energy_delivered t)
                (current_power t) (stop_time t).

Definition with_meter_stop (m : option Q) (t : Transaction) : Transaction :=
  mkTransaction (transaction_id t) (t_connector_id t) (id_tag t) (start_time t)
                (meter_start t) m (t_status t) (t_energy_delivered t)
                (current_power t) (stop_time t).

Definition with_stop_time (z : option Z) (t : Transaction) : Transaction :=
  mkTransaction (transaction_id t) (t_connector_id t) (id_tag t) (start_time t)
                (meter_start t) (meter_stop t) (t_status t) (t_energy_delivered t)
                (current_power t) z.

Definition with_current_power (p : Q) (t : Transaction) : Transaction :=
  mkTransaction (transaction_id t) (t_connector_id t) (id_tag t) (start_time t)
                (meter_start t) (meter_stop t) (t_status t) (t_energy_delivered t)
                p (stop_time t).

Definition with_t_energy_delivered (e : Q) (t : Transaction) : Transaction :=
  mkTransaction (transaction_id t) (t_connector_id t) (id_tag t) (start_time t)
                (meter_start t) (meter_stop t) (t_status t) e
                (current_power t) (stop_time t).

Definition set_connectors (m : gmap Z Connector) (s : State) : State :=
  mkState (options s) m (active_transactions s) (energy_delivered s)
          (timers s) (status_log s).

Definition set_active_transactions (m : gmap string Transaction) (s : State) : State :=
  mkState (options s) (connectors s) m (energy_delivered s)
          (timers s) (status_log s).

Definition set_energy_delivered (m : gmap Z Q) (s : State) : State :=
  mkState (options s) (connectors s) (active_transactions s) m
          (timers s) (status_log s).

Definition set_timers (l : list Timer) (s : State) : State :=
  mkState (options s) (connectors s) (active_transactions s)
          (energy_delivered s) l (status_log s).

Definition set_status_log (l : list (Z * ChargerStatus)) (s : State) : State :=
  mkState (options s) (connectors s) (active_transactions s)
          (energy_delivered s) (timers s) l.

(** *** The monad: a method reads and writes [self] and may raise *)

Definition M (A : Type) : Type := State -> outcome A * State.

Definition ret {A} (a : A) : M A := fun s => (Ret a, s).

Definition raise {A} (e : exn) : M A := fun s => (Raise e, s).

Definition bind {A B} (m : M A) (k : A -> M B) : M B :=
  fun s => match m s with
           | (Ret a, s') => k a s'
           | (Raise e, s') => (Raise e, s')
           end.

Definition get : M State := fun s => (Ret s, s).

Definition modify (f : State -> State) : M unit := fun s => (Ret tt, f s).

Notation "x <- c1 ;; c2" := (bind c1 (fun x => c2))
  (at level 100, c1 at next level, right associativity).
Notation "c1 ;;; c2" := (bind c1 (fun _ => c2))
  (at level 100, right associativity).

(** [self.connectors[connector_id]] *)
Definition get_connector (cid : Z) : M Connector :=
  fun s => match connectors s !! cid with
           | Some c => (Ret c, s)
           | None => (Raise KeyError, s)
           end.

(** [self.connectors[connector_id]["status"] = st] *)
Definition set_connector_status (cid : Z) (st : ChargerStatus) : M unit :=
  c <- get_connector cid ;;
  modify (fun s => set_connectors (<[cid := with_c_status st c]> (connectors s)) s).

(** [def __init__]: the connectors [1 .. connectors], all Available. *)
Definition new_connector (i : Z) : Connector :=
  mkConnector i AVAILABLE "NoError" EmptyString EmptyString EmptyString.

Definition init (o : Options) : State :=
  mkState o
          (list_to_map ((fun i => (i, new_connector i)) <$> seqZ 1 (opt_connectors o)))
          ∅ ∅ [] [].

(** [def _send_status_notification] *)
Definition _send_status_notification (cid : Z) : M unit :=
  fun s => match connectors s !! cid with
           | None => (Ret tt, s)
           | Some c => (Ret tt, set_status_log (status_log s ++ [(cid, c_status c)]) s)
           end.

(** [threading.Timer(delay, f, args).start()]: the pending timers are kept
    in the order in which they fire. *)
Fixpoint add_timer (tm : Timer) (l : list Timer) : list Timer :=
  match l with
  | [] => [tm]
  | x :: rest => if decide (due x <= due tm) then x :: add_timer tm rest
                 else tm :: l
  end.

Definition start_timer (now delay : Z) (cb : Callback) : M unit :=
  modify (fun s => set_timers (add_timer (mkTimer (now + delay) cb) (timers s)) s).

(** [def start_transaction]; [uuid] is the value of [str(uuid.uuid4())] and
    [now] the value of [datetime.now(timezone.utc)]. *)
Definition start_transaction (connector_id : Z) (id_tag : string) (meter_start : Q)
    (uuid : string) (now : Z) : M string :=
  s <- get ;;
  match connectors s !! connector_id with
  | None => raise ValueError
  | Some c =>
      if decide (c_status c ≠ AVAILABLE) then raise ValueError
      else
        let transaction_id := uuid in
        set_connector_status connector_id PREPARING ;;;
        _send_status_notification connector_id ;;;
        modify (fun s => set_active_transactions
          (<[transaction_id :=
               mkTransaction transaction_id connector_id id_tag now meter_start
                             None ACTIVE 0%Q 0%Q None]> (active_transactions s)) s) ;;;
        modify (fun s => match energy_delivered s !! connector_id with
                         | None => set_energy_delivered
                                     (<[connector_id := 0%Q]> (energy_delivered s)) s
                         | Some _ => s
                         end) ;;;
        start_timer now 3000000 (CbStartCharging transaction_id) ;;;
        ret transaction_id
  end.

(** [transaction = self.active_transactions[transaction_id]] followed by
    writes through the alias [transaction]. *)
Definition modify_transaction (tid : string) (f : Transaction -> Transaction) : M unit :=
  modify (fun s => set_active_transactions (alter f tid (active_transactions s)) s).

(** [def _start_charging] *)
Definition _start_charging (transaction_id : string) : M unit :=
  s <- get ;;
  match active_transactions s !! transaction_id with
  | None => ret tt
  | Some transaction =>
      let connector_id := t_connector_id transaction in
      set_connector_status connector_id CHARGING ;;;
      _send_status_notification connector_id ;;;
      modify_transaction transaction_id
        (with_current_power (max_power (options s) * 0.1)%Q)
  end.

(** [def stop_transaction] *)
Definition stop_transaction (transaction_id : string) (reason : string)
    (now : Z) : M bool :=
  s <- get ;;
  match active_transactions s !! transaction_id with
  | None => ret false
  | Some transaction =>
      let connector_id := t_connector_id transaction in
      modify_transaction transaction_id (with_t_status STOPPED) ;;;
      modify_transaction transaction_id
        (fun t => with_meter_stop (Some (meter_start t + t_energy_delivered t)%Q) t) ;;;
      modify_transaction transaction_id (with_stop_time (Some now)) ;;;
      set_connector_status connector_id FINISHING ;;;
      _send_status_notification connector_id ;;;
      start_timer now 2000000 (CbFinishTransaction transaction_id) ;;;
      ret true
  end.

(** [def _finish_transaction] *)
Definition _finish_transaction (transaction_id : string) : M unit :=
  s <- get ;;
  match active_transactions s !! transaction_id with
  | None => ret tt
  | Some transaction =>
      let connector_id := t_connector_id transaction in
      set_connector_status connector_id AVAILABLE ;;;
      _send_status_notification connector_id ;;;
      modify_transaction transaction_id (with_t_status COMPLETED)
  end.

(** The charging curve of [_update_transactions]. *)
Definition power_factor (elapsed_minutes : Q) : Q :=
  (if Qlt_le_dec elapsed_minutes 5 then 0.1 + (elapsed_minutes / 5) * 0.9
   else if Qlt_le_dec elapsed_minutes 30 then 1.0
   else Qmax 0.3 (1.0 - ((elapsed_minutes - 30) / 60) * 0.7))%Q.

(** [(datetime.now(timezone.utc) - transaction["start_time"]).total_seconds() / 60] *)
Definition elapsed_minutes (now : Z) (transaction : Transaction) : Q :=
  ((inject_Z (now - start_time transaction) / 1000000) / 60)%Q.

(** [tick_hours] and [energy_increment] of [_update_transactions]. *)
Definition tick_hours (o : Options) : Q := ((tick_interval_ms o / 1000.0) / 3600.0)%Q.

Definition energy_increment (o : Options) (power : Q) : Q :=
  ((power / 1000.0) * tick_hours o)%Q.

(** The body of the loop of [_update_transactions], for one item of
    [self.active_transactions.items()]. *)
Definition update_transaction (now : Z) (transaction_id : string)
    (transaction : Transaction) : M unit :=
  if decide (t_status transaction ≠ ACTIVE) then ret tt
  else
    let connector_id := t_connector_id transaction in
    c <- get_connector connector_id ;;
    if decide (c_status c ≠ CHARGING) then ret tt
    else
      s <- get ;;
      let power := (max_power (options s) * power_factor (elapsed_minutes now transaction))%Q in
      let incr := energy_increment (options s) power in
      modify_transaction transaction_id (with_current_power power) ;;;
      modify_transaction transaction_id
        (fun t => with_t_energy_delivered (t_energy_delivered t + incr)%Q t) ;;;
      match energy_delivered s !! connector_id with
      | None => raise KeyError
      | Some e =>
          modify (set_energy_delivered (<[connector_id := (e + incr)%Q]> (energy_delivered s)))
      end.

(** [def _update_transactions]: the loop over the table. *)
Definition _update_transactions (now : Z) : M unit :=
  fun s => map_fold (fun tid tx (r : outcome unit * State) =>
                       match r with
                       | (Ret _, s') => update_transaction now tid tx s'
                       | (Raise e, s') => (Raise e, s')
                       end)
                    (Ret tt, s) (active_transactions s).

(** [def _tick]: the payloads of [_send_periodic_data] and
    [_send_meter_values] are computed from the state and change nothing. *)
Definition _tick (now : Z) : M unit := _update_transactions now.

(** *** The timers and the calls from outside, in the order of time *)

Definition run_callback (cb : Callback) : M unit :=
  match cb with
  | CbStartCharging tid => _start_charging tid
  | CbFinishTransaction tid => _finish_transaction tid
  end.

(** Fire, in order, the pending timers that are due at time [t]; an
    exception in a timer thread ends that thread only. *)
Fixpoint run_timers (t : Z) (pending : list Timer) (s : State) : State :=
  match pending with
  | [] => set_timers [] s
  | tm :: rest =>
      if decide (due tm <= t)
      then run_timers t rest (snd (run_callback (callback tm) (set_timers rest s)))
      else set_timers pending s
  end.

Definition advance_to (t : Z) (s : State) : State := run_timers t (timers s) s.

(** What the threads other than the timers do to the emulator. *)
Inductive Command :=
| CStart (connector_id : Z) (id_tag : string) (meter_start : Q) (uuid : string)
| CStop (transaction_id : string) (reason : string)
| CTick.

Definition exec (now : Z) (c : Command) (s : State) : State :=
  match c with
  | CStart cid tag ms uuid => snd (start_transaction cid tag ms uuid now s)
  | CStop tid reason => snd (stop_transaction tid reason now s)
  | CTick => snd (_tick now s)
  end.

(** A run: the commands with the wall-clock time of each. *)
Fixpoint run (trace : list (Z * Command)) (s : State) : State :=
  match trace with
  | [] => s
  | (t, c) :: rest => run rest (exec t c (advance_to t s))
  end.

(** *** Observations *)

Definition connector_status (s : State) (cid : Z) : option ChargerStatus :=
  c_status <$> connectors s !! cid.

Definition transaction_status (s : State) (tid : string) : option TransactionStatus :=
  t_status <$> active_transactions s !! tid.

(** The statuses notified for one connector, oldest first. *)
Definition statuses_of (cid : Z) (s : State) : list ChargerStatus :=
  snd <$> filter (fun p => fst p = cid) (status_log s).

(** The transactions with Active status that reference a connector. *)
Definition active_on (s : State) (cid : Z) : gmap string Transaction :=
  filter (fun p => t_status (snd p) = ACTIVE /\ t_connector_id (snd p) = cid)
         (active_transactions s).

(** *** Any interleaving: the atomic actions on the emulator

    A call of [start_transaction] (with the fresh identifier that
    [uuid.uuid4] returns), a call of [stop_transaction], a tick, or the
    callback of a timer. *)
Inductive step : State -> State -> Prop :=
| step_start cid tag ms uuid now s :
    active_transactions s !! uuid = None ->
    step s (snd (start_transaction cid tag ms uuid now s))
| step_stop tid reason now s :
    step s (snd (stop_transaction tid reason now s))
| step_tick now s :
    step s (snd (_tick now s))
| step_start_charging tid s :
    step s (snd (_start_charging tid s))
| step_finish tid s :
    step s (snd (_finish_transaction tid s)).

Definition reachable (o : Options) (s : State) : Prop := rtc step (init o) s.

(** Every transaction of the table references a connector of the charger
    that has an energy counter. *)
(** What one pass of the loop of [_update_transactions] does to a
    transaction and to the counter of a connector, read off the state
    [s0] in which the tick begins. *)
Definition charging_now (s0 : State) (tx : Transaction) : bool :=
  bool_decide (t_status tx = ACTIVE) &&
  bool_decide (connector_status s0 (t_connector_id tx) = Some CHARGING).

Definition tick_power (o : Options) (now : Z) (tx : Transaction) : Q :=
  (max_power o * power_factor (elapsed_minutes now tx))%Q.

Definition tick_incr (o : Options) (now : Z) (tx : Transaction) : Q :=
  energy_increment o (tick_power o now tx).

Definition ticked (s0 : State) (now : Z) (tx : Transaction) : Transaction :=
  if charging_now s0 tx
  then with_t_energy_delivered
         (t_energy_delivered tx + tick_incr (options s0) now tx)%Q
         (with_current_power (tick_power (options s0) now tx) tx)
  else tx.

(** The sum, over the transactions of [m] that charge on connector [c], of
    their energy increments of this tick. *)
Definition conn_incr (s0 : State) (now : Z) (c : Z)
    (m : gmap string Transaction) : Q :=
  map_fold (fun _ tx acc =>
              if charging_now s0 tx && bool_decide (t_connector_id tx = c)
              then (acc + tick_incr (options s0) now tx)%Q else acc)
           0%Q m.

Definition wf (s : State) : Prop :=
  forall tid tx, active_transactions s !! tid = Some tx ->
    is_Some (connectors s !! t_connector_id tx) /\
    is_Some (energy_delivered s !! t_connector_id tx).

(** *** Definitions used to state and prove the properties of the charger *)

(** The state after a successful [start_transaction]. *)
Definition started (cid : Z) (tag : string) (ms : Q) (uuid : string) (now : Z)
    (c : Connector) (s : State) : State :=
  mkState (options s)
          (<[cid := with_c_status PREPARING c]> (connectors s))
          (<[uuid := mkTransaction uuid cid tag now ms None ACTIVE 0%Q 0%Q None]>
             (active_transactions s))
          (match energy_delivered s !! cid with
           | None => <[cid := 0%Q]> (energy_delivered s)
           | Some _ => energy_delivered s
           end)
          (add_timer (mkTimer (now + 3000000) (CbStartCharging uuid)) (timers s))
          (status_log s ++ [(cid, PREPARING)]).

Definition stopped_tx (now : Z) (tx : Transaction) : Transaction :=
  with_stop_time (Some now)
    (with_meter_stop (Some (meter_start tx + t_energy_delivered tx)%Q)
       (with_t_status STOPPED tx)).

Definition stopped (tid : string) (now : Z) (tx : Transaction) (c : Connector)
    (s : State) : State :=
  mkState (options s)
          (<[t_connector_id tx := with_c_status FINISHING c]> (connectors s))
          (<[tid := stopped_tx now tx]> (active_transactions s))
          (energy_delivered s)
          (add_timer (mkTimer (now + 2000000) (CbFinishTransaction tid)) (timers s))
          (status_log s ++ [(t_connector_id tx, FINISHING)]).

Definition charging (tid : string) (tx : Transaction) (c : Connector)
    (s : State) : State :=
  mkState (options s)
          (<[t_connector_id tx := with_c_status CHARGING c]> (connectors s))
          (<[tid := with_current_power (max_power (options s) * 0.1)%Q tx]>
             (active_transactions s))
          (energy_delivered s) (timers s)
          (status_log s ++ [(t_connector_id tx, CHARGING)]).

Definition finished (tid : string) (tx : Transaction) (c : Connector)
    (s : State) : State :=
  mkState (options s)
          (<[t_connector_id tx := with_c_status AVAILABLE c]> (connectors s))
          (<[tid := with_t_status COMPLETED tx]> (active_transactions s))
          (energy_delivered s) (timers s)
          (status_log s ++ [(t_connector_id tx, AVAILABLE)]).

Definition loop_body (now : Z) (tid : string) (tx : Transaction)
    (r : outcome unit * State) : outcome unit * State :=
  match r with
  | (Ret _, s') => update_transaction now tid tx s'
  | (Raise e, s') => (Raise e, s')
  end.

(** What holds after the loop has visited the entries [m] of the table. *)
Definition loop_inv (s0 : State) (now : Z) (r : outcome unit * State)
    (m : gmap string Transaction) : Prop :=
  exists s', r = (Ret tt, s') /\
    options s' = options s0 /\ connectors s' = connectors s0 /\
    timers s' = timers s0 /\ status_log s' = status_log s0 /\
    (forall tid, active_transactions s' !! tid =
                 match m !! tid with
                 | Some tx => Some (ticked s0 now tx)
                 | None => active_transactions s0 !! tid
                 end) /\
    (forall c, match energy_delivered s0 !! c with
               | Some e0 => exists e', energy_delivered s' !! c = Some e' /\
                                       (e' == e0 + conn_incr s0 now c m)%Q
               | None => energy_delivered s' !! c = None
               end).

Definition tick_post (now : Z) (s s' : State) : Prop :=
  options s' = options s /\ connectors s' = connectors s /\
  timers s' = timers s /\ status_log s' = status_log s /\
  (forall tid, active_transactions s' !! tid =
               ticked s now <$> active_transactions s !! tid) /\
  (forall c, match energy_delivered s !! c with
             | Some e0 => exists e', energy_delivered s' !! c = Some e' /\
                 (e' == e0 + conn_incr s now c (active_transactions s))%Q
             | None => energy_delivered s' !! c = None
             end).

Inductive action : State -> State -> Prop :=
| act_none s : action s s
| act_started cid tag ms uuid now c s :
    active_transactions s !! uuid = None ->
    connectors s !! cid = Some c -> c_status c = AVAILABLE ->
    action s (started cid tag ms uuid now c s)
| act_stopped tid now tx c s :
    active_transactions s !! tid = Some tx ->
    connectors s !! t_connector_id tx = Some c ->
    action s (stopped tid now tx c s)
| act_ticked now s s' :
    tick_post now s s' -> action s s'
| act_charging tid tx c s :
    active_transactions s !! tid = Some tx ->
    connectors s !! t_connector_id tx = Some c ->
    action s (charging tid tx c s)
| act_finished tid tx c s :
    active_transactions s !! tid = Some tx ->
    connectors s !! t_connector_id tx = Some c ->
    action s (finished tid tx c s).

(** Once a transaction is not Active and its meter stop is fixed, no
    action changes its meter start, its energy, its meter stop, or makes
    it Active again. *)
Definition settled (s : State) (tid : string) (cid : Z) (m : Q) : Prop :=
  exists tx, active_transactions s !! tid = Some tx /\
    t_status tx ≠ ACTIVE /\ t_connector_id tx = cid /\
    meter_stop tx = Some m /\ m = (meter_start tx + t_energy_delivered tx)%Q.

(** Seconds as microseconds. *)
Definition sec (n : Z) : Z := n * 1000000.

(** A charger with one connector and one transaction that is charging. *)
Definition one_charging : State :=
  advance_to (sec 5)
    (run [(sec 0, CStart 1 "tag" 0 "T1")] (init (mkOptions 1 22000 5000))).

Definition one_charging_tx : Transaction :=
  mkTransaction "T1" 1 "tag" 0 0 None ACTIVE 0 (22000 * 0.1)%Q None.

(** The same charger after the transaction has been stopped and has
    completed, and a second transaction has been started on the connector. *)
Definition second_started : State :=
  run [(sec 10, CStop "T1" "Local"); (sec 13, CStart 1 "tag" 0 "T2")] one_charging.

Definition completed_tx : Transaction :=
  mkTransaction "T1" 1 "tag" 0 0 (Some (0 + 0)%Q) COMPLETED 0 (22000 * 0.1)%Q
                (Some (sec 10)).



(** [n] ticks of the loop with nothing else happening in between, at the
    wall-clock times [nows]. *)
Fixpoint run_ticks (nows : list Z) (s : State) : State :=
  match nows with
  | [] => s
  | now :: rest => run_ticks rest (snd (_tick now s))
  end.

(** The Riemann sum: over the ticks, the power of the tick in kW times the
    duration of a tick in hours. *)
Fixpoint riemann (o : Options) (tx : Transaction) (nows : list Z) : Q :=
  match nows with
  | [] => 0
  | now :: rest => (tick_power o now tx / 1000.0) * tick_hours o + riemann o tx rest
  end%Q.



(** The energy of a transaction of the table (0 when there is none). *)
Definition energy_of (s : State) (tid : string) : Q :=
  default 0%Q (t_energy_delivered <$> active_transactions s !! tid).

(** A charger with one connector, as constructed. *)
Definition one_connector : State := init (mkOptions 1 22000 5000).

(** The charger of [one_charging] with another tick
    interval: one connector, one transaction charging since second 3. *)
Definition charging_with (interval : Q) : State :=
  advance_to (sec 5)
    (run [(sec 0, CStart 1 "tag" 0 "T1")]
       (init (mkOptions 1 22000 interval))).

(** *** The read-only methods *)

(** [def get_transaction] *)
Definition get_transaction (transaction_id : string) (s : State)
    : option Transaction :=
  active_transactions s !! transaction_id.

(** [def get_active_transactions] *)
Definition get_active_transactions (s : State) : gmap string Transaction :=
  filter (fun p => t_status (snd p) = ACTIVE) (active_transactions s).

(** The field ["activeTransactions"] of [_send_periodic_data]. *)
Definition active_count (s : State) : nat := size (get_active_transactions s).

(** The statuses that the emulator assigns to a connector. *)
Definition assigned_status (st : ChargerStatus) : Prop :=
  st = AVAILABLE \/ st = PREPARING \/ st = CHARGING \/ st = FINISHING.

(** [sum(f(k, v) for k, v in m.items())] *)
Definition sum_over {K A} `{Countable K} (f : K -> A -> Q) (m : gmap K A) : Q :=
  map_fold (fun k a acc => (acc + f k a)%Q) 0%Q m.

(** The sum of [g] over the transactions of a table. *)
Definition msum (g : Transaction -> Q) (m : gmap string Transaction) : Q :=
  sum_over (fun _ => g) m.

(** The energy delivered by a transaction, counted for connector [c]. *)
Definition energy_on (c : Z) (tx : Transaction) : Q :=
  if bool_decide (t_connector_id tx = c) then t_energy_delivered tx else 0%Q.

(** [sum(self.energy_delivered.values())], the field
    ["totalEnergyDelivered"] of [_send_periodic_data] and
    ["total_energy_delivered"] of [get_status]. *)
Definition total_energy_delivered (s : State) : Q :=
  sum_over (fun _ e => e) (energy_delivered s).

(** *** Invariants *)

(** The connector table has the keys [1 .. connectors]; each connector has
    its own id, an assigned status and no error. *)
Definition connector_ok (o : Options) (s : State) : Prop :=
  forall i,
    (is_Some (connectors s !! i) <-> 1 <= i <= opt_connectors o) /\
    (forall c, connectors s !! i = Some c ->
       connector_id c = i /\ assigned_status (c_status c) /\
       error_code c = "NoError" /\ info c = EmptyString).

(** The last status notified for a connector is its status. *)
Definition notified_ok (s : State) : Prop :=
  forall cid c, connectors s !! cid = Some c ->
    last (statuses_of cid s) = Some (c_status c) \/
    (statuses_of cid s = [] /\ c_status c = AVAILABLE).

(** The counter of a connector is the energy of its transactions. *)
Definition energy_ok (s : State) : Prop :=
  forall c e, energy_delivered s !! c = Some e ->
    (e == msum (energy_on c) (active_transactions s))%Q.

(** The fields of a transaction that are written once. *)
Definition same_identity (tx tx' : Transaction) : Prop :=
  transaction_id tx' = transaction_id tx /\
  t_connector_id tx' = t_connector_id tx /\
  id_tag tx' = id_tag tx /\ start_time tx' = start_time tx /\
  meter_start tx' = meter_start tx.

(** Every transaction is stored under its own id. *)
Definition keyed (s : State) : Prop :=
  forall tid tx, active_transactions s !! tid = Some tx -> transaction_id tx = tid.

(** A run in which every [start_transaction] gets an id that is not in the
    table, as [uuid.uuid4] provides. *)
Fixpoint fresh_ids (trace : list (Z * Command)) (s : State) : Prop :=
  match trace with
  | [] => True
  | (t, c) :: rest =>
      match c with
      | CStart _ _ _ uuid => active_transactions (advance_to t s) !! uuid = None
      | _ => True
      end /\ fresh_ids rest (exec t c (advance_to t s))
  end.

(** The stop fields of a transaction agree with its status. *)
Definition billed (tx : Transaction) : Prop :=
  (t_status tx = ACTIVE -> meter_stop tx = None /\ stop_time tx = None) /\
  (t_status tx ≠ ACTIVE ->
   meter_stop tx = Some (meter_start tx + t_energy_delivered tx)%Q /\
   is_Some (stop_time tx)).

(** Every transaction is billed, and every pending finishing timer is for
    a transaction that has been stopped. *)
Definition billing_ok (pending : list Timer) (s : State) : Prop :=
  wf s /\
  (forall tid tx, active_transactions s !! tid = Some tx -> billed tx) /\
  (forall tm tid, tm ∈ pending -> callback tm = CbFinishTransaction tid ->
     exists tx, active_transactions s !! tid = Some tx /\ t_status tx ≠ ACTIVE).

(** A session on a charger with one connector: started, stopped after ten
    seconds. *)
Definition short_session : list (Z * Command) :=
  [(sec 0, CStart 1 "tag" 0 "T1"); (sec 10, CStop "T1" "Local")].

(** One transaction started on connector 1 of a charger with 2 connectors,
    then its timer and a tick five seconds after the start. *)
Definition two_connectors : State := init (mkOptions 2 22000 5000).

Definition one_started : State :=
  snd (start_transaction 1 "tag" 0 "T1" 0 two_connectors).

Definition one_ticked : State :=
  snd (_tick 5000000 (snd (_start_charging "T1" one_started))).

End Charger.

(* ===================================================================== *)
(** ** The inverter emulator                                             *)
(* ===================================================================== *)

Module Inverter.

Local Open Scope R_scope.

(** *** Calendar fields of a UTC [datetime] (microseconds since the epoch) *)

Definition seconds_of (t : Z) : Z := (t / 1000000)%Z.

Definition hour (t : Z) : Z := ((seconds_of t / 3600) mod 24)%Z.

Definition minute (t : Z) : Z := ((seconds_of t / 60) mod 60)%Z.

(** Days since 1970-01-01. *)
Definition days_of (t : Z) : Z := (seconds_of t / 86400)%Z.

(** The proleptic Gregorian date (year, month, day) of a day number. *)
Definition civil_of_days (z0 : Z) : Z * Z * Z :=
  (let z := z0 + 719468 in
   let era := z / 146097 in
   let doe := z - era * 146097 in
   let yoe := (doe - doe / 1460 + doe / 36524 - doe / 146096) / 365 in
   let y := yoe + era * 400 in
   let doy := doe - (365 * yoe + yoe / 4 - yoe / 100) in
   let mp := (5 * doy + 2) / 153 in
   let d := doy - (153 * mp + 2) / 5 + 1 in
   let m := if mp <? 10 then mp + 3 else mp - 9 in
   (if m <=? 2 then y + 1 else y, m, d))%Z.

Definition month (t : Z) : Z := snd (fst (civil_of_days (days_of t))).

Definition day (t : Z) : Z := snd (civil_of_days (days_of t)).

Definition year (t : Z) : Z := fst (fst (civil_of_days (days_of t))).

(** *** Float operations *)

(** [x % m] on floats, for [m] other than zero. *)
Definition fmod (x m : R) : R := x - m * IZR (Int_part (x / m)).

(** *** Options, state, inputs and outputs *)

Record Options := mkOptions {
  fault_enabled : bool;
  mean_fault_interval : Z;
  fault_duration_min : R;
  fault_duration_max : R;
  initial_tick_interval_ms : R;
  mode : string
}.

Record State := mkState {
  options : Options;
  virtual_time : Z;
  simulation_start_time : R;
  fault_active : bool;
  next_fault_time : option Z;
  fault_end_time : option R;
  current_tick_interval_ms : R;
  daily : R;
  monthly : R;
  yearly : R;
  grid_power_data : list R;
  last_grid_power_update : option Z
}.

(** What one tick reads from outside the emulator: the answer of the
    [astral] computation [sunrise <= virtual_time <= sunset] ([None] when
    the library is missing or raises), and the values of [time.time()] in
    [_calculate_solar_power], in the draw of the fault duration and in
    [_schedule_next_fault] (there as [math.floor(time.time() * 1000)]). *)
Record Oracle := mkOracle {
  astral : option bool;
  t_cloud : R;
  t_fault : R;
  t_sched_ms : Z
}.

(** The fields of the per-tick payload that are computed from the state;
    the fields that are jitter around a constant are left out. *)
Record InverterData := mkInverterData {
  pvStatus : Z;
  inverterOn : Z;
  gridPower : R;
  reactivePower : R;
  solarPower : R;
  loadCurrent : R;
  faultCode : Z;
  dailyEnergy : R;
  monthlyEnergy : R;
  yearlyEnergy : R
}.

Inductive Payload :=
| GridPowerPeriodic (gridPower : list R) (timestamp : Z)
| InverterTick (timestamp : Z) (elapsedEmulationTimeMs : R)
               (inverterData : InverterData).

Definition M (A : Type) : Type := State -> outcome A * State.

Definition ret {A} (a : A) : M A := fun s => (Ret a, s).

Definition raise {A} (e : exn) : M A := fun s => (Raise e, s).

Definition bind {A B} (m : M A) (k : A -> M B) : M B :=
  fun s => match m s with
           | (Ret a, s') => k a s'
           | (Raise e, s') => (Raise e, s')
           end.

Definition get : M State := fun s => (Ret s, s).

Definition modify (f : State -> State) : M unit := fun s => (Ret tt, f s).

Notation "x <- c1 ;; c2" := (bind c1 (fun x => c2))
  (at level 100, c1 at next level, right associativity).
Notation "c1 ;;; c2" := (bind c1 (fun _ => c2))
  (at level 100, right associativity).

(** *** Field updates *)

Definition set_virtual_time (t : Z) (s : State) : State :=
  mkState (options s) t (simulation_start_time s) (fault_active s)
          (next_fault_time s) (fault_end_time s) (current_tick_interval_ms s)
          (daily s) (monthly s) (yearly s) (grid_power_data s)
          (last_grid_power_update s).

Definition set_fault (a : bool) (n : option Z) (e : option R) (s : State) : State :=
  mkState (options s) (virtual_time s) (simulation_start_time s) a n e
          (current_tick_interval_ms s)
          (daily s) (monthly s) (yearly s) (grid_power_data s)
          (last_grid_power_update s).

Definition set_current_tick_interval_ms (ms : R) (s : State) : State :=
  mkState (options s) (virtual_time s) (simulation_start_time s) (fault_active s)
          (next_fault_time s) (fault_end_time s) ms
          (daily s) (monthly s) (yearly s) (grid_power_data s)
          (last_grid_power_update s).

Definition set_energy_counters (d m y : R) (s : State) : State :=
  mkState (options s) (virtual_time s) (simulation_start_time s) (fault_active s)
          (next_fault_time s) (fault_end_time s) (current_tick_interval_ms s)
          d m y (grid_power_data s) (last_grid_power_update s).

Definition set_grid_power_data (l : list R) (s : State) : State :=
  mkState (options s) (virtual_time s) (simulation_start_time s) (fault_active s)
          (next_fault_time s) (fault_end_time s) (current_tick_interval_ms s)
          (daily s) (monthly s) (yearly s) l (last_grid_power_update s).

Definition set_last_grid_power_update (t : option Z) (s : State) : State :=
  mkState (options s) (virtual_time s) (simulation_start_time s) (fault_active s)
          (next_fault_time s) (fault_end_time s) (current_tick_interval_ms s)
          (daily s) (monthly s) (yearly s) (grid_power_data s) t.

(** *** The methods *)

(** [def _schedule_next_fault], at virtual time [vt]. *)
Definition _schedule_next_fault (o : Options) (vt : Z) (wall_ms : Z)
    : outcome (option Z) :=
  if negb (fault_enabled o) then Ret None
  else
    let interval_minutes := (mean_fault_interval o * 24 * 60)%Z in
    if decide (interval_minutes = 0%Z) then Raise ZeroDivisionError
    else
      let offset_minutes := (wall_ms mod interval_minutes)%Z in
      Ret (Some (vt + offset_minutes * 60 * 1000000)%Z).

(** [def __init__]; [start] is the timestamp of the [start_time] option and
    [wall_ms] the clock read by [_schedule_next_fault]. *)
Definition init (o : Options) (start : Z) (wall_ms : Z) : outcome State :=
  match _schedule_next_fault o start wall_ms with
  | Raise e => Raise e
  | Ret nft =>
      Ret (mkState o start (IZR start / 1000000 * 1000) false nft None
                   (initial_tick_interval_ms o) 0 0 0
                   (replicate 288 0) None)
  end.

(** [def update_tick_interval] *)
Definition update_tick_interval (new_interval_ms : R) : M unit :=
  if Rle_dec new_interval_ms 0 then ret tt
  else modify (set_current_tick_interval_ms new_interval_ms).

(** [def _calculate_solar_power] *)
Definition peak_output : R := 5000.

Definition is_daylight_of (w : Oracle) (vt : Z) : bool :=
  match astral w with
  | Some b => b
  | None => (6 <=? hour vt)%Z && (hour vt <=? 18)%Z
  end.

Definition cloud_factor (w : Oracle) : R := 0.7 + fmod (t_cloud w) 0.6.

Definition hour_angle (vt : Z) : R := PI * (IZR (hour vt - 6) / 12).

Definition _calculate_solar_power (w : Oracle) : M (bool * R) :=
  s <- get ;;
  let is_daylight := is_daylight_of w (virtual_time s) in
  if negb is_daylight || fault_active s then ret (is_daylight, 0)
  else
    let solar_power :=
      Rmax 0 (peak_output * sin (hour_angle (virtual_time s)) * cloud_factor w) in
    ret (is_daylight, solar_power).

(** [def _update_fault_status] *)
Definition _update_fault_status (w : Oracle) : M unit :=
  s <- get ;;
  if negb (fault_enabled (options s)) then ret tt
  else
    let current_time := virtual_time s in
    if negb (fault_active s) &&
       match next_fault_time s with
       | Some nft => bool_decide (nft <= current_time)%Z
       | None => false
       end
    then
      let span := fault_duration_max (options s) - fault_duration_min (options s) in
      if Req_dec_T span 0 then raise ZeroDivisionError
      else
        let duration_minutes := fault_duration_min (options s) + fmod (t_fault w) span in
        modify (set_fault true (next_fault_time s)
                  (Some (IZR current_time + duration_minutes * 60 * 1000000)))
    else if fault_active s &&
            match fault_end_time s with
            | Some fet => if Rge_dec (IZR current_time) fet then true else false
            | None => false
            end
    then
      modify (set_fault false (next_fault_time s) (fault_end_time s)) ;;;
      match _schedule_next_fault (options s) current_time (t_sched_ms w) with
      | Raise e => raise e
      | Ret nft => modify (fun s' => set_fault (fault_active s') nft (fault_end_time s') s')
      end
    else ret tt.

(** [def _tick]; the result is the list of the payloads passed to
    [on_data]. *)
Definition _tick (w : Oracle) : M (list Payload) :=
  modify (fun s => set_virtual_time (virtual_time s + 5 * 60 * 1000000)%Z s) ;;;
  modify (fun s =>
    if ((hour (virtual_time s) =? 0) && (minute (virtual_time s) =? 0))%Z
    then set_grid_power_data (replicate 288 0)
           (set_energy_counters 0 (monthly s) (yearly s) s)
    else s) ;;;
  modify (fun s =>
    if ((day (virtual_time s) =? 1) && (hour (virtual_time s) =? 0)
        && (minute (virtual_time s) =? 0))%Z
    then set_energy_counters (daily s) 0 (yearly s) s
    else s) ;;;
  modify (fun s =>
    if ((month (virtual_time s) =? 1) && (day (virtual_time s) =? 1)
        && (hour (virtual_time s) =? 0) && (minute (virtual_time s) =? 0))%Z
    then set_energy_counters (daily s) (monthly s) 0 s
    else s) ;;;
  sp <- _calculate_solar_power w ;;
  let is_daylight := fst sp in
  let solar_power := snd sp in
  _update_fault_status w ;;;
  s <- get ;;
  let grid_power := if fault_active s then 0 else solar_power * 0.98 in
  let reactive_power := if fault_active s then 0 else grid_power * 0.05 in
  let current_index :=
    (hour (virtual_time s) * 12 + minute (virtual_time s) / 5)%Z in
  modify (fun s =>
    if ((0 <=? current_index) && (current_index <? 288))%Z
    then set_grid_power_data
           (<[Z.to_nat current_index := grid_power / 1000]> (grid_power_data s)) s
    else s) ;;;
  s <- get ;;
  let batch :=
    if bool_decide (mode (options s) = "gridPower") &&
       match last_grid_power_update s with
       | None => true
       | Some l => bool_decide (300 * 1000000 <= virtual_time s - l)%Z
       end
    then [GridPowerPeriodic (grid_power_data s) (virtual_time s)]
    else [] in
  modify (fun s => match batch with
                   | [] => s
                   | _ => set_last_grid_power_update (Some (virtual_time s)) s
                   end) ;;;
  modify (fun s =>
    if fault_active s then s
    else
      let energy_increment := (solar_power * 5) / 60 / 1000 in
      set_energy_counters (daily s + energy_increment)
                          (monthly s + energy_increment)
                          (yearly s + energy_increment) s) ;;;
  s <- get ;;
  let elapsed_emulation_time_ms :=
    IZR (virtual_time s) / 1000000 * 1000 - simulation_start_time s in
  let report :=
    if bool_decide (mode (options s) = "inverter")
    then [InverterTick (virtual_time s) elapsed_emulation_time_ms
            (mkInverterData
               (if is_daylight then 1 else 0)
               (if fault_active s then 0 else 1)
               grid_power reactive_power solar_power
               (if Rlt_dec 0 solar_power then solar_power / 400 else 0)
               (if fault_active s then 1 else 0)
               (daily s) (monthly s) (yearly s))]
    else [] in
  ret (batch ++ report).

(** *** Runs *)

(** What the threads do to the emulator: the loop ticks, a caller changes
    the speed. *)
Inductive Command :=
| CTick (w : Oracle)
| CUpdateTickInterval (new_interval_ms : R).

Definition exec (c : Command) (s : State) : State :=
  match c with
  | CTick w => snd (_tick w s)
  | CUpdateTickInterval ms => snd (update_tick_interval ms s)
  end.

Definition run (trace : list Command) (s : State) : State :=
  foldl (fun s c => exec c s) s trace.

(** The payloads of a tick. *)
Definition emitted (w : Oracle) (s : State) : list Payload :=
  match fst (_tick w s) with
  | Ret l => l
  | Raise _ => []
  end.

(** *** Definitions used to state and prove the properties of the inverter *)

Definition advance_time (s : State) : State :=
  set_virtual_time (virtual_time s + 5 * 60 * 1000000)%Z s.

Definition reset_daily (s : State) : State :=
    if ((hour (virtual_time s) =? 0) && (minute (virtual_time s) =? 0))%Z
    then set_grid_power_data (replicate 288 0)
           (set_energy_counters 0 (monthly s) (yearly s) s)
    else s.

Definition reset_monthly (s : State) : State :=
    if ((day (virtual_time s) =? 1) && (hour (virtual_time s) =? 0)
        && (minute (virtual_time s) =? 0))%Z
    then set_energy_counters (daily s) 0 (yearly s) s
    else s.

Definition reset_yearly (s : State) : State :=
    if ((month (virtual_time s) =? 1) && (day (virtual_time s) =? 1)
        && (hour (virtual_time s) =? 0) && (minute (virtual_time s) =? 0))%Z
    then set_energy_counters (daily s) (monthly s) 0 s
    else s.

(** The state after the time advance and the resets. *)
Abbreviation after_reset s :=
  (reset_yearly (reset_monthly (reset_daily (advance_time s)))).

Definition solar_of (w : Oracle) (s : State) : R :=
  if negb (is_daylight_of w (virtual_time s)) || fault_active s then 0
  else Rmax 0 (peak_output * sin (hour_angle (virtual_time s)) * cloud_factor w).

Definition grid_power_of (solar_power : R) (s : State) : R :=
  if fault_active s then 0 else solar_power * 0.98.

Definition reactive_power_of (solar_power : R) (s : State) : R :=
  if fault_active s then 0 else grid_power_of solar_power s * 0.05.

Definition current_index_of (s : State) : Z :=
  (hour (virtual_time s) * 12 + minute (virtual_time s) / 5)%Z.

Definition record_sample (solar_power : R) (s : State) : State :=
  if ((0 <=? current_index_of s) && (current_index_of s <? 288))%Z
  then set_grid_power_data
         (<[Z.to_nat (current_index_of s) := grid_power_of solar_power s / 1000]>
            (grid_power_data s)) s
  else s.

Definition batch_of (s : State) : list Payload :=
    if bool_decide (mode (options s) = "gridPower") &&
       match last_grid_power_update s with
       | None => true
       | Some l => bool_decide (300 * 1000000 <= virtual_time s - l)%Z
       end
    then [GridPowerPeriodic (grid_power_data s) (virtual_time s)]
    else [].

Definition note_batch (s : State) : State :=
  match batch_of s with
  | [] => s
  | _ => set_last_grid_power_update (Some (virtual_time s)) s
  end.

Definition accumulate (solar_power : R) (s : State) : State :=
    if fault_active s then s
    else
      set_energy_counters (daily s + (solar_power * 5) / 60 / 1000)
                          (monthly s + (solar_power * 5) / 60 / 1000)
                          (yearly s + (solar_power * 5) / 60 / 1000) s.

Definition report_of (is_daylight : bool) (solar_power : R) (s2 s : State)
    : list Payload :=
    if bool_decide (mode (options s) = "inverter")
    then [InverterTick (virtual_time s)
            (IZR (virtual_time s) / 1000000 * 1000 - simulation_start_time s)
            (mkInverterData
               (if is_daylight then 1 else 0)
               (if fault_active s then 0 else 1)
               (grid_power_of solar_power s2) (reactive_power_of solar_power s2)
               solar_power
               (if Rlt_dec 0 solar_power then solar_power / 400 else 0)
               (if fault_active s then 1 else 0)
               (daily s) (monthly s) (yearly s))]
    else [].

Definition after_report (solar_power : R) (s2 : State) : State :=
  accumulate solar_power (note_batch (record_sample solar_power s2)).

(** What follows [_update_fault_status] in [_tick]. *)
Definition stage_report (is_daylight : bool) (solar_power : R) : M (list Payload) :=
  s <- get ;;
  let grid_power := if fault_active s then 0 else solar_power * 0.98 in
  let reactive_power := if fault_active s then 0 else grid_power * 0.05 in
  let current_index :=
    (hour (virtual_time s) * 12 + minute (virtual_time s) / 5)%Z in
  modify (fun s =>
    if ((0 <=? current_index) && (current_index <? 288))%Z
    then set_grid_power_data
           (<[Z.to_nat current_index := grid_power / 1000]> (grid_power_data s)) s
    else s) ;;;
  s <- get ;;
  let batch :=
    if bool_decide (mode (options s) = "gridPower") &&
       match last_grid_power_update s with
       | None => true
       | Some l => bool_decide (300 * 1000000 <= virtual_time s - l)%Z
       end
    then [GridPowerPeriodic (grid_power_data s) (virtual_time s)]
    else [] in
  modify (fun s => match batch with
                   | [] => s
                   | _ => set_last_grid_power_update (Some (virtual_time s)) s
                   end) ;;;
  modify (fun s =>
    if fault_active s then s
    else
      let energy_increment := (solar_power * 5) / 60 / 1000 in
      set_energy_counters (daily s + energy_increment)
                          (monthly s + energy_increment)
                          (yearly s + energy_increment) s) ;;;
  s <- get ;;
  let elapsed_emulation_time_ms :=
    IZR (virtual_time s) / 1000000 * 1000 - simulation_start_time s in
  let report :=
    if bool_decide (mode (options s) = "inverter")
    then [InverterTick (virtual_time s) elapsed_emulation_time_ms
            (mkInverterData
               (if is_daylight then 1 else 0)
               (if fault_active s then 0 else 1)
               grid_power reactive_power solar_power
               (if Rlt_dec 0 solar_power then solar_power / 400 else 0)
               (if fault_active s then 1 else 0)
               (daily s) (monthly s) (yearly s))]
    else [] in
  ret (batch ++ report).

(** The state of [_update_fault_status] apart from the three fault fields. *)
Definition same_but_fault (s s' : State) : Prop :=
  options s' = options s /\ virtual_time s' = virtual_time s /\
  simulation_start_time s' = simulation_start_time s /\
  current_tick_interval_ms s' = current_tick_interval_ms s /\
  daily s' = daily s /\ monthly s' = monthly s /\ yearly s' = yearly s /\
  grid_power_data s' = grid_power_data s /\
  last_grid_power_update s' = last_grid_power_update s.

(** A midsummer day: the inverter at 2024-06-21T11:55:00Z with the default
    options, and a tick whose cloud sample is 0.5. *)
Definition default_options : Options := mkOptions false 7 10 60 1000 "inverter".

Definition before_noon : State :=
  mkState default_options 1718970900000000
          (IZR 1718970900000000 / 1000000 * 1000) false None None 1000
          0 0 0 (replicate 288 0) None.

Definition half_cloud : Oracle := mkOracle None 0.5 0 0.

(** The test of [_tick] for the reset of the daily counter and of the
    samples, on the virtual time after the advance. *)
Definition resets_at (t : Z) : bool := ((hour t =? 0) && (minute t =? 0))%Z.

(** The index of the sample of a tick, from the virtual time after the
    advance. *)
Definition index_at (t : Z) : Z := (hour t * 12 + minute t / 5)%Z.

(** The inverter constructed with [start_time = 2024-01-01T16:58:00+00:00]
    and the default options. *)
Definition evening : State :=
  mkState default_options 1704128280000000
          (IZR 1704128280000000 / 1000000 * 1000) false None None 1000
          0 0 0 (replicate 288 0) None.

Definition clear_sky : Oracle := mkOracle None 0 0 0.

(** The state apart from the pacing of the loop. *)
Definition physics (s : State) : State := set_current_tick_interval_ms 0 s.

(** The oracles of the ticks of a run. *)
Fixpoint ticks_of (trace : list Command) : list Oracle :=
  match trace with
  | [] => []
  | CTick w :: rest => w :: ticks_of rest
  | CUpdateTickInterval _ :: rest => ticks_of rest
  end.

Definition run_ticks (ws : list Oracle) (s : State) : State :=
  run (CTick <$> ws) s.

(** *** The speed of the emulation *)

(** [def get_current_time_warp_factor] *)
Definition get_current_time_warp_factor (s : State) : R :=
  if Rle_dec (current_tick_interval_ms s) 0 then 0
  else if Rle_dec (initial_tick_interval_ms (options s)) 0 then 0
  else initial_tick_interval_ms (options s) / current_tick_interval_ms s.

(** The interval after a run: the last valid argument of
    [update_tick_interval], or the interval before the run. *)
Fixpoint last_interval (trace : list Command) (ms0 : R) : R :=
  match trace with
  | [] => ms0
  | CTick _ :: rest => last_interval rest ms0
  | CUpdateTickInterval ms :: rest =>
      last_interval rest (if Rle_dec ms 0 then ms0 else ms)
  end.

(** *** Invariants and conditions of a tick *)

Definition ordered (s : State) : Prop :=
  0 <= daily s /\ daily s <= monthly s /\ monthly s <= yearly s.

(** The test of [_tick] for a batch in gridPower mode, read before the
    tick: no batch was sent yet, or the last one not after the virtual
    time. *)
Definition batch_due (s : State) : bool :=
  match last_grid_power_update s with
  | None => true
  | Some l0 => bool_decide (l0 <= virtual_time s)%Z
  end.

Definition update_not_ahead (s : State) : Prop :=
  match last_grid_power_update s with
  | None => True
  | Some l0 => (l0 <= virtual_time s)%Z
  end.

(** Faults are disabled and none is active or scheduled. *)
Definition quiet (s : State) : Prop :=
  fault_enabled (options s) = false /\ fault_active s = false /\
  next_fault_time s = None.

(** A fault is due at the next tick and the two duration options are
    equal. *)
Definition stuck (nft : Z) (s : State) : Prop :=
  fault_enabled (options s) = true /\ fault_active s = false /\
  next_fault_time s = Some nft /\ (nft <= virtual_time s + 300000000)%Z /\
  fault_duration_max (options s) = fault_duration_min (options s).

(** *** More inverters *)

(** The default options in gridPower mode, and with faults enabled. *)
Definition grid_options : Options := mkOptions false 7 10 60 1000 "gridPower".

Definition faulty_options : Options := mkOptions true 7 10 60 1000 "inverter".

(** An inverter at 2024-06-21T11:55:00Z on which a fault is due. *)
Definition fault_due : State :=
  mkState faulty_options 1718970900000000
          (IZR 1718970900000000 / 1000000 * 1000) false
          (Some 1718970900000000%Z) None 1000
          0 0 0 (replicate 288 0) None.

(** The same with faults of exactly thirty minutes. *)
Definition fixed_due : State :=
  mkState (mkOptions true 7 30 30 1000 "inverter") 1718970900000000
          (IZR 1718970900000000 / 1000000 * 1000) false
          (Some 1718970900000000%Z) None 1000
          0 0 0 (replicate 288 0) None.

(** The inverter of [before_noon] in gridPower mode. *)
Definition grid_before_noon : State :=
  mkState grid_options 1718970900000000
          (IZR 1718970900000000 / 1000000 * 1000) false None None 1000
          0 0 0 (replicate 288 0) None.

Ltac fields :=
  cbn [options virtual_time simulation_start_time fault_active next_fault_time
       fault_end_time current_tick_interval_ms daily monthly yearly
       grid_power_data last_grid_power_update fst snd].

End Inverter.

(* ===================================================================== *)
(** ** Properties of the charger                                         *)
(* ===================================================================== *)

Module ChargerProofs.
Import Charger.

(** *** The monad on known intermediate results *)

Lemma bind_ret {A B} (m : M A) (k : A -> M B) s a s' :
  m s = (Ret a, s') -> bind m k s = k a s'.
Proof. intros H. unfold bind. by rewrite H. Qed.

Lemma bind_raise {A B} (m : M A) (k : A -> M B) s e s' :
  m s = (Raise e, s') -> bind m k s = (Raise e, s').
Proof. intros H. unfold bind. by rewrite H. Qed.

Lemma set_connector_status_some cid st s c :
  connectors s !! cid = Some c ->
  set_connector_status cid st s =
    (Ret tt, set_connectors (<[cid := with_c_status st c]> (connectors s)) s).
Proof.
  intros H. unfold set_connector_status, bind, get_connector, modify.
  by rewrite H.
Qed.

Lemma set_connector_status_none cid st s :
  connectors s !! cid = None ->
  set_connector_status cid st s = (Raise KeyError, s).
Proof.
  intros H. unfold set_connector_status, bind, get_connector.
  by rewrite H.
Qed.

(** *** [start_transaction] *)

Lemma start_transaction_ok cid tag ms uuid now s c :
  connectors s !! cid = Some c -> c_status c = AVAILABLE ->
  start_transaction cid tag ms uuid now s = (Ret uuid, started cid tag ms uuid now c s).
Proof.
  intros Hc Hav. unfold start_transaction, bind at 1, get. rewrite Hc.
  destruct (decide (c_status c ≠ AVAILABLE)) as [Hne|_]; [done|].
  erewrite bind_ret by (by apply set_connector_status_some).
  unfold bind, _send_status_notification, modify, start_timer, ret, started; simpl.
  rewrite lookup_insert_eq. simpl.
  destruct (energy_delivered s !! cid); reflexivity.
Qed.

Lemma start_transaction_unknown cid tag ms uuid now s :
  connectors s !! cid = None ->
  start_transaction cid tag ms uuid now s = (Raise ValueError, s).
Proof.
  intros Hc. unfold start_transaction, bind, get. by rewrite Hc.
Qed.

Lemma start_transaction_busy cid tag ms uuid now s c :
  connectors s !! cid = Some c -> c_status c ≠ AVAILABLE ->
  start_transaction cid tag ms uuid now s = (Raise ValueError, s).
Proof.
  intros Hc Hne. unfold start_transaction, bind, get. rewrite Hc.
  by destruct (decide (c_status c ≠ AVAILABLE)).
Qed.

(** C4. [start_transaction] raises [ValueError] exactly when the connector
    id is not a key of the connector table or the connector is not
    Available, and then the whole state is as before; otherwise it returns
    the new transaction id, the connector is Preparing, and the table holds
    under that id a transaction that is Active, with no energy delivered
    and the given meter start. *)
Theorem start_transaction_spec (cid : Z) (tag : string) (ms : Q) (uuid : string)
    (now : Z) (s : State) :
  let r := start_transaction cid tag ms uuid now s in
  ((exists e, fst r = Raise e) <->
     (connectors s !! cid = None \/
      exists c, connectors s !! cid = Some c /\ c_status c ≠ AVAILABLE)) /\
  (forall e, fst r = Raise e -> e = ValueError /\ snd r = s) /\
  (forall tid, fst r = Ret tid ->
     tid = uuid /\
     connector_status (snd r) cid = Some PREPARING /\
     (exists tx, active_transactions (snd r) !! tid = Some tx /\
        t_status tx = ACTIVE /\ t_connector_id tx = cid /\
        t_energy_delivered tx = 0%Q /\ meter_start tx = ms /\
        meter_stop tx = None /\ id_tag tx = tag) /\
     (forall cid', cid' ≠ cid -> connectors (snd r) !! cid' = connectors s !! cid') /\
     (forall tid', tid' ≠ tid ->
        active_transactions (snd r) !! tid' = active_transactions s !! tid')).
Proof.
  intros r. subst r.
  destruct (connectors s !! cid) as [c|] eqn:Hc.
  - destruct (decide (c_status c = AVAILABLE)) as [Hav|Hne].
    + rewrite (start_transaction_ok _ _ _ _ _ _ _ Hc Hav). simpl.
      split; [|split].
      * split; [intros [e He]; discriminate|].
        intros [Hn|(c' & Hc' & Hne)]; [discriminate|]. congruence.
      * intros e He. discriminate.
      * intros tid [= <-]. split; [done|].
        unfold connector_status. simpl. rewrite lookup_insert_eq. simpl.
        split; [done|]. split.
        { eexists. rewrite lookup_insert_eq. split; [reflexivity|]. simpl. done. }
        split.
        { intros cid' Hne. by rewrite lookup_insert_ne. }
        { intros tid' Hne. by rewrite lookup_insert_ne. }
    + rewrite (start_transaction_busy _ _ _ _ _ _ _ Hc Hne). simpl.
      split; [|split].
      * split; [intros _; right; eauto | intros _; eauto].
      * intros e [= <-]. done.
      * intros tid Ht. discriminate.
  - rewrite (start_transaction_unknown _ _ _ _ _ _ Hc). simpl.
    split; [|split].
    + split; [intros _; by left | intros _; eauto].
    + intros e [= <-]. done.
    + intros tid Ht. discriminate.
Qed.

Lemma start_transaction_spec_witness :
  let s := init (mkOptions 2 22000 5000) in
  let r := start_transaction 1 "tag" 0 "T1" 0 s in
  fst r = Ret "T1" /\ connector_status (snd r) 1 = Some PREPARING /\
  snd (start_transaction 3 "tag" 0 "T2" 0 s) = s.
Proof.
  intros s r.
  pose proof (start_transaction_spec 1 "tag" 0 "T1" 0 s) as (_ & _ & Hok).
  pose proof (start_transaction_spec 3 "tag" 0 "T2" 0 s) as (_ & Hfail & _).
  split; [reflexivity|]. split.
  - exact (proj1 (proj2 (Hok "T1" eq_refl))).
  - exact (proj2 (Hfail ValueError eq_refl)).
Defined.

(** *** Writes through the alias of a table entry *)

Lemma alter_some {K A} `{Countable K} (f : A -> A) (k : K) (m : gmap K A) x :
  m !! k = Some x -> alter f k m = <[k := f x]> m.
Proof.
  intros Hk. apply map_eq. intros j. rewrite lookup_alter, lookup_insert.
  destruct (decide (k = j)) as [->|]; [by rewrite Hk | done].
Qed.

Lemma modify_transaction_some tid f s tx :
  active_transactions s !! tid = Some tx ->
  modify_transaction tid f s =
    (Ret tt, set_active_transactions (<[tid := f tx]> (active_transactions s)) s).
Proof.
  intros H. unfold modify_transaction, modify. by rewrite (alter_some _ _ _ _ H).
Qed.

(** *** [stop_transaction], [_start_charging], [_finish_transaction] *)

Lemma stop_transaction_unknown tid reason now s :
  active_transactions s !! tid = None ->
  stop_transaction tid reason now s = (Ret false, s).
Proof. intros H. unfold stop_transaction, bind, get. by rewrite H. Qed.

Lemma stop_transaction_writes tid now s tx :
  active_transactions s !! tid = Some tx ->
  (modify_transaction tid (with_t_status STOPPED) ;;;
   modify_transaction tid
     (fun t => with_meter_stop (Some (meter_start t + t_energy_delivered t)%Q) t) ;;;
   modify_transaction tid (with_stop_time (Some now))) s =
  (Ret tt, set_active_transactions
             (<[tid := stopped_tx now tx]> (active_transactions s)) s).
Proof.
  intros H.
  erewrite bind_ret by (by apply modify_transaction_some).
  erewrite bind_ret
    by (apply modify_transaction_some; simpl; apply lookup_insert_eq).
  erewrite modify_transaction_some by (simpl; apply lookup_insert_eq).
  simpl. unfold set_active_transactions; simpl.
  by rewrite !insert_insert_eq.
Qed.

Lemma stop_transaction_ok tid reason now s tx c :
  active_transactions s !! tid = Some tx ->
  connectors s !! t_connector_id tx = Some c ->
  stop_transaction tid reason now s = (Ret true, stopped tid now tx c s).
Proof.
  intros Ht Hc. unfold stop_transaction, bind at 1, get. rewrite Ht.
  pose proof (stop_transaction_writes tid now s tx Ht) as Hw.
  unfold bind in Hw |- *.
  destruct (modify_transaction tid (with_t_status STOPPED) s) as [[[]|e] s1];
    [|discriminate].
  destruct (modify_transaction tid _ s1) as [[[]|e] s2]; [|discriminate].
  rewrite Hw. clear Hw.
  rewrite set_connector_status_some with (c := c) by done.
  unfold _send_status_notification, start_timer, modify, ret, stopped; simpl.
  rewrite lookup_insert_eq. simpl. reflexivity.
Qed.

Lemma stop_transaction_keyerror tid reason now s tx :
  active_transactions s !! tid = Some tx ->
  connectors s !! t_connector_id tx = None ->
  stop_transaction tid reason now s =
    (Raise KeyError,
     set_active_transactions (<[tid := stopped_tx now tx]> (active_transactions s)) s).
Proof.
  intros Ht Hc. unfold stop_transaction, bind at 1, get. rewrite Ht.
  pose proof (stop_transaction_writes tid now s tx Ht) as Hw.
  unfold bind in Hw |- *.
  destruct (modify_transaction tid (with_t_status STOPPED) s) as [[[]|e] s1];
    [|discriminate].
  destruct (modify_transaction tid _ s1) as [[[]|e] s2]; [|discriminate].
  rewrite Hw. clear Hw.
  by rewrite set_connector_status_none.
Qed.

Lemma _start_charging_unknown tid s :
  active_transactions s !! tid = None -> _start_charging tid s = (Ret tt, s).
Proof. intros H. unfold _start_charging, bind, get. by rewrite H. Qed.

Lemma _start_charging_ok tid s tx c :
  active_transactions s !! tid = Some tx ->
  connectors s !! t_connector_id tx = Some c ->
  _start_charging tid s = (Ret tt, charging tid tx c s).
Proof.
  intros Ht Hc. unfold _start_charging, bind at 1, get. rewrite Ht.
  erewrite bind_ret by (by apply set_connector_status_some).
  unfold bind, _send_status_notification; simpl. rewrite lookup_insert_eq.
  erewrite modify_transaction_some by (simpl; exact Ht).
  reflexivity.
Qed.

Lemma _finish_transaction_unknown tid s :
  active_transactions s !! tid = None -> _finish_transaction tid s = (Ret tt, s).
Proof. intros H. unfold _finish_transaction, bind, get. by rewrite H. Qed.

Lemma _finish_transaction_ok tid s tx c :
  active_transactions s !! tid = Some tx ->
  connectors s !! t_connector_id tx = Some c ->
  _finish_transaction tid s = (Ret tt, finished tid tx c s).
Proof.
  intros Ht Hc. unfold _finish_transaction, bind at 1, get. rewrite Ht.
  erewrite bind_ret by (by apply set_connector_status_some).
  unfold bind, _send_status_notification; simpl. rewrite lookup_insert_eq.
  erewrite modify_transaction_some by (simpl; exact Ht).
  reflexivity.
Qed.

(** *** The loop of [_update_transactions] *)

Lemma charging_now_true s0 tx :
  charging_now s0 tx = true <->
  t_status tx = ACTIVE /\
  exists c, connectors s0 !! t_connector_id tx = Some c /\ c_status c = CHARGING.
Proof.
  unfold charging_now, connector_status.
  rewrite andb_true_iff, !bool_decide_eq_true. split.
  - intros [Ha Hc]. split; [done|].
    destruct (connectors s0 !! t_connector_id tx) as [c|]; [|done].
    exists c. split; [done|]. by injection Hc.
  - intros [Ha (c & Hc & Hs)]. split; [done|]. by rewrite Hc; simpl; rewrite Hs.
Qed.

Lemma update_transaction_skip now tid tx s c :
  connectors s !! t_connector_id tx = Some c ->
  charging_now s tx = false ->
  update_transaction now tid tx s = (Ret tt, s).
Proof.
  intros Hc Hn. unfold update_transaction.
  destruct (decide (t_status tx ≠ ACTIVE)) as [|Ha]; [done|].
  unfold bind, get_connector. rewrite Hc.
  destruct (decide (c_status c ≠ CHARGING)) as [|Hch]; [done|].
  exfalso. apply not_true_iff_false in Hn. apply Hn, charging_now_true.
  split; [by apply dec_stable|]. exists c. split; [done|].
  by apply dec_stable.
Qed.

Lemma update_transaction_inactive now tid tx s :
  t_status tx ≠ ACTIVE -> update_transaction now tid tx s = (Ret tt, s).
Proof.
  intros Hn. unfold update_transaction.
  by destruct (decide (t_status tx ≠ ACTIVE)).
Qed.

Lemma update_transaction_charging now tid tx t0 s e :
  charging_now s tx = true ->
  active_transactions s !! tid = Some t0 ->
  energy_delivered s !! t_connector_id tx = Some e ->
  update_transaction now tid tx s =
    (Ret tt,
     mkState (options s) (connectors s)
       (<[tid := with_t_energy_delivered
                   (t_energy_delivered t0 + tick_incr (options s) now tx)%Q
                   (with_current_power (tick_power (options s) now tx) t0)]>
          (active_transactions s))
       (<[t_connector_id tx := (e + tick_incr (options s) now tx)%Q]>
          (energy_delivered s))
       (timers s) (status_log s)).
Proof.
  intros Hch Ht He. apply charging_now_true in Hch as [Ha (c & Hc & Hs)].
  unfold update_transaction.
  destruct (decide (t_status tx ≠ ACTIVE)) as [|_]; [done|].
  unfold bind at 1, get_connector. rewrite Hc.
  destruct (decide (c_status c ≠ CHARGING)) as [|_]; [done|].
  unfold bind at 1, get.
  erewrite bind_ret by (by apply modify_transaction_some).
  erewrite bind_ret
    by (apply modify_transaction_some; simpl; apply lookup_insert_eq).
  rewrite He. unfold modify, set_energy_delivered, set_active_transactions; simpl.
  by rewrite insert_insert_eq.
Qed.

Lemma conn_incr_insert s0 now c tid tx (m : gmap string Transaction) :
  m !! tid = None ->
  (conn_incr s0 now c (<[tid := tx]> m) ==
   if charging_now s0 tx && bool_decide (t_connector_id tx = c)
   then conn_incr s0 now c m + tick_incr (options s0) now tx
   else conn_incr s0 now c m)%Q.
Proof.
  intros Hm. unfold conn_incr.
  set (f := fun (_ : string) (tx : Transaction) (acc : Q) =>
              if charging_now s0 tx && bool_decide (t_connector_id tx = c)
              then (acc + tick_incr (options s0) now tx)%Q else acc).
  change (Qeq (map_fold f 0%Q (<[tid := tx]> m)) (f tid tx (map_fold f 0%Q m))).
  apply (map_fold_insert Qeq f); [| |done].
  - intros j z x y Hxy. unfold f. destruct (_ && _); [by rewrite Hxy | done].
  - intros j1 j2 z1 z2 y _ _ _. unfold f.
    destruct (charging_now s0 z1 && _), (charging_now s0 z2 && _);
      try reflexivity. ring.
Qed.

Lemma loop_inv_holds s0 now (m : gmap string Transaction) :
  wf s0 -> m ⊆ active_transactions s0 ->
  loop_inv s0 now (map_fold (loop_body now) (Ret tt, s0) m) m.
Proof.
  intros Hwf. revert m.
  apply (map_fold_weak_ind
           (fun r m => m ⊆ active_transactions s0 -> loop_inv s0 now r m)).
  - intros _. exists s0. repeat split; try done.
    intros c. destruct (energy_delivered s0 !! c) as [e0|] eqn:He; [|done].
    exists e0. split; [done|]. unfold conn_incr. rewrite map_fold_empty. ring.
  - intros tid tx m r Hm IH Hsub.
    assert (Htx : active_transactions s0 !! tid = Some tx).
    { eapply lookup_weaken; [|exact Hsub]. apply lookup_insert_eq. }
    assert (Hsub' : m ⊆ active_transactions s0).
    { etrans; [|exact Hsub]. by apply insert_subseteq. }
    destruct (IH Hsub') as (s' & -> & Ho & Hc & Htm & Hl & Ht & He).
    destruct (Hwf tid tx Htx) as [[c Hcc] [e0 He0]].
    simpl.
    destruct (charging_now s0 tx) eqn:Hch.
    + assert (Hch' : charging_now s' tx = true).
      { unfold charging_now, connector_status in *. by rewrite Hc. }
      pose proof (He (t_connector_id tx)) as Hec. rewrite He0 in Hec.
      destruct Hec as (e' & He' & Heq).
      assert (Ht' : active_transactions s' !! tid = Some tx).
      { rewrite Ht, Hm. done. }
      rewrite (update_transaction_charging now tid tx tx s' e' Hch' Ht' He').
      eexists. split; [reflexivity|]. simpl. rewrite Ho.
      repeat split; try done.
      * intros tid'. rewrite !lookup_insert.
        destruct (decide (tid = tid')) as [<-|Hne].
        { unfold ticked. by rewrite Hch. }
        apply Ht.
      * intros c'. rewrite lookup_insert.
        destruct (decide (t_connector_id tx = c')) as [<-|Hne].
        { rewrite He0. eexists. split; [reflexivity|].
          rewrite (conn_incr_insert _ _ _ _ _ _ Hm), Hch.
          rewrite bool_decide_eq_true_2 by done. simpl. rewrite Heq. ring. }
        pose proof (He c') as Hec'.
        destruct (energy_delivered s0 !! c') as [e0'|]; [|done].
        destruct Hec' as (e'' & He'' & Heq'). exists e''. split; [done|].
        rewrite (conn_incr_insert _ _ _ _ _ _ Hm), Hch.
        rewrite bool_decide_eq_false_2 by done. simpl. done.
    + assert (Hch' : charging_now s' tx = false).
      { unfold charging_now, connector_status in *. by rewrite Hc. }
      rewrite (update_transaction_skip now tid tx s' c)
        by (done || by rewrite Hc).
      exists s'. repeat split; try done.
      * intros tid'. rewrite lookup_insert.
        destruct (decide (tid = tid')) as [<-|Hne].
        { unfold ticked. rewrite Hch, Ht, Hm. done. }
        apply Ht.
      * intros c'. pose proof (He c') as Hec'.
        destruct (energy_delivered s0 !! c') as [e0'|]; [|done].
        destruct Hec' as (e'' & He'' & Heq'). exists e''. split; [done|].
        rewrite (conn_incr_insert _ _ _ _ _ _ Hm), Hch. simpl. done.
Qed.

(** One tick on a well-formed state. *)
Lemma _tick_spec now s :
  wf s ->
  exists s', _tick now s = (Ret tt, s') /\
    options s' = options s /\ connectors s' = connectors s /\
    timers s' = timers s /\ status_log s' = status_log s /\
    (forall tid, active_transactions s' !! tid =
                 ticked s now <$> active_transactions s !! tid) /\
    (forall c, match energy_delivered s !! c with
               | Some e0 => exists e', energy_delivered s' !! c = Some e' /\
                   (e' == e0 + conn_incr s now c (active_transactions s))%Q
               | None => energy_delivered s' !! c = None
               end).
Proof.
  intros Hwf.
  destruct (loop_inv_holds s now (active_transactions s) Hwf)
    as (s' & Hr & Ho & Hc & Htm & Hl & Ht & He); [done|].
  exists s'. split; [exact Hr|]. repeat split; try done.
  intros tid. rewrite Ht. by destruct (active_transactions s !! tid).
Qed.

(** *** The shape of every atomic action on a well-formed state *)

Lemma step_action s s' : wf s -> step s s' -> action s s'.
Proof.
  intros Hwf Hstep. destruct Hstep as
    [cid tag ms uuid now s Hfresh | tid reason now s | now s | tid s | tid s].
  - destruct (connectors s !! cid) as [c|] eqn:Hc.
    + destruct (decide (c_status c = AVAILABLE)) as [Hav|Hne].
      * rewrite (start_transaction_ok _ _ _ _ _ _ _ Hc Hav). simpl.
        by apply act_started.
      * rewrite (start_transaction_busy _ _ _ _ _ _ _ Hc Hne). apply act_none.
    + rewrite (start_transaction_unknown _ _ _ _ _ _ Hc). apply act_none.
  - destruct (active_transactions s !! tid) as [tx|] eqn:Ht.
    + destruct (Hwf tid tx Ht) as [[c Hc] _].
      rewrite (stop_transaction_ok _ _ _ _ _ _ Ht Hc). simpl.
      by apply act_stopped.
    + rewrite (stop_transaction_unknown _ _ _ _ Ht). apply act_none.
  - destruct (_tick_spec now s Hwf) as (s' & -> & Hpost). simpl.
    by apply (act_ticked now).
  - destruct (active_transactions s !! tid) as [tx|] eqn:Ht.
    + destruct (Hwf tid tx Ht) as [[c Hc] _].
      rewrite (_start_charging_ok _ _ _ _ Ht Hc). simpl. by apply act_charging.
    + rewrite (_start_charging_unknown _ _ Ht). apply act_none.
  - destruct (active_transactions s !! tid) as [tx|] eqn:Ht.
    + destruct (Hwf tid tx Ht) as [[c Hc] _].
      rewrite (_finish_transaction_ok _ _ _ _ Ht Hc). simpl. by apply act_finished.
    + rewrite (_finish_transaction_unknown _ _ Ht). apply act_none.
Qed.

Lemma ticked_connector_id s now tx : t_connector_id (ticked s now tx) = t_connector_id tx.
Proof. unfold ticked. by destruct (charging_now s tx). Qed.

Lemma ticked_status s now tx : t_status (ticked s now tx) = t_status tx.
Proof. unfold ticked. by destruct (charging_now s tx). Qed.

Lemma ticked_inactive s now tx : t_status tx ≠ ACTIVE -> ticked s now tx = tx.
Proof.
  intros Hn. unfold ticked.
  destruct (charging_now s tx) eqn:Hch; [|done].
  apply charging_now_true in Hch as [Ha _]. done.
Qed.

Lemma action_wf s s' : wf s -> action s s' -> wf s'.
Proof.
  intros Hwf Ha. destruct Ha as
    [s | cid tag ms uuid now c s Hfresh Hc Hav | tid now tx c s Ht Hc
     | now s s' Hpost | tid tx c s Ht Hc | tid tx c s Ht Hc]; [done|..].
  - intros tid tx'. simpl. rewrite lookup_insert.
    destruct (decide (uuid = tid)) as [<-|Hne].
    + intros [= <-]. simpl. rewrite lookup_insert_eq. split; [done|].
      destruct (energy_delivered s !! cid) eqn:He; [by rewrite He|].
      by rewrite lookup_insert_eq.
    + intros Ht. destruct (Hwf tid tx' Ht) as [Hc' He']. split.
      * rewrite lookup_insert. by destruct (decide (cid = t_connector_id tx')).
      * destruct (energy_delivered s !! cid); [done|].
        rewrite lookup_insert. by destruct (decide (cid = t_connector_id tx')).
  - intros tid' tx'. simpl. rewrite lookup_insert.
    destruct (decide (tid = tid')) as [<-|Hne].
    + intros [= <-]. simpl. rewrite lookup_insert_eq. split; [done|].
      by destruct (Hwf tid tx Ht).
    + intros Ht'. destruct (Hwf tid' tx' Ht') as [Hc' He']. split; [|done].
      rewrite lookup_insert. by destruct (decide (t_connector_id tx = t_connector_id tx')).
  - destruct Hpost as (Ho & Hc & Htm & Hl & Ht & He).
    intros tid tx'. rewrite Ht. intros Htx.
    destruct (active_transactions s !! tid) as [tx|] eqn:Htid; [|done].
    injection Htx as <-. rewrite ticked_connector_id, Hc.
    destruct (Hwf tid tx Htid) as [Hc' [e0 He0]]. split; [done|].
    pose proof (He (t_connector_id tx)) as Hec. rewrite He0 in Hec.
    destruct Hec as (e' & -> & _). done.
  - intros tid' tx'. simpl. rewrite lookup_insert.
    destruct (decide (tid = tid')) as [<-|Hne].
    + intros [= <-]. simpl. rewrite lookup_insert_eq. split; [done|].
      by destruct (Hwf tid tx Ht).
    + intros Ht'. destruct (Hwf tid' tx' Ht') as [Hc' He']. split; [|done].
      rewrite lookup_insert. by destruct (decide (t_connector_id tx = t_connector_id tx')).
  - intros tid' tx'. simpl. rewrite lookup_insert.
    destruct (decide (tid = tid')) as [<-|Hne].
    + intros [= <-]. simpl. rewrite lookup_insert_eq. split; [done|].
      by destruct (Hwf tid tx Ht).
    + intros Ht'. destruct (Hwf tid' tx' Ht') as [Hc' He']. split; [|done].
      rewrite lookup_insert. by destruct (decide (t_connector_id tx = t_connector_id tx')).
Qed.

Lemma step_wf s s' : wf s -> step s s' -> wf s'.
Proof. intros Hwf Hs. eapply action_wf; [done|]. by apply step_action. Qed.

Lemma steps_wf s s' : wf s -> rtc step s s' -> wf s'.
Proof. intros Hwf Hs. induction Hs; [done|]. eauto using step_wf. Qed.

Lemma init_wf o : wf (init o).
Proof. intros tid tx. simpl. by rewrite lookup_empty. Qed.

Lemma reachable_wf o s : reachable o s -> wf s.
Proof. apply steps_wf, init_wf. Qed.

Lemma action_settled s s' tid cid m :
  action s s' -> settled s tid cid m -> settled s' tid cid m.
Proof.
  intros Ha (tx & Ht & Hna & Hcid & Hms & Hm). unfold settled. destruct Ha as
    [s | cid' tag ms uuid now c s Hfresh Hc Hav | tid' now tx' c s Ht' Hc
     | now s s' Hpost | tid' tx' c s Ht' Hc | tid' tx' c s Ht' Hc].
  - by exists tx.
  - exists tx. simpl. rewrite lookup_insert_ne by congruence. done.
  - simpl. destruct (decide (tid' = tid)) as [->|Hne].
    + rewrite Ht in Ht'. injection Ht' as <-.
      eexists. rewrite lookup_insert_eq. split; [reflexivity|]. simpl.
      repeat split; try done. by rewrite Hm.
    + exists tx. by rewrite lookup_insert_ne.
  - destruct Hpost as (_ & _ & _ & _ & Htk & _).
    exists tx. rewrite Htk, Ht. simpl. by rewrite ticked_inactive.
  - simpl. destruct (decide (tid' = tid)) as [->|Hne].
    + rewrite Ht in Ht'. injection Ht' as <-.
      eexists. rewrite lookup_insert_eq. split; [reflexivity|]. done.
    + exists tx. by rewrite lookup_insert_ne.
  - simpl. destruct (decide (tid' = tid)) as [->|Hne].
    + rewrite Ht in Ht'. injection Ht' as <-.
      eexists. rewrite lookup_insert_eq. split; [reflexivity|]. done.
    + exists tx. by rewrite lookup_insert_ne.
Qed.

Lemma steps_settled s s' tid cid m :
  wf s -> rtc step s s' -> settled s tid cid m -> settled s' tid cid m.
Proof.
  intros Hwf Hs. induction Hs as [|s1 s2 s3 H12 H23 IH]; [done|].
  intros Hset. apply IH; [by eapply step_wf|].
  eapply action_settled; [|done]. by apply step_action.
Qed.

Lemma action_keeps s s' tid :
  action s s' -> is_Some (active_transactions s !! tid) ->
  is_Some (active_transactions s' !! tid).
Proof.
  intros Ha Hs. destruct Ha as
    [s | cid' tag ms uuid now c s Hfresh Hc Hav | tid' now tx' c s Ht' Hc
     | now s s' Hpost | tid' tx' c s Ht' Hc | tid' tx' c s Ht' Hc];
    simpl; [done| | | | |];
    try (rewrite lookup_insert; by case_decide).
  destruct Hpost as (_ & _ & _ & _ & Htk & _). rewrite Htk.
  by apply fmap_is_Some.
Qed.

Lemma steps_keep s s' tid :
  wf s -> rtc step s s' -> is_Some (active_transactions s !! tid) ->
  is_Some (active_transactions s' !! tid).
Proof.
  intros Hwf Hs. induction Hs as [|s1 s2 s3 H12 H23 IH]; [done|].
  intros Hsome. apply IH; [by eapply step_wf|].
  eapply action_keeps; [|done]. by apply step_action.
Qed.

(** *** The pending timers *)

Lemma add_timer_head tm l :
  Forall (fun x => due tm < due x) l -> add_timer tm l = tm :: l.
Proof.
  intros Hl. destruct Hl as [|x l Hx Hl]; [done|]. simpl.
  destruct (decide (due x <= due tm)); [lia | done].
Qed.

Lemma run_timers_none t l s :
  Forall (fun x => t < due x) l -> run_timers t l s = set_timers l s.
Proof.
  intros Hl. destruct Hl as [|x l Hx Hl]; [done|]. simpl.
  destruct (decide (due x <= t)); [lia | done].
Qed.

Lemma wf_decide s :
  bool_decide (map_Forall (fun _ tx =>
      is_Some (connectors s !! t_connector_id tx) /\
      is_Some (energy_delivered s !! t_connector_id tx))
    (active_transactions s)) = true -> wf s.
Proof. intros H. apply bool_decide_eq_true in H. exact H. Qed.

(** What [stop_transaction] does guarantee. On an unknown id it returns
    false and leaves the state as it was. On a known id it returns true;
    the transaction is then
    Stopped with meter stop equal to meter start plus the energy delivered
    at that instant, the connector is Finishing and a finishing timer is
    pending for two seconds later. Whatever happens afterwards, the meter
    stop keeps that value. When no other timer is due earlier, nothing
    changes before the two seconds have passed, and when they have passed
    the connector is Available and the transaction Completed. *)
Theorem stop_transaction_spec (tid reason : string) (now : Z) (s : State) :
  (active_transactions s !! tid = None ->
   stop_transaction tid reason now s = (Ret false, s)) /\
  (forall tx, wf s -> active_transactions s !! tid = Some tx ->
     let s1 := snd (stop_transaction tid reason now s) in
     let m := (meter_start tx + t_energy_delivered tx)%Q in
     fst (stop_transaction tid reason now s) = Ret true /\
     (exists tx1, active_transactions s1 !! tid = Some tx1 /\
        t_status tx1 = STOPPED /\ meter_stop tx1 = Some m) /\
     connector_status s1 (t_connector_id tx) = Some FINISHING /\
     In (mkTimer (now + 2000000) (CbFinishTransaction tid)) (timers s1) /\
     (forall s2, rtc step s1 s2 ->
        exists tx2, active_transactions s2 !! tid = Some tx2 /\
          meter_stop tx2 = Some m /\ t_status tx2 ≠ ACTIVE) /\
     (Forall (fun tm => now + 2000000 < due tm) (timers s) ->
        (forall t, t < now + 2000000 -> advance_to t s1 = s1) /\
        connector_status (advance_to (now + 2000000) s1) (t_connector_id tx)
          = Some AVAILABLE /\
        (exists tx3, active_transactions (advance_to (now + 2000000) s1) !! tid
                       = Some tx3 /\
           t_status tx3 = COMPLETED /\ meter_stop tx3 = Some m))).
Proof.
  split; [apply stop_transaction_unknown|].
  intros tx Hwf Ht s1 m. subst s1 m.
  destruct (Hwf tid tx Ht) as [[c Hc] _].
  rewrite (stop_transaction_ok _ reason _ _ _ _ Ht Hc). simpl.
  split; [done|]. split.
  { eexists. rewrite lookup_insert_eq. split; [reflexivity|]. done. }
  split.
  { unfold connector_status. simpl. by rewrite lookup_insert_eq. }
  split.
  { clear. induction (timers s) as [|x l IH]; simpl; [by left|].
    destruct (decide (due x <= now + 2000000)); simpl; [by right | by left]. }
  assert (Hwf1 : wf (stopped tid now tx c s)).
  { eapply action_wf; [exact Hwf|]. by apply act_stopped. }
  split.
  { intros s2 Hs.
    assert (Hset : settled (stopped tid now tx c s) tid (t_connector_id tx)
                     (meter_start tx + t_energy_delivered tx)%Q).
    { eexists. simpl. rewrite lookup_insert_eq. split; [reflexivity|]. done. }
    destruct (steps_settled _ _ _ _ _ Hwf1 Hs Hset)
      as (tx2 & Ht2 & Hna & _ & Hms & _).
    by exists tx2. }
  intros Hlater.
  assert (Htimers : timers (stopped tid now tx c s) =
            mkTimer (now + 2000000) (CbFinishTransaction tid) :: timers s).
  { simpl. by apply add_timer_head. }
  split.
  { intros t Hlt. unfold advance_to. rewrite Htimers. simpl.
    destruct (decide (now + 2000000 <= t)); [lia|].
    unfold set_timers, stopped. simpl. by rewrite add_timer_head. }
  unfold advance_to. rewrite Htimers.
  cbn [run_timers due callback run_callback].
  destruct (decide (now + 2000000 <= now + 2000000)); [|lia].
  erewrite _finish_transaction_ok;
    [|simpl; apply lookup_insert_eq | simpl; apply lookup_insert_eq].
  rewrite run_timers_none by (cbn [snd]; exact Hlater).
  unfold connector_status. simpl. rewrite !lookup_insert_eq. simpl.
  split; [done|]. eexists. split; [reflexivity|]. done.
Qed.

Lemma one_charging_wf : wf one_charging.
Proof. apply wf_decide. vm_compute. reflexivity. Defined.

Lemma stop_transaction_spec_witness :
  stop_transaction "T0" "Local" (sec 10) one_charging = (Ret false, one_charging) /\
  (let s1 := snd (stop_transaction "T1" "Local" (sec 10) one_charging) in
   connector_status s1 1 = Some FINISHING /\
   advance_to (sec 11) s1 = s1 /\
   connector_status (advance_to (sec 10 + 2000000) s1) 1 = Some AVAILABLE).
Proof.
  destruct (stop_transaction_spec "T0" "Local" (sec 10) one_charging) as [Hno _].
  destruct (stop_transaction_spec "T1" "Local" (sec 10) one_charging) as [_ Hyes].
  split; [apply Hno; reflexivity|].
  destruct (Hyes one_charging_tx one_charging_wf eq_refl)
    as (_ & _ & Hfin & _ & _ & Hdelay).
  destruct Hdelay as (Hbefore & Hafter & _); [vm_compute; constructor|].
  split; [exact Hfin|]. split; [|exact Hafter].
  apply Hbefore. vm_compute. reflexivity.
Defined.

(** C5 (the code departs from the claim). A transaction that is stopped
    at 10 s and stopped again at 11 s: the second call returns true and the
    connector is Finishing, but the timer of the first call is still
    pending and makes the connector Available, and the transaction
    Completed, at 12 s, one second after the second stop and not after the
    finishing delay of two seconds; the timer of the second call is then
    still to come. *)
Theorem restop_available_early :
  let s11 := advance_to (sec 11) (run [(sec 10, CStop "T1" "Local")] one_charging) in
  let s := snd (stop_transaction "T1" "Local" (sec 11) s11) in
  transaction_status s11 "T1" = Some STOPPED /\
  fst (stop_transaction "T1" "Local" (sec 11) s11) = Ret true /\
  connector_status s 1 = Some FINISHING /\
  connector_status (advance_to (sec 12 - 1) s) 1 = Some FINISHING /\
  connector_status (advance_to (sec 12) s) 1 = Some AVAILABLE /\
  transaction_status (advance_to (sec 12) s) "T1" = Some COMPLETED /\
  timers (advance_to (sec 12) s) = [mkTimer (sec 13) (CbFinishTransaction "T1")].
Proof. vm_compute. done. Qed.

(** C10. No action removes an entry of the transaction table, and a
    transaction that is already Stopped or Completed can be stopped again:
    the call returns true, the status is Stopped, the meter stop is
    assigned meter start plus energy delivered, a finishing timer is
    started and the connector becomes Finishing, while every other
    transaction, also an Active one on the same connector, is left as it
    is. *)
Theorem stop_transaction_not_idempotent :
  (forall s s' tid, wf s -> rtc step s s' ->
     is_Some (active_transactions s !! tid) ->
     is_Some (active_transactions s' !! tid)) /\
  (forall s tid tx reason now,
     wf s -> active_transactions s !! tid = Some tx ->
     t_status tx = STOPPED \/ t_status tx = COMPLETED ->
     let r := stop_transaction tid reason now s in
     fst r = Ret true /\
     transaction_status (snd r) tid = Some STOPPED /\
     meter_stop <$> active_transactions (snd r) !! tid =
       Some (Some (meter_start tx + t_energy_delivered tx)%Q) /\
     connector_status (snd r) (t_connector_id tx) = Some FINISHING /\
     In (mkTimer (now + 2000000) (CbFinishTransaction tid)) (timers (snd r)) /\
     (forall tid', tid' ≠ tid ->
        active_transactions (snd r) !! tid' = active_transactions s !! tid')).
Proof.
  split; [intros s s' tid; apply steps_keep|].
  intros s tid tx reason now Hwf Ht _ r. subst r.
  destruct (Hwf tid tx Ht) as [[c Hc] _].
  rewrite (stop_transaction_ok _ reason _ _ _ _ Ht Hc). simpl.
  unfold transaction_status, connector_status. simpl.
  rewrite !lookup_insert_eq. simpl.
  repeat split; try done.
  - clear. induction (timers s) as [|x l IH]; simpl; [by left|].
    destruct (decide (due x <= now + 2000000)); simpl; [by right | by left].
  - intros tid' Hne. by rewrite lookup_insert_ne.
Qed.

Lemma second_started_wf : wf second_started.
Proof. apply wf_decide. vm_compute. reflexivity. Defined.

Lemma stop_transaction_not_idempotent_witness :
  let r := stop_transaction "T1" "Local" (sec 14) second_started in
  transaction_status second_started "T1" = Some COMPLETED /\
  transaction_status second_started "T2" = Some ACTIVE /\
  fst r = Ret true /\
  transaction_status (snd r) "T1" = Some STOPPED /\
  connector_status (snd r) 1 = Some FINISHING /\
  transaction_status (snd r) "T2" = Some ACTIVE.
Proof.
  intros r. subst r.
  destruct stop_transaction_not_idempotent as [_ Hagain].
  destruct (Hagain second_started "T1" completed_tx "Local" (sec 14)
              second_started_wf eq_refl (or_intror eq_refl))
    as (Hret & Hst & _ & Hconn & _ & Hother).
  split; [reflexivity|]. split; [reflexivity|].
  split; [exact Hret|]. split; [exact Hst|]. split; [exact Hconn|].
  unfold transaction_status. rewrite (Hother "T2") by discriminate.
  reflexivity.
Defined.

(** *** The charging curve *)

Lemma power_factor_ramp e : (e < 5 -> power_factor e == 0.1 + (e / 5) * 0.9)%Q.
Proof.
  intros H. unfold power_factor. destruct (Qlt_le_dec e 5); [reflexivity|lra].
Qed.

Lemma power_factor_full e : (5 <= e -> e < 30 -> power_factor e == 1)%Q.
Proof.
  intros H1 H2. unfold power_factor.
  destruct (Qlt_le_dec e 5); [lra|].
  destruct (Qlt_le_dec e 30); [reflexivity|lra].
Qed.

Lemma power_factor_taper e :
  (30 <= e -> power_factor e == Qmax 0.3 (1.0 - ((e - 30) / 60) * 0.7))%Q.
Proof.
  intros H. unfold power_factor.
  destruct (Qlt_le_dec e 5); [lra|].
  destruct (Qlt_le_dec e 30); [lra|reflexivity].
Qed.

Lemma power_factor_bounds e : (0 <= e -> 0.1 <= power_factor e <= 1)%Q.
Proof.
  intros H. unfold power_factor.
  destruct (Qlt_le_dec e 5).
  - assert (e / 5 == e * (1 # 5))%Q as -> by (unfold Qdiv; reflexivity). lra.
  - destruct (Qlt_le_dec e 30); [lra|].
    assert ((e - 30) / 60 == (e - 30) * (1 # 60))%Q as Hd
      by (unfold Qdiv; reflexivity).
    split.
    + apply Qle_trans with (0.3)%Q; [lra | apply Q.le_max_l].
    + apply Q.max_lub; [lra|]. rewrite Hd. lra.
Qed.

Lemma elapsed_minutes_nonneg now tx :
  start_time tx <= now -> (0 <= elapsed_minutes now tx)%Q.
Proof.
  intros H. unfold elapsed_minutes.
  assert (0 <= inject_Z (now - start_time tx))%Q as Hz.
  { change 0%Q with (inject_Z 0). rewrite <- Zle_Qle. lia. }
  unfold Qdiv. repeat apply Qmult_le_0_compat; try done.
Qed.

Lemma _tick_charging now s tid tx :
  wf s -> active_transactions s !! tid = Some tx ->
  t_status tx = ACTIVE -> connector_status s (t_connector_id tx) = Some CHARGING ->
  active_transactions (snd (_tick now s)) !! tid =
    Some (with_t_energy_delivered
            (t_energy_delivered tx + tick_incr (options s) now tx)%Q
            (with_current_power (tick_power (options s) now tx) tx)).
Proof.
  intros Hwf Ht Ha Hc.
  destruct (_tick_spec now s Hwf) as (s' & -> & _ & _ & _ & _ & Htk & _).
  simpl. rewrite Htk, Ht. simpl. unfold ticked, charging_now.
  by rewrite !bool_decide_eq_true_2.
Qed.

Lemma _tick_charging_energy now s tid tx :
  wf s -> active_transactions s !! tid = Some tx ->
  t_status tx = ACTIVE -> connector_status s (t_connector_id tx) = Some CHARGING ->
  (t_energy_delivered <$> active_transactions (snd (_tick now s)) !! tid =
     Some (t_energy_delivered tx + tick_incr (options s) now tx)%Q) /\
  (current_power <$> active_transactions (snd (_tick now s)) !! tid =
     Some (tick_power (options s) now tx)).
Proof.
  intros Hwf Ht Ha Hc. by rewrite (_tick_charging now s tid tx Hwf Ht Ha Hc).
Qed.

(** C2. After a tick at time [now], a transaction that is Active on a
    connector that is Charging has [current_power = max_power * factor],
    where [e] is the time from its start to [now] in minutes (the two times
    are in microseconds, so [e = (now - start_time) / 1000000 / 60]) and
    the factor is [0.1 + (e/5)*0.9] below 5, [1] from 5 to below 30, and
    [max 0.3 (1 - ((e-30)/60)*0.7)] from 30 on. For a tick not before the
    start the factor lies in [0.1, 1], and then, for a maximum power that
    is not negative, the power lies in [0.1 * max_power, max_power]. *)
Theorem charging_curve (now : Z) (s : State) (tid : string) (tx : Transaction) :
  wf s -> active_transactions s !! tid = Some tx ->
  t_status tx = ACTIVE -> connector_status s (t_connector_id tx) = Some CHARGING ->
  let e := ((inject_Z (now - start_time tx) / 1000000) / 60)%Q in
  let f := power_factor e in
  exists tx', active_transactions (snd (_tick now s)) !! tid = Some tx' /\
    current_power tx' = (max_power (options s) * f)%Q /\
    (e < 5 -> f == 0.1 + (e / 5) * 0.9)%Q /\
    (5 <= e -> e < 30 -> f == 1)%Q /\
    (30 <= e -> f == Qmax 0.3 (1.0 - ((e - 30) / 60) * 0.7))%Q /\
    (start_time tx <= now -> (0.1 <= f <= 1)%Q) /\
    (start_time tx <= now -> (0 <= max_power (options s))%Q ->
     (0.1 * max_power (options s) <= current_power tx' <= max_power (options s))%Q).
Proof.
  intros Hwf Ht Ha Hc e f.
  eexists. split; [by apply _tick_charging|]. simpl.
  split; [reflexivity|].
  split; [apply power_factor_ramp|]. split; [apply power_factor_full|].
  split; [apply power_factor_taper|].
  assert (Hb : start_time tx <= now -> (0.1 <= f <= 1)%Q).
  { intros Hnow.
    exact (power_factor_bounds _ (elapsed_minutes_nonneg now tx Hnow)). }
  split; [exact Hb|]. intros Hnow Hmax. specialize (Hb Hnow).
  change (tick_power (options s) now tx) with (max_power (options s) * f)%Q.
  destruct Hb as [H1 H2]. clearbody f. revert Hmax.
  generalize (max_power (options s)). intros mp Hmp.
  split; nra.
Qed.

Lemma charging_curve_witness :
  exists tx', active_transactions (snd (_tick (sec 8) one_charging)) !! "T1" = Some tx' /\
    (current_power tx' == 2728)%Q /\
    (0.1 * 22000 <= current_power tx' <= 22000)%Q.
Proof.
  assert (Hnow : start_time one_charging_tx <= sec 8) by (vm_compute; discriminate).
  assert (Hmax : (0 <= max_power (options one_charging))%Q)
    by (vm_compute; discriminate).
  destruct (charging_curve (sec 8) one_charging "T1" one_charging_tx
              one_charging_wf eq_refl eq_refl eq_refl)
    as (tx' & Htx & Hp & _ & _ & _ & _ & Hb).
  exists tx'. split; [exact Htx|]. split; [|exact (Hb Hnow Hmax)].
  rewrite Hp. vm_compute. reflexivity.
Defined.

(** *** Energy accounting over ticks *)

Lemma tick_incr_nonneg o now tx :
  (0 <= max_power o)%Q -> (0 <= tick_interval_ms o)%Q -> start_time tx <= now ->
  (0 <= tick_incr o now tx)%Q.
Proof.
  intros Hmp Hti Hnow. unfold tick_incr, energy_increment, tick_hours, tick_power.
  pose proof (power_factor_bounds _ (elapsed_minutes_nonneg now tx Hnow)) as [Hf _].
  unfold Qdiv. repeat apply Qmult_le_0_compat; try done. lra.
Qed.




Lemma riemann_nonneg o tx nows :
  (0 <= max_power o)%Q -> (0 <= tick_interval_ms o)%Q ->
  Forall (fun now => start_time tx <= now) nows ->
  (0 <= riemann o tx nows)%Q.
Proof.
  intros Hmp Hti Hall. induction Hall as [|now rest Hnow Hall IH]; [done|].
  simpl. pose proof (tick_incr_nonneg o now tx Hmp Hti Hnow) as Hi.
  unfold tick_incr, energy_increment in Hi. lra.
Qed.











(** *** The connector over the life of a transaction *)

(** A stop that comes after the preparation delay: the connector is
    notified Preparing, Charging, Finishing, Available. *)
Example nominal_status_sequence :
  let s := advance_to (sec 10)
             (run [(sec 0, CStart 1 "tag" 0 "T1"); (sec 4, CStop "T1" "Local")]
                  one_connector) in
  statuses_of 1 s = [PREPARING; CHARGING; FINISHING; AVAILABLE] /\
  connector_status s 1 = Some AVAILABLE /\
  transaction_status s "T1" = Some COMPLETED.
Proof. vm_compute. done. Qed.

(** C3 (the code departs from the claim). When [stop_transaction] is
    called half a second after [start_transaction], before the preparation
    timer has fired, the connector is notified Preparing, Finishing,
    Available and then Charging: the timer of [_start_charging] fires after
    the transaction has completed and moves the connector from Available to
    Charging, where it stays with no Active transaction. *)
Theorem early_stop_status_sequence :
  let s := advance_to (sec 10)
             (run [(sec 0, CStart 1 "tag" 0 "T1"); (500000, CStop "T1" "Local")]
                  one_connector) in
  statuses_of 1 s = [PREPARING; FINISHING; AVAILABLE; CHARGING] /\
  connector_status s 1 = Some CHARGING /\
  transaction_status s "T1" = Some COMPLETED /\
  timers s = [].
Proof. vm_compute. done. Qed.

(** *** Active transactions per connector *)

Lemma init_all_available o cid c :
  connectors (init o) !! cid = Some c -> c_status c = AVAILABLE.
Proof.
  simpl. intros H. apply elem_of_list_to_map_2 in H.
  apply list_elem_of_fmap in H as (i & [= -> ->] & _). done.
Qed.

(** C9 (the code departs from the claim). The connector is Available
    after construction ([init_all_available] has it for every charger), but
    stopping a completed transaction a second time
    frees a connector on which a newer transaction is Active, and a third
    transaction can then be started there: two Active transactions
    reference connector 1. *)
Theorem two_active_on_one_connector :
  connector_status one_connector 1 = Some AVAILABLE /\
  (let s := run [(sec 0, CStart 1 "tag" 0 "T1"); (sec 4, CStop "T1" "Local");
                 (sec 7, CStart 1 "tag" 0 "T2"); (sec 11, CStop "T1" "Local");
                 (sec 14, CStart 1 "tag" 0 "T3")] one_connector in
   (t_status <$> active_on s 1) !! "T2" = Some ACTIVE /\
   (t_status <$> active_on s 1) !! "T3" = Some ACTIVE /\
   size (active_on s 1) = 2%nat).
Proof. vm_compute. done. Qed.

End ChargerProofs.

(* ===================================================================== *)
(** ** Properties of the inverter                                        *)
(* ===================================================================== *)

Module InverterProofs.
Import Inverter.

Local Open Scope R_scope.

(** *** The calendar on known dates *)

Example civil_epoch : civil_of_days 0 = (1970, 1, 1)%Z.
Proof. reflexivity. Qed.

Example civil_leap_day : civil_of_days 11016 = (2000, 2, 29)%Z.
Proof. reflexivity. Qed.

Example civil_new_year : civil_of_days 19723 = (2024, 1, 1)%Z.
Proof. reflexivity. Qed.

Example fields_2024_03_01 :
  let t := (1709251200 * 1000000 + 13 * 3600000000 + 7 * 60000000)%Z in
  (year t, month t, day t, hour t, minute t) = (2024, 3, 1, 13, 7)%Z.
Proof. reflexivity. Qed.

(** *** Float remainder *)

Lemma fmod_bounds x m : 0 < m -> 0 <= fmod x m < m.
Proof.
  intros Hm. unfold fmod.
  destruct (base_Int_part (x / m)) as [Hlo Hhi].
  set (i := IZR (Int_part (x / m))) in *.
  assert (Hx : x = m * (x / m)) by (field; lra).
  split.
  - assert (m * i <= m * (x / m)) by (apply Rmult_le_compat_l; lra). lra.
  - assert (m * (x / m) < m * (i + 1)) by (apply Rmult_lt_compat_l; lra). lra.
Qed.

Lemma cloud_factor_bounds w : 0.7 <= cloud_factor w < 1.3.
Proof.
  unfold cloud_factor. destruct (fmod_bounds (t_cloud w) 0.6); lra.
Qed.

(** *** The stages of a tick *)

Lemma bind_modify {A} (f : State -> State) (k : unit -> M A) s :
  bind (modify f) k s = k tt (f s).
Proof. reflexivity. Qed.

Lemma bind_get {A} (k : State -> M A) s : bind get k s = k s s.
Proof. reflexivity. Qed.

Lemma _calculate_solar_power_ret w s :
  _calculate_solar_power w s =
    (Ret (is_daylight_of w (virtual_time s), solar_of w s), s).
Proof.
  unfold _calculate_solar_power, solar_of. rewrite bind_get.
  by destruct (negb _ || _).
Qed.

Lemma bind_calc {A} w (k : bool * R -> M A) s :
  bind (_calculate_solar_power w) k s =
  k (is_daylight_of w (virtual_time s), solar_of w s) s.
Proof. unfold bind at 1. rewrite _calculate_solar_power_ret. reflexivity. Qed.


Lemma step_advance {A} (k : M A) s :
  (modify (fun s => set_virtual_time (virtual_time s + 5 * 60 * 1000000)%Z s) ;;; k) s
  = k (advance_time s).
Proof. reflexivity. Qed.

Lemma step_reset_daily {A} (k : M A) s :
  (modify (fun s =>
    if ((hour (virtual_time s) =? 0) && (minute (virtual_time s) =? 0))%Z
    then set_grid_power_data (replicate 288 0)
           (set_energy_counters 0 (monthly s) (yearly s) s)
    else s) ;;; k) s = k (reset_daily s).
Proof. reflexivity. Qed.

Lemma step_reset_monthly {A} (k : M A) s :
  (modify (fun s =>
    if ((day (virtual_time s) =? 1) && (hour (virtual_time s) =? 0)
        && (minute (virtual_time s) =? 0))%Z
    then set_energy_counters (daily s) 0 (yearly s) s
    else s) ;;; k) s = k (reset_monthly s).
Proof. reflexivity. Qed.

Lemma step_reset_yearly {A} (k : M A) s :
  (modify (fun s =>
    if ((month (virtual_time s) =? 1) && (day (virtual_time s) =? 1)
        && (hour (virtual_time s) =? 0) && (minute (virtual_time s) =? 0))%Z
    then set_energy_counters (daily s) (monthly s) 0 s
    else s) ;;; k) s = k (reset_yearly s).
Proof. reflexivity. Qed.


Lemma stage_report_ret isd solar s2 :
  stage_report isd solar s2 =
  (Ret (batch_of (record_sample solar s2) ++
        report_of isd solar s2 (after_report solar s2)),
   after_report solar s2).
Proof. reflexivity. Qed.

(** A tick: the resets, the fault status, then the samples, the counters
    and the payloads. *)
Lemma _tick_unfold w s :
  _tick w s =
  match _update_fault_status w (after_reset s) with
  | (Ret _, s2) =>
      (Ret (batch_of (record_sample (solar_of w (after_reset s)) s2) ++
            report_of (is_daylight_of w (virtual_time (after_reset s)))
                      (solar_of w (after_reset s)) s2
                      (after_report (solar_of w (after_reset s)) s2)),
       after_report (solar_of w (after_reset s)) s2)
  | (Raise e, s2) => (Raise e, s2)
  end.
Proof.
  unfold _tick.
  rewrite step_advance, step_reset_daily, step_reset_monthly, step_reset_yearly.
  rewrite bind_calc. unfold bind at 1.
  destruct (_update_fault_status w (after_reset s)) as [[[]|e] s2]; [|reflexivity].
  rewrite <- stage_report_ret. reflexivity.
Qed.

(** *** What each stage leaves unchanged *)

Lemma virtual_time_advance s :
  virtual_time (advance_time s) = (virtual_time s + 300000000)%Z.
Proof. reflexivity. Qed.

Lemma virtual_time_reset_daily s : virtual_time (reset_daily s) = virtual_time s.
Proof. unfold reset_daily. by case_match. Qed.

Lemma virtual_time_reset_monthly s : virtual_time (reset_monthly s) = virtual_time s.
Proof. unfold reset_monthly. by case_match. Qed.

Lemma virtual_time_reset_yearly s : virtual_time (reset_yearly s) = virtual_time s.
Proof. unfold reset_yearly. by case_match. Qed.

Lemma virtual_time_after_reset s :
  virtual_time (after_reset s) = (virtual_time s + 300000000)%Z.
Proof.
  by rewrite virtual_time_reset_yearly, virtual_time_reset_monthly,
    virtual_time_reset_daily.
Qed.

Lemma fault_active_after_reset s : fault_active (after_reset s) = fault_active s.
Proof.
  unfold reset_yearly, reset_monthly, reset_daily.
  repeat case_match; reflexivity.
Qed.

Lemma options_after_reset s : options (after_reset s) = options s.
Proof.
  unfold reset_yearly, reset_monthly, reset_daily.
  repeat case_match; reflexivity.
Qed.

Lemma length_after_reset s :
  length (grid_power_data s) = 288%nat ->
  length (grid_power_data (after_reset s)) = 288%nat.
Proof.
  intros H. unfold reset_yearly, reset_monthly, reset_daily.
  repeat case_match; simpl; try done; by rewrite length_replicate.
Qed.

Lemma _update_fault_status_frame w s :
  same_but_fault s (snd (_update_fault_status w s)).
Proof.
  unfold _update_fault_status, same_but_fault, bind, get, modify, ret, raise.
  repeat case_match; simplify_eq; simpl; done.
Qed.

Lemma _update_fault_status_disabled w s :
  fault_enabled (options s) = false -> _update_fault_status w s = (Ret tt, s).
Proof.
  intros H. unfold _update_fault_status, bind, get, ret. by rewrite H.
Qed.

Lemma fields_after_report solar s :
  options (after_report solar s) = options s /\
  virtual_time (after_report solar s) = virtual_time s /\
  fault_active (after_report solar s) = fault_active s /\
  next_fault_time (after_report solar s) = next_fault_time s /\
  fault_end_time (after_report solar s) = fault_end_time s /\
  current_tick_interval_ms (after_report solar s) = current_tick_interval_ms s /\
  length (grid_power_data (after_report solar s)) = length (grid_power_data s) /\
  daily (after_report solar s) =
    (if fault_active s then daily s else daily s + (solar * 5) / 60 / 1000).
Proof.
  unfold after_report, accumulate, note_batch, record_sample.
  repeat case_match; simpl in *; simplify_eq;
    rewrite ?length_insert; repeat split; try done; congruence.
Qed.

(** *** The solar power *)

Lemma solar_of_bounds w s :
  0 <= solar_of w s <= peak_output * cloud_factor w /\
  solar_of w s < 1.3 * peak_output.
Proof.
  pose proof (cloud_factor_bounds w) as [Hlo Hhi].
  pose proof (SIN_bound (hour_angle (virtual_time s))) as [_ Hsin].
  unfold solar_of, peak_output in *.
  destruct (negb _ || _); [lra|].
  assert (5000 * sin (hour_angle (virtual_time s)) * cloud_factor w
          <= 5000 * cloud_factor w) by nra.
  split; [split|].
  - apply Rmax_l.
  - apply Rmax_lub; lra.
  - apply Rmax_lub_lt; lra.
Qed.

Lemma solar_of_faulted w s : fault_active s = true -> solar_of w s = 0.
Proof.
  intros H. unfold solar_of. rewrite H. by rewrite orb_true_r.
Qed.

Lemma solar_of_dark w s :
  is_daylight_of w (virtual_time s) = false -> solar_of w s = 0.
Proof. intros H. unfold solar_of. by rewrite H. Qed.

(** *** The powers reported by a tick *)

Lemma Ret_inj {A} (a b : A) : Ret a = Ret b -> a = b.
Proof. intros H. by injection H. Qed.

Lemma _tick_ret w s l s' :
  _tick w s = (Ret l, s') ->
  exists s2,
    _update_fault_status w (after_reset s) = (Ret tt, s2) /\
    s' = after_report (solar_of w (after_reset s)) s2 /\
    l = batch_of (record_sample (solar_of w (after_reset s)) s2) ++
        report_of (is_daylight_of w (virtual_time (after_reset s)))
                  (solar_of w (after_reset s)) s2 s'.
Proof.
  rewrite _tick_unfold.
  destruct (_update_fault_status w (after_reset s)) as [[[]|e] s2];
    [|intros H; discriminate H].
  intros H. apply pair_equal_spec in H as [Hl Hs]. apply Ret_inj in Hl.
  exists s2.
  split; [reflexivity|]. split; [symmetry; exact Hs|].
  rewrite <- Hs. symmetry. exact Hl.
Qed.

Lemma InverterTick_inj ts el d ts' el' d' :
  InverterTick ts' el' d' = InverterTick ts el d -> ts = ts' /\ d = d'.
Proof. intros H. by injection H as -> _ ->. Qed.

Lemma in_batch_of ts el d s : ~ In (InverterTick ts el d) (batch_of s).
Proof.
  unfold batch_of. case_match; [|intros []].
  intros [Hin|[]]. discriminate Hin.
Qed.

Lemma in_report_of ts el d isd solar s2 s :
  In (InverterTick ts el d) (report_of isd solar s2 s) ->
  ts = virtual_time s /\
  d = mkInverterData (if isd then 1 else 0) (if fault_active s then 0 else 1)
        (grid_power_of solar s2) (reactive_power_of solar s2) solar
        (if Rlt_dec 0 solar then solar / 400 else 0)
        (if fault_active s then 1 else 0) (daily s) (monthly s) (yearly s).
Proof.
  unfold report_of. case_match; [|intros []].
  intros [Hin|[]]. exact (InverterTick_inj _ _ _ _ _ _ Hin).
Qed.

(** C6, as the code has it. For the payload of a tick: when the fault flag
    is set after the fault update of the tick, grid power and reactive
    power are 0; when the flag was set as the tick began, solar power is 0;
    when the flag is not set after the update, solar power is at least 0,
    at most [peak_output * cloud_factor] and below [1.3 * peak_output]
    (0 when it is not daylight), grid power is solar power times 0.98 and
    reactive power is grid power times 0.05. *)
Theorem tick_power_outputs (w : Oracle) (s s' : State) (l : list Payload)
    (ts : Z) (el : R) (d : InverterData) :
  _tick w s = (Ret l, s') -> In (InverterTick ts el d) l ->
  faultCode d = (if fault_active s' then 1 else 0)%Z /\
  pvStatus d = (if is_daylight_of w ts then 1 else 0)%Z /\
  (fault_active s' = true -> gridPower d = 0 /\ reactivePower d = 0) /\
  (fault_active s = true -> solarPower d = 0) /\
  (fault_active s' = false ->
     0 <= solarPower d <= peak_output * cloud_factor w /\
     solarPower d < 1.3 * peak_output /\
     (is_daylight_of w ts = false -> solarPower d = 0) /\
     gridPower d = solarPower d * 0.98 /\
     reactivePower d = gridPower d * 0.05).
Proof.
  intros Htick Hin.
  destruct (_tick_ret w s l s' Htick) as (s2 & Hf & Hs' & Hl).
  destruct (fields_after_report (solar_of w (after_reset s)) s2)
    as (_ & Hvt & Hfa & _).
  rewrite <- Hs' in Hvt, Hfa.
  pose proof (_update_fault_status_frame w (after_reset s)) as Hframe.
  rewrite Hf in Hframe. destruct Hframe as (_ & Hvt2 & _). cbn [snd] in Hvt2.
  rewrite Hl in Hin. apply in_app_or in Hin as [Hin|Hin];
    [exfalso; exact (in_batch_of _ _ _ _ Hin)|].
  apply in_report_of in Hin as [Hts Hd]. rewrite Hd, Hts.
  cbn [faultCode pvStatus gridPower reactivePower solarPower].
  rewrite Hvt, Hvt2, Hfa.
  split; [reflexivity|]. split; [reflexivity|].
  unfold reactive_power_of, grid_power_of.
  split; [intros Hfault; rewrite Hfault; split; reflexivity|]. split.
  { intros Hs. apply solar_of_faulted. rewrite fault_active_after_reset. exact Hs. }
  intros Hfault. rewrite Hfault.
  destruct (solar_of_bounds w (after_reset s)) as [Hb Hlt].
  split; [exact Hb|]. split; [exact Hlt|]. split; [|split; reflexivity].
  apply solar_of_dark.
Qed.

Lemma fmod_small x m : 0 <= x < m -> fmod x m = x.
Proof.
  intros [H0 Hm]. unfold fmod.
  replace (Int_part (x / m)) with 0%Z; [lra|].
  apply Int_part_spec. simpl.
  assert (Hinv : 0 < / m) by (apply Rinv_0_lt_compat; lra).
  assert (0 <= x / m) by (unfold Rdiv; apply Rmult_le_pos; lra).
  assert (x / m < 1).
  { unfold Rdiv. replace 1 with (m * / m) by (field; lra).
    apply Rmult_lt_compat_r; lra. }
  lra.
Qed.

Lemma solar_at_noon : solar_of half_cloud (after_reset before_noon) = 6000.
Proof.
  unfold solar_of.
  rewrite virtual_time_after_reset, fault_active_after_reset.
  assert (Hh : hour (virtual_time before_noon + 300000000) = 12%Z) by reflexivity.
  unfold is_daylight_of, hour_angle. rewrite Hh.
  change (astral half_cloud) with (@None bool).
  change (fault_active before_noon) with false.
  change ((6 <=? 12)%Z && (12 <=? 18)%Z) with true.
  cbn [negb orb].
  change (12 - 6)%Z with 6%Z.
  replace (PI * (6 / 12)) with (PI / 2) by field.
  rewrite sin_PI2. unfold cloud_factor, peak_output.
  change (t_cloud half_cloud) with 0.5.
  rewrite fmod_small by lra.
  rewrite Rmax_right; lra.
Qed.

(** The tick to 12:00 of that day: no fault, daylight, solar power 6000. *)
Lemma noon_tick :
  exists l s' ts el d,
    _tick half_cloud before_noon = (Ret l, s') /\
    In (InverterTick ts el d) l /\
    fault_active s' = false /\ pvStatus d = 1%Z /\ solarPower d = 6000.
Proof.
  pose proof (_tick_unfold half_cloud before_noon) as Hu.
  rewrite _update_fault_status_disabled in Hu
    by (by rewrite options_after_reset).
  rewrite solar_at_noon in Hu.
  do 5 eexists. split; [exact Hu|].
  destruct (fields_after_report 6000 (after_reset before_noon))
    as (Ho & Hvt & Hfa & _).
  split.
  { apply in_or_app. right. unfold report_of.
    rewrite Ho, options_after_reset.
    change (bool_decide (mode (options before_noon) = "inverter")) with true.
    left. reflexivity. }
  split.
  { rewrite Hfa, fault_active_after_reset. reflexivity. }
  split.
  { cbn [pvStatus]. rewrite virtual_time_after_reset.
    change (virtual_time before_noon) with 1718970900000000%Z. reflexivity. }
  reflexivity.
Qed.

(** C6, as the claim has it, fails: with no fault and in daylight, the
    solar power of the tick to 12:00 with cloud sample 0.5 is 6000, above
    [peak_output]. *)
Lemma solar_power_above_peak :
  exists l s' ts el d,
    _tick half_cloud before_noon = (Ret l, s') /\
    In (InverterTick ts el d) l /\
    fault_active s' = false /\ pvStatus d = 1%Z /\
    ~ (0 <= solarPower d <= peak_output).
Proof.
  destruct noon_tick as (l & s' & ts & el & d & Ht & Hin & Hfa & Hpv & Hsp).
  exists l, s', ts, el, d. repeat (split; [assumption|]).
  rewrite Hsp. unfold peak_output. lra.
Qed.

Lemma tick_power_outputs_witness :
  exists l s' ts el d,
    _tick half_cloud before_noon = (Ret l, s') /\
    In (InverterTick ts el d) l /\
    0 <= solarPower d < 1.3 * peak_output /\
    gridPower d = solarPower d * 0.98 /\
    reactivePower d = gridPower d * 0.05.
Proof.
  destruct noon_tick as (l & s' & ts & el & d & Ht & Hin & Hfa & _).
  exists l, s', ts, el, d. split; [exact Ht|]. split; [exact Hin|].
  destruct (tick_power_outputs half_cloud before_noon s' l ts el d Ht Hin)
    as (_ & _ & _ & _ & Hok).
  destruct (Hok Hfa) as ([H0 _] & Hlt & _ & Hg & Hr).
  split; [split; [exact H0 | exact Hlt]|]. split; [exact Hg | exact Hr].
Defined.

(** *** The state after a tick *)

Lemma _tick_state w s :
  exists s2, same_but_fault (after_reset s) s2 /\
    (fault_enabled (options s) = false -> fault_active s2 = fault_active s) /\
    (snd (_tick w s) = after_report (solar_of w (after_reset s)) s2 \/
     snd (_tick w s) = s2).
Proof.
  rewrite _tick_unfold.
  pose proof (_update_fault_status_frame w (after_reset s)) as Hframe.
  pose proof (_update_fault_status_disabled w (after_reset s)) as Hoff.
  rewrite options_after_reset in Hoff.
  destruct (_update_fault_status w (after_reset s)) as [[[]|e] s2];
    cbn [snd] in *; exists s2.
  - split; [exact Hframe|]. split; [|left; reflexivity].
    intros Hd. apply Hoff in Hd. apply pair_equal_spec in Hd as [_ Hd].
    rewrite Hd. apply fault_active_after_reset.
  - split; [exact Hframe|]. split; [|right; reflexivity].
    intros Hd. apply Hoff in Hd. apply pair_equal_spec in Hd as [Hd _].
    discriminate Hd.
Qed.

Lemma virtual_time_tick w s :
  virtual_time (snd (_tick w s)) = (virtual_time s + 300000000)%Z.
Proof.
  destruct (_tick_state w s) as (s2 & Hframe & _ & [Hs|Hs]); rewrite Hs;
    destruct Hframe as (_ & Hvt & _).
  - destruct (fields_after_report (solar_of w (after_reset s)) s2)
      as (_ & Hvt' & _).
    rewrite Hvt', Hvt. apply virtual_time_after_reset.
  - rewrite Hvt. apply virtual_time_after_reset.
Qed.

Lemma options_tick w s : options (snd (_tick w s)) = options s.
Proof.
  destruct (_tick_state w s) as (s2 & Hframe & _ & [Hs|Hs]); rewrite Hs;
    destruct Hframe as (Ho & _).
  - destruct (fields_after_report (solar_of w (after_reset s)) s2) as (Ho' & _).
    rewrite Ho', Ho. apply options_after_reset.
  - rewrite Ho. apply options_after_reset.
Qed.

Lemma fault_active_tick_disabled w s :
  fault_enabled (options s) = false ->
  fault_active (snd (_tick w s)) = fault_active s.
Proof.
  intros Hd.
  destruct (_tick_state w s) as (s2 & _ & Hfa & [Hs|Hs]); rewrite Hs.
  - destruct (fields_after_report (solar_of w (after_reset s)) s2)
      as (_ & _ & Hfa' & _).
    rewrite Hfa'. by apply Hfa.
  - by apply Hfa.
Qed.

(** The sample sequence keeps its 288 slots. *)
Lemma length_tick w s :
  length (grid_power_data s) = 288%nat ->
  length (grid_power_data (snd (_tick w s))) = 288%nat.
Proof.
  intros Hlen.
  destruct (_tick_state w s) as (s2 & Hframe & _ & [Hs|Hs]); rewrite Hs;
    destruct Hframe as (_ & _ & _ & _ & _ & _ & _ & Hg & _).
  - destruct (fields_after_report (solar_of w (after_reset s)) s2)
      as (_ & _ & _ & _ & _ & _ & Hl & _).
    rewrite Hl, Hg. by apply length_after_reset.
  - rewrite Hg. by apply length_after_reset.
Qed.

(** *** The daily counter and the reset at midnight *)

Lemma daily_reset_yearly s : daily (reset_yearly s) = daily s.
Proof. unfold reset_yearly. by case_match. Qed.

Lemma daily_reset_monthly s : daily (reset_monthly s) = daily s.
Proof. unfold reset_monthly. by case_match. Qed.

Lemma daily_after_reset s :
  daily (after_reset s) =
    if resets_at (virtual_time s + 300000000) then 0 else daily s.
Proof.
  rewrite daily_reset_yearly, daily_reset_monthly.
  unfold reset_daily, resets_at. rewrite virtual_time_advance.
  by case_match.
Qed.

Lemma grid_reset_yearly s : grid_power_data (reset_yearly s) = grid_power_data s.
Proof. unfold reset_yearly. by case_match. Qed.

Lemma grid_reset_monthly s : grid_power_data (reset_monthly s) = grid_power_data s.
Proof. unfold reset_monthly. by case_match. Qed.

Lemma grid_after_reset s :
  grid_power_data (after_reset s) =
    if resets_at (virtual_time s + 300000000) then replicate 288 0
    else grid_power_data s.
Proof.
  rewrite grid_reset_yearly, grid_reset_monthly.
  unfold reset_daily, resets_at. rewrite virtual_time_advance.
  by case_match.
Qed.

(** Without a reset a tick adds the energy of five minutes, which is not
    negative. *)
Lemma daily_tick w s :
  exists e, 0 <= e /\
    daily (snd (_tick w s)) =
      (if resets_at (virtual_time s + 300000000) then 0 else daily s) + e.
Proof.
  destruct (_tick_state w s) as (s2 & Hframe & _ & [Hs|Hs]); rewrite Hs;
    destruct Hframe as (_ & _ & _ & _ & Hd & _).
  - destruct (fields_after_report (solar_of w (after_reset s)) s2)
      as (_ & _ & _ & _ & _ & _ & _ & Hd').
    rewrite Hd', Hd, daily_after_reset.
    destruct (solar_of_bounds w (after_reset s)) as [[Hs0 _] _].
    destruct (fault_active s2).
    + exists 0. split; lra.
    + exists (solar_of w (after_reset s) * 5 / 60 / 1000). split; [lra|reflexivity].
  - rewrite Hd, daily_after_reset. exists 0. split; lra.
Qed.

(** Five minutes later the minute of the hour is the same modulo 5. *)
Lemma minute_advance t :
  (minute (t + 300000000) mod 5 = minute t mod 5)%Z.
Proof.
  unfold minute, seconds_of.
  replace (t + 300000000)%Z with (t + 300 * 1000000)%Z by lia.
  rewrite Z.div_add by lia.
  replace (t / 1000000 + 300)%Z with (t / 1000000 + 5 * 60)%Z by lia.
  rewrite Z.div_add by lia.
  rewrite !(Z.mod_mod_divide _ 60 5) by (by exists 12%Z).
  replace (t / 1000000 / 60 + 5)%Z with (t / 1000000 / 60 + 1 * 5)%Z by lia.
  apply Z_mod_plus_full.
Qed.

Lemma unaligned_no_reset t : (minute t mod 5 <> 0)%Z -> resets_at t = false.
Proof.
  intros H. unfold resets_at.
  destruct (Z.eqb_spec (minute t) 0) as [Hm|_]; [|by rewrite andb_false_r].
  exfalso. apply H. by rewrite Hm.
Qed.

(** *** Runs of ticks *)

Lemma run_cons c trace s : run (c :: trace) s = run trace (exec c s).
Proof. reflexivity. Qed.

Lemma run_snoc trace c s : run (trace ++ [c]) s = exec c (run trace s).
Proof. unfold run. by rewrite foldl_app. Qed.

Lemma run_replicate_S n c s :
  run (replicate (S n) c) s = exec c (run (replicate n c) s).
Proof.
  rewrite <- run_snoc. f_equal.
  induction n as [|n IH]; [reflexivity|].
  change (replicate (S (S n)) c) with (c :: replicate (S n) c).
  rewrite IH at 1. reflexivity.
Qed.

Lemma exec_update_interval ms s :
  exec (CUpdateTickInterval ms) s = s \/
  exec (CUpdateTickInterval ms) s = set_current_tick_interval_ms ms s.
Proof.
  unfold exec, update_tick_interval.
  destruct (Rle_dec ms 0); [left|right]; reflexivity.
Qed.

Lemma virtual_time_run_ticks n w s :
  virtual_time (run (replicate n (CTick w)) s) =
  (virtual_time s + Z.of_nat n * 300000000)%Z.
Proof.
  induction n as [|n IH].
  - change (run (replicate 0 (CTick w)) s) with s. lia.
  - rewrite run_replicate_S. unfold exec. rewrite virtual_time_tick, IH. lia.
Qed.

Lemma options_run_ticks n w s :
  options (run (replicate n (CTick w)) s) = options s.
Proof.
  induction n as [|n IH]; [reflexivity|].
  rewrite run_replicate_S. unfold exec. by rewrite options_tick.
Qed.

Lemma fault_active_run_ticks n w s :
  fault_enabled (options s) = false ->
  fault_active (run (replicate n (CTick w)) s) = fault_active s.
Proof.
  intros Hd. induction n as [|n IH]; [reflexivity|].
  rewrite run_replicate_S. unfold exec.
  rewrite fault_active_tick_disabled; [exact IH|].
  by rewrite options_run_ticks.
Qed.

Lemma length_run trace s :
  length (grid_power_data s) = 288%nat ->
  length (grid_power_data (run trace s)) = 288%nat.
Proof.
  revert s. induction trace as [|c trace IH]; intros s Hlen; [exact Hlen|].
  rewrite run_cons. apply IH. destruct c as [w|ms].
  - by apply length_tick.
  - by destruct (exec_update_interval ms s) as [-> | ->].
Qed.

(** When the start time is not on a five-minute mark, no tick resets the
    daily counter: over any run it only grows. *)
Lemma unaligned_start_never_resets trace s :
  (minute (virtual_time s) mod 5 <> 0)%Z ->
  daily s <= daily (run trace s) /\
  (minute (virtual_time (run trace s)) mod 5 <> 0)%Z.
Proof.
  revert s. induction trace as [|c trace IH]; intros s Hun.
  - split; [apply Rle_refl | exact Hun].
  - rewrite run_cons.
    assert (Hstep : daily s <= daily (exec c s) /\
                    (minute (virtual_time (exec c s)) mod 5 <> 0)%Z).
    { destruct c as [w|ms].
      - unfold exec. rewrite virtual_time_tick, minute_advance.
        split; [|exact Hun].
        destruct (daily_tick w s) as (e & He & ->).
        rewrite unaligned_no_reset by (by rewrite minute_advance). lra.
      - destruct (exec_update_interval ms s) as [-> | ->];
          (split; [apply Rle_refl | exact Hun]). }
    destruct Hstep as [Hd Hun'].
    destruct (IH _ Hun') as [Hd' Hun''].
    split; [lra | exact Hun''].
Qed.

(** *** A tick with fault injection disabled *)

Lemma _tick_disabled w s :
  fault_enabled (options s) = false ->
  snd (_tick w s) = after_report (solar_of w (after_reset s)) (after_reset s).
Proof.
  intros Hd. rewrite _tick_unfold.
  rewrite _update_fault_status_disabled by (by rewrite options_after_reset).
  reflexivity.
Qed.

Lemma grid_after_report solar s :
  grid_power_data (after_report solar s) =
    if ((0 <=? current_index_of s) && (current_index_of s <? 288))%Z
    then <[Z.to_nat (current_index_of s) := grid_power_of solar s / 1000]>
           (grid_power_data s)
    else grid_power_data s.
Proof.
  unfold after_report, accumulate, note_batch, record_sample.
  repeat case_match; simplify_eq; reflexivity.
Qed.

Lemma index_at_range t : (0 <= index_at t < 288)%Z.
Proof.
  unfold index_at, hour, minute.
  generalize (seconds_of t / 3600)%Z (seconds_of t / 60)%Z. intros a b.
  Z.div_mod_to_equations. lia.
Qed.

Lemma grid_tick_disabled w s :
  fault_enabled (options s) = false -> fault_active s = false ->
  grid_power_data (snd (_tick w s)) =
    <[Z.to_nat (index_at (virtual_time s + 300000000)) :=
        solar_of w (after_reset s) * 0.98 / 1000]>
      (if resets_at (virtual_time s + 300000000) then replicate 288 0
       else grid_power_data s).
Proof.
  intros Hd Hfa. rewrite _tick_disabled by exact Hd.
  rewrite grid_after_report. unfold current_index_of, grid_power_of.
  rewrite virtual_time_after_reset, fault_active_after_reset, Hfa, grid_after_reset.
  fold (index_at (virtual_time s + 300000000)).
  pose proof (index_at_range (virtual_time s + 300000000)) as [Hlo Hhi].
  apply Z.leb_le in Hlo. apply Z.ltb_lt in Hhi. rewrite Hlo, Hhi. reflexivity.
Qed.

Lemma daily_tick_disabled w s :
  fault_enabled (options s) = false -> fault_active s = false ->
  daily (snd (_tick w s)) =
    (if resets_at (virtual_time s + 300000000) then 0 else daily s)
    + solar_of w (after_reset s) * 5 / 60 / 1000.
Proof.
  intros Hd Hfa. rewrite _tick_disabled by exact Hd.
  destruct (fields_after_report (solar_of w (after_reset s)) (after_reset s))
    as (_ & _ & _ & _ & _ & _ & _ & Hdaily).
  rewrite Hdaily, fault_active_after_reset, Hfa, daily_after_reset.
  reflexivity.
Qed.

(** A sample that no tick of the run writes and no reset clears stays. *)
Lemma sample_kept n w i : forall s,
  fault_enabled (options s) = false -> fault_active s = false ->
  (forall j, (1 <= j <= Z.of_nat n)%Z ->
     resets_at (virtual_time s + j * 300000000) = false /\
     Z.to_nat (index_at (virtual_time s + j * 300000000)) <> i) ->
  grid_power_data (run (replicate n (CTick w)) s) !! i = grid_power_data s !! i.
Proof.
  induction n as [|n IH]; intros s Hd Hfa Hall; [reflexivity|].
  change (replicate (S n) (CTick w)) with (CTick w :: replicate n (CTick w)).
  rewrite run_cons. unfold exec.
  rewrite IH.
  - rewrite grid_tick_disabled by assumption.
    destruct (Hall 1%Z ltac:(lia)) as [Hr Hi].
    rewrite Z.mul_1_l in Hr, Hi. rewrite Hr.
    by rewrite list_lookup_insert_ne.
  - by rewrite options_tick.
  - by rewrite fault_active_tick_disabled.
  - intros j Hj. rewrite virtual_time_tick.
    replace (virtual_time s + 300000000 + j * 300000000)%Z
      with (virtual_time s + (j + 1) * 300000000)%Z by lia.
    apply Hall. lia.
Qed.

(** *** A start time that is not on a five-minute mark *)

Example evening_is_init : init default_options 1704128280000000 0 = Ret evening.
Proof. reflexivity. Qed.

Example before_noon_is_init :
  init default_options 1718970900000000 0 = Ret before_noon.
Proof. reflexivity. Qed.

Lemma solar_first_tick : 0 < solar_of clear_sky (after_reset evening).
Proof.
  unfold solar_of.
  rewrite virtual_time_after_reset, fault_active_after_reset.
  assert (Hh : hour (virtual_time evening + 300000000) = 17%Z) by reflexivity.
  unfold is_daylight_of, hour_angle. rewrite Hh.
  change (astral clear_sky) with (@None bool).
  change (fault_active evening) with false.
  change ((6 <=? 17)%Z && (17 <=? 18)%Z) with true.
  cbn [negb orb].
  change (17 - 6)%Z with 11%Z.
  pose proof (cloud_factor_bounds clear_sky) as [Hc _].
  pose proof PI_RGT_0 as Hpi.
  assert (Hsin : 0 < sin (PI * (11 / 12))) by (apply sin_gt_0; lra).
  unfold peak_output.
  apply Rlt_le_trans with (5000 * sin (PI * (11 / 12)) * cloud_factor clear_sky);
    [|apply Rmax_r].
  apply Rmult_lt_0_compat; [|lra]. apply Rmult_lt_0_compat; lra.
Qed.

Lemma evening_later_ticks j :
  (1 <= j <= 84)%Z ->
  resets_at (1704128280000000 + 300000000 + j * 300000000) = false /\
  Z.to_nat (index_at (1704128280000000 + 300000000 + j * 300000000)) <> 204%nat.
Proof.
  intros Hj.
  assert (Hall : Forall (fun j =>
            resets_at (1704128280000000 + 300000000 + j * 300000000) = false /\
            Z.to_nat (index_at (1704128280000000 + 300000000 + j * 300000000))
              <> 204%nat) (seqZ 1 84)).
  { apply (bool_decide_unpack _). vm_compute. exact I. }
  rewrite Forall_forall in Hall. apply Hall. apply elem_of_seqZ. lia.
Qed.

(** C7 (the code departs from the claim). The sample sequence has 288
    slots after every tick, but with the start time 16:58 the 85th tick,
    which takes the virtual time from 23:58 on 1 January to 00:03 on 2
    January, resets nothing: the daily counter keeps its positive value
    and the sample written at 17:03 is still in its slot. *)
Theorem midnight_crossed_without_reset :
  let s84 := run (replicate 84 (CTick clear_sky)) evening in
  let s85 := run (replicate 85 (CTick clear_sky)) evening in
  (day (virtual_time s84), hour (virtual_time s84), minute (virtual_time s84))
    = (1, 23, 58)%Z /\
  (day (virtual_time s85), hour (virtual_time s85), minute (virtual_time s85))
    = (2, 0, 3)%Z /\
  0 < daily s84 /\ daily s85 = daily s84 /\
  length (grid_power_data s85) = 288%nat /\
  exists p, grid_power_data s85 !! 204%nat = Some p /\ 0 < p.
Proof.
  intros s84 s85.
  pose (s1 := snd (_tick clear_sky evening)).
  assert (Hopt : forall n, fault_enabled
            (options (run (replicate n (CTick clear_sky)) evening)) = false).
  { intros n. by rewrite options_run_ticks. }
  assert (Hfa : forall n,
            fault_active (run (replicate n (CTick clear_sky)) evening) = false).
  { intros n. by rewrite fault_active_run_ticks. }
  assert (Hd1 : 0 < daily s1).
  { unfold s1. rewrite daily_tick_disabled by reflexivity.
    assert (Hr : resets_at (virtual_time evening + 300000000) = false)
      by reflexivity.
    rewrite Hr. change (daily evening) with 0.
    pose proof solar_first_tick. lra. }
  assert (Hvt1 : virtual_time s1 = (1704128280000000 + 300000000)%Z).
  { unfold s1. by rewrite virtual_time_tick. }
  split; [|split; [|split; [|split; [|split]]]].
  - unfold s84. rewrite virtual_time_run_ticks.
    change (virtual_time evening) with 1704128280000000%Z. reflexivity.
  - unfold s85. rewrite virtual_time_run_ticks.
    change (virtual_time evening) with 1704128280000000%Z. reflexivity.
  - unfold s84.
    change (replicate 84 (CTick clear_sky))
      with (CTick clear_sky :: replicate 83 (CTick clear_sky)).
    rewrite run_cons. fold (exec (CTick clear_sky) evening).
    change (exec (CTick clear_sky) evening) with s1.
    destruct (unaligned_start_never_resets
                (replicate 83 (CTick clear_sky)) s1) as [Hle _].
    { rewrite Hvt1. intros H. vm_compute in H. discriminate H. }
    lra.
  - unfold s85, s84. rewrite run_replicate_S. unfold exec.
    rewrite (daily_tick_disabled clear_sky _ (Hopt 84%nat) (Hfa 84%nat)).
    rewrite (solar_of_dark clear_sky).
    + rewrite virtual_time_run_ticks.
      change (virtual_time evening) with 1704128280000000%Z.
      assert (Hr : resets_at (1704128280000000 + Z.of_nat 84 * 300000000
                              + 300000000) = false) by reflexivity.
      rewrite Hr. lra.
    + rewrite virtual_time_after_reset, virtual_time_run_ticks.
      change (virtual_time evening) with 1704128280000000%Z. reflexivity.
  - apply length_run. apply length_replicate.
  - unfold s85.
    change (replicate 85 (CTick clear_sky))
      with (CTick clear_sky :: replicate 84 (CTick clear_sky)).
    rewrite run_cons. change (exec (CTick clear_sky) evening) with s1.
    rewrite (sample_kept 84 clear_sky 204 s1).
    + unfold s1. rewrite grid_tick_disabled by reflexivity.
      assert (Hr : resets_at (virtual_time evening + 300000000) = false)
        by reflexivity.
      assert (Hi : Z.to_nat (index_at (virtual_time evening + 300000000))
                   = 204%nat) by reflexivity.
      rewrite Hr, Hi.
      eexists. split.
      * apply list_lookup_insert_eq.
        change (grid_power_data evening) with (replicate 288 0).
        rewrite length_replicate. lia.
      * pose proof solar_first_tick. lra.
    + unfold s1. by rewrite options_tick.
    + unfold s1. by rewrite fault_active_tick_disabled.
    + intros j Hj. rewrite Hvt1. apply evening_later_ticks. lia.
Qed.

(** *** The tick interval *)

Lemma advance_time_interval ms s :
  advance_time (set_current_tick_interval_ms ms s) =
  set_current_tick_interval_ms ms (advance_time s).
Proof. reflexivity. Qed.

Lemma reset_daily_interval ms s :
  reset_daily (set_current_tick_interval_ms ms s) =
  set_current_tick_interval_ms ms (reset_daily s).
Proof.
  unfold reset_daily.
  change (virtual_time (set_current_tick_interval_ms ms s)) with (virtual_time s).
  case_match; reflexivity.
Qed.

Lemma reset_monthly_interval ms s :
  reset_monthly (set_current_tick_interval_ms ms s) =
  set_current_tick_interval_ms ms (reset_monthly s).
Proof.
  unfold reset_monthly.
  change (virtual_time (set_current_tick_interval_ms ms s)) with (virtual_time s).
  case_match; reflexivity.
Qed.

Lemma reset_yearly_interval ms s :
  reset_yearly (set_current_tick_interval_ms ms s) =
  set_current_tick_interval_ms ms (reset_yearly s).
Proof.
  unfold reset_yearly.
  change (virtual_time (set_current_tick_interval_ms ms s)) with (virtual_time s).
  case_match; reflexivity.
Qed.

Lemma after_reset_interval ms s :
  after_reset (set_current_tick_interval_ms ms s) =
  set_current_tick_interval_ms ms (after_reset s).
Proof.
  by rewrite advance_time_interval, reset_daily_interval,
    reset_monthly_interval, reset_yearly_interval.
Qed.

Lemma solar_of_interval w ms s :
  solar_of w (set_current_tick_interval_ms ms s) = solar_of w s.
Proof. reflexivity. Qed.

Lemma _update_fault_status_interval w ms s :
  _update_fault_status w (set_current_tick_interval_ms ms s) =
  (fst (_update_fault_status w s),
   set_current_tick_interval_ms ms (snd (_update_fault_status w s))).
Proof.
  destruct s.
  unfold _update_fault_status, bind, get, modify, ret, raise,
    set_current_tick_interval_ms, set_fault.
  fields. repeat (case_match; fields; simplify_eq); reflexivity.
Qed.

Lemma record_sample_interval solar ms s :
  record_sample solar (set_current_tick_interval_ms ms s) =
  set_current_tick_interval_ms ms (record_sample solar s).
Proof.
  unfold record_sample.
  change (current_index_of (set_current_tick_interval_ms ms s))
    with (current_index_of s).
  case_match; reflexivity.
Qed.

Lemma batch_of_set ms s :
  batch_of (set_current_tick_interval_ms ms s) = batch_of s.
Proof. reflexivity. Qed.

Lemma note_batch_interval ms s :
  note_batch (set_current_tick_interval_ms ms s) =
  set_current_tick_interval_ms ms (note_batch s).
Proof.
  unfold note_batch. rewrite batch_of_set.
  destruct (batch_of s); reflexivity.
Qed.

Lemma accumulate_interval solar ms s :
  accumulate solar (set_current_tick_interval_ms ms s) =
  set_current_tick_interval_ms ms (accumulate solar s).
Proof.
  unfold accumulate.
  change (fault_active (set_current_tick_interval_ms ms s)) with (fault_active s).
  case_match; reflexivity.
Qed.

Lemma after_report_interval solar ms s :
  after_report solar (set_current_tick_interval_ms ms s) =
  set_current_tick_interval_ms ms (after_report solar s).
Proof.
  unfold after_report.
  by rewrite record_sample_interval, note_batch_interval, accumulate_interval.
Qed.

Lemma batch_of_interval solar ms s :
  batch_of (record_sample solar (set_current_tick_interval_ms ms s)) =
  batch_of (record_sample solar s).
Proof. by rewrite record_sample_interval, batch_of_set. Qed.

Lemma report_of_interval isd solar ms s2 s :
  report_of isd solar (set_current_tick_interval_ms ms s2)
            (set_current_tick_interval_ms ms s) =
  report_of isd solar s2 s.
Proof. reflexivity. Qed.

Lemma virtual_time_set ms s :
  virtual_time (set_current_tick_interval_ms ms s) = virtual_time s.
Proof. reflexivity. Qed.

Lemma tick_result_interval ms isd solar (r : outcome unit * State) :
  match (fst r, set_current_tick_interval_ms ms (snd r)) with
  | (Ret _, s2) =>
      (Ret (batch_of (record_sample solar s2) ++
            report_of isd solar s2 (after_report solar s2)),
       after_report solar s2)
  | (Raise e, s2) => (Raise e, s2)
  end =
  (fst match r with
       | (Ret _, s2) =>
           (Ret (batch_of (record_sample solar s2) ++
                 report_of isd solar s2 (after_report solar s2)),
            after_report solar s2)
       | (Raise e, s2) => (Raise e, s2)
       end,
   set_current_tick_interval_ms ms
     (snd match r with
          | (Ret _, s2) =>
              (Ret (batch_of (record_sample solar s2) ++
                    report_of isd solar s2 (after_report solar s2)),
               after_report solar s2)
          | (Raise e, s2) => (Raise e, s2)
          end)).
Proof.
  destruct r as [[[]|e] s2]; cbn [fst snd]; [|reflexivity].
  rewrite after_report_interval, batch_of_interval, report_of_interval.
  reflexivity.
Qed.

(** The tick does not read the tick interval and does not write it. *)
Lemma _tick_interval w ms s :
  _tick w (set_current_tick_interval_ms ms s) =
  (fst (_tick w s), set_current_tick_interval_ms ms (snd (_tick w s))).
Proof.
  rewrite !_tick_unfold.
  rewrite after_reset_interval, _update_fault_status_interval, solar_of_interval.
  rewrite virtual_time_set.
  apply tick_result_interval.
Qed.

Lemma physics_eta s :
  set_current_tick_interval_ms (current_tick_interval_ms s) (physics s) = s.
Proof. by destruct s. Qed.

Lemma physics_set ms s : physics (set_current_tick_interval_ms ms s) = physics s.
Proof. reflexivity. Qed.

Lemma _tick_physics w s s' :
  physics s = physics s' ->
  fst (_tick w s) = fst (_tick w s') /\
  physics (snd (_tick w s)) = physics (snd (_tick w s')).
Proof.
  intros Hp.
  rewrite <- (physics_eta s), <- (physics_eta s'), !_tick_interval.
  cbn [fst snd]. rewrite !physics_set, Hp. split; reflexivity.
Qed.

Lemma run_physics trace : forall s s',
  physics s = physics s' ->
  physics (run trace s) = physics (run_ticks (ticks_of trace) s').
Proof.
  induction trace as [|c trace IH]; intros s s' Hp; [exact Hp|].
  rewrite run_cons. destruct c as [w|ms].
  - cbn [ticks_of]. unfold run_ticks. rewrite fmap_cons, run_cons.
    apply IH. unfold exec. by apply _tick_physics.
  - cbn [ticks_of]. apply IH.
    destruct (exec_update_interval ms s) as [-> | ->]; [exact Hp|].
    by rewrite physics_set.
Qed.

End InverterProofs.

(* ===================================================================== *)
(** ** The tick interval in the two emulators                            *)
(* ===================================================================== *)

Module TickInterval.

(** C1, as the claim has it, fails for the charger: two ticks at an
    interval of 5000 ms and two ticks at an interval of 1000 ms leave
    different energies in the transaction, and so does a single tick at the
    same instant under the two settings. *)
Lemma charger_energy_depends_on_interval :
  ~ (Charger.energy_of
       (Charger.run_ticks [Charger.sec 10; Charger.sec 15]
          (Charger.charging_with 5000)) "T1" ==
     Charger.energy_of
       (Charger.run_ticks [Charger.sec 6; Charger.sec 7]
          (Charger.charging_with 1000)) "T1")%Q /\
  ~ (Charger.energy_of
       (Charger.run_ticks [Charger.sec 10] (Charger.charging_with 5000)) "T1" ==
     Charger.energy_of
       (Charger.run_ticks [Charger.sec 10] (Charger.charging_with 1000)) "T1")%Q.
Proof. split; intros H; vm_compute in H; discriminate H. Qed.

(** C1, as the code has it. In the inverter every tick advances the
    virtual time by five minutes, and two runs with the same ticks (the
    same daylight answers and clock samples) end with the same virtual
    time, energy counters, samples and fault flag, whatever calls of
    [update_tick_interval] they contain. In the charger a tick adds to an
    Active transaction on a Charging connector the energy
    [current_power / 1000 * (tick_interval_ms / 1000 / 3600)], the power
    being that of the wall-clock minutes since the start of the
    transaction. *)
Theorem tick_interval_effect :
  (forall (w : Inverter.Oracle) (s : Inverter.State),
     Inverter.virtual_time (snd (Inverter._tick w s)) =
     (Inverter.virtual_time s + 300000000)%Z) /\
  (forall (trace1 trace2 : list Inverter.Command) (s : Inverter.State),
     Inverter.ticks_of trace1 = Inverter.ticks_of trace2 ->
     let a := Inverter.run trace1 s in
     let b := Inverter.run trace2 s in
     Inverter.virtual_time a = Inverter.virtual_time b /\
     Inverter.daily a = Inverter.daily b /\
     Inverter.monthly a = Inverter.monthly b /\
     Inverter.yearly a = Inverter.yearly b /\
     Inverter.grid_power_data a = Inverter.grid_power_data b /\
     Inverter.fault_active a = Inverter.fault_active b) /\
  (forall (now : Z) (s : Charger.State) (tid : string) (tx : Charger.Transaction),
     Charger.wf s -> Charger.active_transactions s !! tid = Some tx ->
     Charger.t_status tx = Charger.ACTIVE ->
     Charger.connector_status s (Charger.t_connector_id tx) = Some Charger.CHARGING ->
     let power := (Charger.max_power (Charger.options s) *
                   Charger.power_factor (Charger.elapsed_minutes now tx))%Q in
     Charger.current_power <$>
       Charger.active_transactions (snd (Charger._tick now s)) !! tid = Some power /\
     Charger.t_energy_delivered <$>
       Charger.active_transactions (snd (Charger._tick now s)) !! tid =
     Some (Charger.t_energy_delivered tx +
           (power / 1000.0) *
           ((Charger.tick_interval_ms (Charger.options s) / 1000.0) / 3600.0))%Q).
Proof.
  split; [apply InverterProofs.virtual_time_tick|]. split.
  - intros trace1 trace2 s Hticks a b.
    assert (Hp : Inverter.physics a = Inverter.physics b).
    { unfold a, b.
      rewrite (InverterProofs.run_physics trace1 s s eq_refl).
      rewrite (InverterProofs.run_physics trace2 s s eq_refl).
      by rewrite Hticks. }
    clearbody a b.
    split; [exact (f_equal Inverter.virtual_time Hp)|].
    split; [exact (f_equal Inverter.daily Hp)|].
    split; [exact (f_equal Inverter.monthly Hp)|].
    split; [exact (f_equal Inverter.yearly Hp)|].
    split; [exact (f_equal Inverter.grid_power_data Hp)|].
    exact (f_equal Inverter.fault_active Hp).
  - intros now s tid tx Hwf Ht Ha Hc power.
    destruct (ChargerProofs._tick_charging_energy now s tid tx Hwf Ht Ha Hc)
      as [He Hpw].
    split; [exact Hpw | exact He].
Qed.

Lemma tick_interval_effect_witness :
  Inverter.daily
    (Inverter.run [Inverter.CUpdateTickInterval 500;
                   Inverter.CTick Inverter.half_cloud;
                   Inverter.CTick Inverter.half_cloud]
                  Inverter.before_noon) =
  Inverter.daily
    (Inverter.run [Inverter.CTick Inverter.half_cloud;
                   Inverter.CUpdateTickInterval 100;
                   Inverter.CTick Inverter.half_cloud]
                  Inverter.before_noon) /\
  Charger.current_power <$>
    Charger.active_transactions
      (snd (Charger._tick (Charger.sec 8) Charger.one_charging)) !! "T1"
  = Some (22000 * Charger.power_factor
            (Charger.elapsed_minutes (Charger.sec 8)
               Charger.one_charging_tx))%Q.
Proof.
  destruct tick_interval_effect as (_ & Hinv & Hch).
  split.
  - exact (proj1 (proj2 (Hinv
      [Inverter.CUpdateTickInterval 500;
       Inverter.CTick Inverter.half_cloud;
       Inverter.CTick Inverter.half_cloud]
      [Inverter.CTick Inverter.half_cloud;
       Inverter.CUpdateTickInterval 100;
       Inverter.CTick Inverter.half_cloud]
      Inverter.before_noon eq_refl))).
  - exact (proj1 (Hch (Charger.sec 8) Charger.one_charging "T1"
                    Charger.one_charging_tx ChargerProofs.one_charging_wf
                    eq_refl eq_refl eq_refl)).
Defined.

End TickInterval.


(* ===================================================================== *)
(** ** Further properties of the charger                                 *)
(* ===================================================================== *)

Module ChargerMore.
Import Charger ChargerProofs.

(** *** Construction *)

Lemma init_lookup (o : Options) (i : Z) :
  connectors (init o) !! i =
    (if decide (1 <= i <= opt_connectors o) then Some (new_connector i) else None).
Proof.
  simpl.
  set (l := (fun i => (i, new_connector i)) <$> seqZ 1 (opt_connectors o)).
  assert (Hfst : l.*1 = seqZ 1 (opt_connectors o)).
  { unfold l. rewrite <- list_fmap_compose. apply list_fmap_id. }
  destruct (decide (1 <= i <= opt_connectors o)) as [Hin|Hout].
  - apply elem_of_list_to_map_1.
    + rewrite Hfst. apply NoDup_seqZ.
    + unfold l. apply list_elem_of_fmap. exists i. split; [done|].
      apply elem_of_seqZ. lia.
  - apply not_elem_of_list_to_map_1. rewrite Hfst, elem_of_seqZ. lia.
Qed.

(** X1. After [__init__] the connector table has exactly the keys
    [1 .. connectors], each a fresh Available connector with its own id
    and no error (so none at all when [connectors] is 0 or negative), and
    there are no transactions, counters, timers or notifications. *)
Theorem init_connectors (o : Options) (i : Z) :
  connectors (init o) !! i =
    (if decide (1 <= i <= opt_connectors o)
     then Some (mkConnector i AVAILABLE "NoError" EmptyString EmptyString EmptyString)
     else None) /\
  (opt_connectors o <= 0 -> connectors (init o) = ∅) /\
  active_transactions (init o) = ∅ /\ energy_delivered (init o) = ∅ /\
  timers (init o) = [] /\ status_log (init o) = [].
Proof.
  split; [apply init_lookup|]. split; [|done].
  intros Hle. apply map_eq. intros j. rewrite init_lookup, lookup_empty.
  destruct (decide (1 <= j <= opt_connectors o)); [lia | done].
Qed.

Lemma init_connectors_witness :
  connectors (init (mkOptions 0 22000 5000)) = ∅.
Proof.
  apply (proj1 (proj2 (init_connectors (mkOptions 0 22000 5000) 1))).
  simpl. lia.
Defined.

(** *** Invariants of the connector table *)

Lemma init_connector_ok o : connector_ok o (init o).
Proof.
  intros i. rewrite init_lookup.
  destruct (decide (1 <= i <= opt_connectors o)) as [Hin|Hout].
  - split; [split; [done | by eexists]|].
    intros c [= <-]. simpl. repeat split; try done. by left.
  - split; [split; [by intros [? ?] | done]|]. done.
Qed.

Lemma insert_status_ok o (m : gmap Z Connector) k c st :
  m !! k = Some c -> assigned_status st ->
  (forall i,
    (is_Some (m !! i) <-> 1 <= i <= opt_connectors o) /\
    (forall c, m !! i = Some c ->
       connector_id c = i /\ assigned_status (c_status c) /\
       error_code c = "NoError" /\ info c = EmptyString)) ->
  forall i,
    (is_Some (<[k := with_c_status st c]> m !! i) <-> 1 <= i <= opt_connectors o) /\
    (forall c', <[k := with_c_status st c]> m !! i = Some c' ->
       connector_id c' = i /\ assigned_status (c_status c') /\
       error_code c' = "NoError" /\ info c' = EmptyString).
Proof.
  intros Hk Hst Hm i. destruct (Hm i) as [Hdom Hval].
  rewrite lookup_insert. destruct (decide (k = i)) as [->|Hne]; [|done].
  split.
  - rewrite <- Hdom, Hk. split; by eexists.
  - intros c' [= <-]. destruct (Hval c Hk) as (Hid & _ & Herr & Hinfo).
    simpl. done.
Qed.

Lemma action_connector_ok o s s' :
  action s s' -> connector_ok o s -> connector_ok o s'.
Proof.
  intros Ha Hok. destruct Ha as
    [s | cid tag ms uuid now c s Hfresh Hc Hav | tid now tx c s Ht Hc
     | now s s' Hpost | tid tx c s Ht Hc | tid tx c s Ht Hc]; [done|..];
    unfold connector_ok; simpl.
  - apply insert_status_ok; [done | right; by left | exact Hok].
  - apply insert_status_ok; [done | by repeat right | exact Hok].
  - destruct Hpost as (_ & -> & _). exact Hok.
  - apply insert_status_ok; [done | right; right; by left | exact Hok].
  - apply insert_status_ok; [done | by left | exact Hok].
Qed.

(** X2. In every reachable state the connector table still has exactly the
    keys [1 .. connectors]; every connector carries its own id, the error
    code NoError, and a status that is Available, Preparing, Charging or
    Finishing: the other five statuses are never assigned. *)
Theorem reachable_connector_table (o : Options) (s : State) :
  reachable o s ->
  forall i,
    (is_Some (connectors s !! i) <-> 1 <= i <= opt_connectors o) /\
    (forall c, connectors s !! i = Some c ->
       connector_id c = i /\ assigned_status (c_status c) /\
       error_code c = "NoError" /\ info c = EmptyString).
Proof.
  revert s. unfold reachable.
  apply (rtc_ind_r (connector_ok o) (init o)); [apply init_connector_ok|].
  intros y z Hxy Hyz IH.
  eapply action_connector_ok; [|exact IH].
  apply step_action; [|exact Hyz]. by apply (reachable_wf o).
Qed.

(** Two reachable states. *)
Lemma started_reachable : reachable (mkOptions 2 22000 5000) one_started.
Proof. eapply rtc_l; [|apply rtc_refl]. by apply step_start. Defined.

Lemma ticked_reachable : reachable (mkOptions 2 22000 5000) one_ticked.
Proof.
  eapply rtc_r; [|apply step_tick].
  eapply rtc_r; [|apply step_start_charging].
  apply started_reachable.
Defined.

Lemma reachable_connector_table_witness :
  connector_status one_started 1 = Some PREPARING /\
  (is_Some (connectors one_started !! 3) <-> 1 <= 3 <= 2).
Proof.
  split; [reflexivity|].
  exact (proj1 (reachable_connector_table _ _ started_reachable 3)).
Defined.

(** *** No [KeyError] *)

(** X3. In every reachable state no method raises [KeyError]: stopping, the
    timer callbacks and the tick return normally, and [start_transaction]
    either returns the new id or raises [ValueError]. *)
Theorem reachable_no_key_error (o : Options) (s : State) :
  reachable o s ->
  (forall tid reason now, exists b, fst (stop_transaction tid reason now s) = Ret b) /\
  (forall now, fst (_tick now s) = Ret tt) /\
  (forall tid, fst (_start_charging tid s) = Ret tt /\
               fst (_finish_transaction tid s) = Ret tt) /\
  (forall cid tag ms uuid now,
     fst (start_transaction cid tag ms uuid now s) = Ret uuid \/
     fst (start_transaction cid tag ms uuid now s) = Raise ValueError).
Proof.
  intros Hr. pose proof (reachable_wf o s Hr) as Hwf.
  split; [|split; [|split]].
  - intros tid reason now.
    destruct (active_transactions s !! tid) as [tx|] eqn:Ht.
    + destruct (Hwf tid tx Ht) as [[c Hc] _].
      rewrite (stop_transaction_ok _ reason _ _ _ _ Ht Hc). by eexists.
    + rewrite (stop_transaction_unknown _ _ _ _ Ht). by eexists.
  - intros now. by destruct (_tick_spec now s Hwf) as (s' & -> & _).
  - intros tid. destruct (active_transactions s !! tid) as [tx|] eqn:Ht.
    + destruct (Hwf tid tx Ht) as [[c Hc] _].
      by rewrite (_start_charging_ok _ _ _ _ Ht Hc),
                 (_finish_transaction_ok _ _ _ _ Ht Hc).
    + by rewrite (_start_charging_unknown _ _ Ht),
                 (_finish_transaction_unknown _ _ Ht).
  - intros cid tag ms uuid now.
    destruct (connectors s !! cid) as [c|] eqn:Hc.
    + destruct (decide (c_status c = AVAILABLE)) as [Hav|Hne].
      * left. by rewrite (start_transaction_ok _ _ _ _ _ _ _ Hc Hav).
      * right. by rewrite (start_transaction_busy _ _ _ _ _ _ _ Hc Hne).
    + right. by rewrite (start_transaction_unknown _ _ _ _ _ _ Hc).
Qed.

Lemma reachable_no_key_error_witness :
  fst (_tick 5000000 one_started) = Ret tt.
Proof.
  exact (proj1 (proj2 (reachable_no_key_error _ _ started_reachable)) 5000000).
Defined.

(** *** Status notifications *)

Lemma statuses_snoc cid (l : list (Z * ChargerStatus)) k st :
  snd <$> filter (fun p => fst p = cid) (l ++ [(k, st)]) =
  (snd <$> filter (fun p => fst p = cid) l) ++ (if decide (k = cid) then [st] else []).
Proof.
  rewrite filter_app, fmap_app. f_equal.
  rewrite filter_cons, filter_nil. simpl. by destruct (decide (k = cid)).
Qed.

Lemma insert_notified_ok (m : gmap Z Connector) (l : list (Z * ChargerStatus)) k c0 st :
  (forall cid c, m !! cid = Some c ->
     last (snd <$> filter (fun p => fst p = cid) l) = Some (c_status c) \/
     (snd <$> filter (fun p => fst p = cid) l = [] /\ c_status c = AVAILABLE)) ->
  forall cid c, <[k := with_c_status st c0]> m !! cid = Some c ->
     last (snd <$> filter (fun p => fst p = cid) (l ++ [(k, st)])) = Some (c_status c) \/
     (snd <$> filter (fun p => fst p = cid) (l ++ [(k, st)]) = [] /\
      c_status c = AVAILABLE).
Proof.
  intros Hm cid c. rewrite statuses_snoc, lookup_insert.
  destruct (decide (k = cid)) as [->|Hne].
  - intros [= <-]. left. by rewrite last_snoc.
  - rewrite app_nil_r. apply Hm.
Qed.

Lemma action_notified_ok s s' : action s s' -> notified_ok s -> notified_ok s'.
Proof.
  intros Ha Hok. destruct Ha as
    [s | cid tag ms uuid now c s Hfresh Hc Hav | tid now tx c s Ht Hc
     | now s s' Hpost | tid tx c s Ht Hc | tid tx c s Ht Hc]; [done|..];
    unfold notified_ok, statuses_of; simpl.
  - by apply insert_notified_ok.
  - by apply insert_notified_ok.
  - destruct Hpost as (_ & -> & _ & -> & _). exact Hok.
  - by apply insert_notified_ok.
  - by apply insert_notified_ok.
Qed.

(** X4. In every reachable state the listener of the status notifications
    is up to date: the last status notified for a connector is the status
    the connector has, and a connector for which nothing was notified yet
    is Available. *)
Theorem reachable_notifications (o : Options) (s : State) :
  reachable o s ->
  forall cid c, connectors s !! cid = Some c ->
    last (statuses_of cid s) = Some (c_status c) \/
    (statuses_of cid s = [] /\ c_status c = AVAILABLE).
Proof.
  revert s. unfold reachable.
  apply (rtc_ind_r notified_ok (init o)).
  - intros cid c Hc. right. split; [done|].
    rewrite init_lookup in Hc. destruct (decide _); [|done]. by injection Hc as <-.
  - intros y z Hxy Hyz IH.
    eapply action_notified_ok; [|exact IH].
    apply step_action; [|exact Hyz]. by apply (reachable_wf o).
Qed.

Lemma reachable_notifications_witness :
  last (statuses_of 1 one_ticked) = Some CHARGING.
Proof.
  destruct (reachable_notifications _ _ ticked_reachable 1
              (with_c_status CHARGING (new_connector 1)) eq_refl)
    as [H|[_ H]]; [exact H | discriminate H].
Defined.

(** *** Energy accounting *)

Lemma sum_over_empty {K A} `{Countable K} (f : K -> A -> Q) :
  sum_over f (∅ : gmap K A) = 0%Q.
Proof. unfold sum_over. by rewrite map_fold_empty. Qed.

Lemma sum_over_insert {K A} `{Countable K} (f : K -> A -> Q) (m : gmap K A) k a :
  m !! k = None -> (sum_over f (<[k := a]> m) == sum_over f m + f k a)%Q.
Proof.
  intros Hm. unfold sum_over.
  set (g := fun (k : K) (a : A) (acc : Q) => (acc + f k a)%Q).
  change (Qeq (map_fold g 0%Q (<[k := a]> m)) (g k a (map_fold g 0%Q m))).
  apply (map_fold_insert Qeq g); [| |done].
  - intros j z x y Hxy. unfold g. by rewrite Hxy.
  - intros j1 j2 z1 z2 y _ _ _. unfold g. ring.
Qed.

Lemma sum_over_ext {K A} `{Countable K} (f g : K -> A -> Q) (m : gmap K A) :
  (forall k a, m !! k = Some a -> (f k a == g k a)%Q) ->
  (sum_over f m == sum_over g m)%Q.
Proof.
  induction m as [|k a m Hm IH] using map_ind; intros Hall.
  - by rewrite !sum_over_empty.
  - rewrite !sum_over_insert by done.
    rewrite (Hall k a) by apply lookup_insert_eq.
    rewrite IH; [reflexivity|]. intros k' a' Hk'. apply Hall.
    rewrite lookup_insert_ne; [done|]. intros ->. congruence.
Qed.

Lemma sum_over_plus {K A} `{Countable K} (f g : K -> A -> Q) (m : gmap K A) :
  (sum_over (fun k a => f k a + g k a) m == sum_over f m + sum_over g m)%Q.
Proof.
  induction m as [|k a m Hm IH] using map_ind.
  - rewrite !sum_over_empty. ring.
  - rewrite !sum_over_insert by done. rewrite IH. ring.
Qed.

Lemma sum_over_zero {K A} `{Countable K} (f : K -> A -> Q) (m : gmap K A) :
  (forall k a, m !! k = Some a -> (f k a == 0)%Q) -> (sum_over f m == 0)%Q.
Proof.
  induction m as [|k a m Hm IH] using map_ind; intros Hall.
  - by rewrite sum_over_empty.
  - rewrite sum_over_insert by done.
    rewrite (Hall k a) by apply lookup_insert_eq.
    rewrite IH; [ring|]. intros k' a' Hk'. apply Hall.
    rewrite lookup_insert_ne; [done|]. intros ->. congruence.
Qed.

Lemma sum_over_indicator {A} (m : gmap Z A) (c : Z) (v : Q) :
  is_Some (m !! c) ->
  (sum_over (fun k _ => if bool_decide (c = k) then v else 0) m == v)%Q.
Proof.
  induction m as [|k a m Hm IH] using map_ind; intros Hc.
  - rewrite lookup_empty in Hc. by destruct Hc.
  - rewrite sum_over_insert by done.
    destruct (decide (c = k)) as [->|Hne].
    + rewrite bool_decide_eq_true_2 by done.
      rewrite sum_over_zero; [ring|]. intros k' a' Hk'.
      rewrite bool_decide_eq_false_2; [reflexivity|]. intros ->. congruence.
    + rewrite bool_decide_eq_false_2 by done.
      rewrite lookup_insert_ne in Hc by done. rewrite IH by done. ring.
Qed.

Lemma msum_empty g : msum g ∅ = 0%Q.
Proof. apply sum_over_empty. Qed.

Lemma msum_insert g (m : gmap string Transaction) tid tx :
  m !! tid = None -> (msum g (<[tid := tx]> m) == msum g m + g tx)%Q.
Proof. intros Hm. unfold msum. by rewrite sum_over_insert. Qed.

Lemma msum_replace g (m : gmap string Transaction) tid tx tx' :
  m !! tid = Some tx -> (g tx' == g tx)%Q ->
  (msum g (<[tid := tx']> m) == msum g m)%Q.
Proof.
  intros Hm Hg.
  rewrite <- (insert_delete_id m tid tx Hm) at 2.
  rewrite <- (insert_delete_eq m).
  rewrite !msum_insert by apply lookup_delete_eq. by rewrite Hg.
Qed.

Lemma msum_zero g (m : gmap string Transaction) :
  (forall tid tx, m !! tid = Some tx -> (g tx == 0)%Q) -> (msum g m == 0)%Q.
Proof. intros Hall. apply sum_over_zero. exact Hall. Qed.

Lemma energy_on_ticked s now c tx :
  (energy_on c (ticked s now tx) ==
   energy_on c tx +
   (if charging_now s tx && bool_decide (t_connector_id tx = c)
    then tick_incr (options s) now tx else 0))%Q.
Proof.
  unfold energy_on. rewrite ticked_connector_id. unfold ticked.
  destruct (charging_now s tx), (bool_decide (t_connector_id tx = c)); simpl; ring.
Qed.

Lemma msum_ticked s now c (m : gmap string Transaction) :
  (msum (energy_on c) (ticked s now <$> m) ==
   msum (energy_on c) m + conn_incr s now c m)%Q.
Proof.
  induction m as [|tid tx m Hm IH] using map_ind.
  - rewrite fmap_empty, msum_empty. unfold conn_incr. rewrite map_fold_empty. ring.
  - rewrite fmap_insert, !msum_insert, conn_incr_insert, IH, energy_on_ticked;
      [|done|done|by rewrite lookup_fmap, Hm].
    destruct (charging_now s tx && bool_decide (t_connector_id tx = c)); ring.
Qed.

Lemma tick_post_fmap now s s' :
  tick_post now s s' ->
  active_transactions s' = ticked s now <$> active_transactions s.
Proof.
  intros (_ & _ & _ & _ & Htx & _).
  apply map_eq. intros tid. by rewrite Htx, lookup_fmap.
Qed.

Lemma replace_energy_ok s tid tx tx' :
  energy_ok s -> active_transactions s !! tid = Some tx ->
  t_connector_id tx' = t_connector_id tx ->
  t_energy_delivered tx' = t_energy_delivered tx ->
  forall c e, energy_delivered s !! c = Some e ->
    (e == msum (energy_on c) (<[tid := tx']> (active_transactions s)))%Q.
Proof.
  intros Hok Ht Hc He c e Hce.
  rewrite (msum_replace _ _ _ tx); [by apply Hok | done |].
  unfold energy_on. by rewrite Hc, He.
Qed.

Lemma action_energy_ok s s' : wf s -> action s s' -> energy_ok s -> energy_ok s'.
Proof.
  intros Hwf Ha Hok. destruct Ha as
    [s | cid tag ms uuid now c s Hfresh Hc Hav | tid now tx c s Ht Hc
     | now s s' Hpost | tid tx c s Ht Hc | tid tx c s Ht Hc]; [done|..];
    unfold energy_ok; simpl.
  - intros c0 e He. rewrite msum_insert by done.
    unfold energy_on at 2. simpl.
    assert (Hz : ((if bool_decide (cid = c0) then 0 else 0) == 0)%Q)
      by (by destruct (bool_decide _)).
    rewrite Hz, Qplus_0_r.
    destruct (energy_delivered s !! cid) as [e0|] eqn:Hcid; [by apply Hok|].
    rewrite lookup_insert in He.
    destruct (decide (cid = c0)) as [<-|Hne]; [|by apply Hok].
    injection He as <-. symmetry. apply msum_zero.
    intros tid tx Ht. unfold energy_on.
    rewrite bool_decide_eq_false_2; [done|].
    intros Heq. destruct (Hwf tid tx Ht) as [_ [e1 He1]]. congruence.
  - by apply (replace_energy_ok s tid tx).
  - rewrite (tick_post_fmap _ _ _ Hpost).
    destruct Hpost as (_ & _ & _ & _ & _ & Hen).
    intros c e He. specialize (Hen c).
    destruct (energy_delivered s !! c) as [e0|] eqn:He0; [|congruence].
    destruct Hen as (e' & He' & Hsum). rewrite He in He'. injection He' as <-.
    rewrite msum_ticked, Hsum. by rewrite (Hok c e0 He0).
  - by apply (replace_energy_ok s tid tx).
  - by apply (replace_energy_ok s tid tx).
Qed.

Lemma reachable_energy_ok o s : reachable o s -> energy_ok s.
Proof.
  revert s. unfold reachable.
  apply (rtc_ind_r energy_ok (init o)); [done|].
  intros y z Hxy Hyz IH.
  pose proof (reachable_wf o y Hxy) as Hwf.
  eapply action_energy_ok; [exact Hwf | | exact IH].
  by apply step_action.
Qed.

(** X5. In every reachable state the energy counter of a connector is the
    sum of the energy delivered by all the transactions started on that
    connector, whatever their status: nothing is counted twice and nothing
    is lost when a transaction stops or completes. *)
Theorem reachable_energy_balance (o : Options) (s : State) (c : Z) (e : Q) :
  reachable o s -> energy_delivered s !! c = Some e ->
  (e == msum (energy_on c) (active_transactions s))%Q.
Proof. intros Hr. by apply (reachable_energy_ok o). Qed.

Lemma reachable_energy_balance_witness :
  (default 0%Q (energy_delivered one_ticked !! 1%Z) ==
   msum (energy_on 1%Z) (active_transactions one_ticked))%Q.
Proof.
  apply (reachable_energy_balance _ _ 1 _ ticked_reachable).
  vm_compute. reflexivity.
Defined.

Lemma sum_by_connector (en : gmap Z Q) (m : gmap string Transaction) :
  (forall tid tx, m !! tid = Some tx -> is_Some (en !! t_connector_id tx)) ->
  (sum_over (fun c _ => msum (energy_on c) m) en == msum t_energy_delivered m)%Q.
Proof.
  induction m as [|tid tx m Hm IH] using map_ind; intros Hall.
  - rewrite msum_empty. apply sum_over_zero.
    intros k a _. by rewrite msum_empty.
  - rewrite msum_insert by done.
    rewrite <- IH.
    2:{ intros tid' tx' Ht'. apply (Hall tid').
        rewrite lookup_insert_ne; [done|]. intros ->. congruence. }
    rewrite <- (sum_over_indicator en (t_connector_id tx) (t_energy_delivered tx)).
    2:{ apply (Hall tid). apply lookup_insert_eq. }
    rewrite <- sum_over_plus. apply sum_over_ext.
    intros c e Hc. rewrite msum_insert by done. reflexivity.
Qed.

(** X6. In every reachable state the total reported by
    [_send_periodic_data] and [get_status], the sum of the connector
    counters, is the sum of the energy delivered by all transactions of the
    table. *)
Theorem total_energy_is_sum (o : Options) (s : State) :
  reachable o s ->
  (total_energy_delivered s == msum t_energy_delivered (active_transactions s))%Q.
Proof.
  intros Hr. rewrite <- (sum_by_connector (energy_delivered s)).
  - unfold total_energy_delivered. apply sum_over_ext.
    intros c e He. by apply (reachable_energy_ok o).
  - intros tid tx Ht. by destruct (reachable_wf o s Hr tid tx Ht).
Qed.

Lemma total_energy_is_sum_witness :
  (total_energy_delivered one_ticked ==
   msum t_energy_delivered (active_transactions one_ticked))%Q.
Proof. exact (total_energy_is_sum _ _ ticked_reachable). Defined.

(** *** The number of active transactions *)

Lemma active_insert_new (m : gmap string Transaction) tid tx :
  m !! tid = None -> t_status tx = ACTIVE ->
  size (filter (fun p : string * Transaction => t_status (snd p) = ACTIVE)
               (<[tid := tx]> m)) =
  S (size (filter (fun p : string * Transaction => t_status (snd p) = ACTIVE) m)).
Proof.
  intros Hm Ha. rewrite map_filter_insert_True by done.
  apply map_size_insert_None. apply map_lookup_filter_None. by left.
Qed.

Lemma active_insert_inactive (m : gmap string Transaction) tid tx tx' :
  m !! tid = Some tx -> t_status tx' ≠ ACTIVE ->
  size (filter (fun p : string * Transaction => t_status (snd p) = ACTIVE)
               (<[tid := tx']> m)) =
  (if decide (t_status tx = ACTIVE)
   then pred (size (filter (fun p : string * Transaction => t_status (snd p) = ACTIVE) m))
   else size (filter (fun p : string * Transaction => t_status (snd p) = ACTIVE) m)).
Proof.
  intros Hm Hna. rewrite map_filter_insert_False by done.
  rewrite map_filter_delete, map_size_delete.
  destruct (decide (t_status tx = ACTIVE)) as [Ha|Hn].
  - by rewrite (proj2 (map_lookup_filter_Some _ _ _ _) (conj Hm Ha)).
  - rewrite (proj2 (map_lookup_filter_None _ _ _)); [done|].
    right. intros x Hx. simpl. congruence.
Qed.

Lemma active_insert_same (m : gmap string Transaction) tid tx tx' :
  m !! tid = Some tx -> t_status tx' = t_status tx ->
  size (filter (fun p : string * Transaction => t_status (snd p) = ACTIVE)
               (<[tid := tx']> m)) =
  size (filter (fun p : string * Transaction => t_status (snd p) = ACTIVE) m).
Proof.
  intros Hm Hst. destruct (decide (t_status tx = ACTIVE)) as [Ha|Hn].
  - rewrite map_filter_insert_True by (simpl; congruence).
    apply map_size_insert_Some.
    by rewrite (proj2 (map_lookup_filter_Some _ _ _ _) (conj Hm Ha)).
  - rewrite (active_insert_inactive _ _ tx) by (done || congruence).
    by rewrite decide_False.
Qed.

Lemma active_fmap (f : Transaction -> Transaction) (m : gmap string Transaction) :
  (forall tx, t_status (f tx) = t_status tx) ->
  size (filter (fun p : string * Transaction => t_status (snd p) = ACTIVE) (f <$> m)) =
  size (filter (fun p : string * Transaction => t_status (snd p) = ACTIVE) m).
Proof.
  intros Hf. rewrite map_filter_fmap. rewrite map_size_fmap.
  f_equal. apply map_filter_ext. intros i x _. simpl. by rewrite Hf.
Qed.

(** X7. The number of Active transactions reported by
    [_send_periodic_data] (the size of [get_active_transactions]), in a
    state where the connector of every transaction exists and has a
    counter, as in every reachable state: a
    successful [start_transaction] with a fresh id adds one; stopping a
    known transaction, or its finishing callback, takes one away when the
    transaction was Active and changes nothing otherwise; a tick and the
    start-charging callback never change it. *)
Theorem active_count_changes (s : State) :
  wf s ->
  (forall cid tag ms uuid now,
     active_transactions s !! uuid = None ->
     fst (start_transaction cid tag ms uuid now s) = Ret uuid ->
     active_count (snd (start_transaction cid tag ms uuid now s)) = S (active_count s)) /\
  (forall tid reason now tx,
     active_transactions s !! tid = Some tx ->
     active_count (snd (stop_transaction tid reason now s)) =
       if decide (t_status tx = ACTIVE) then pred (active_count s) else active_count s) /\
  (forall now, active_count (snd (_tick now s)) = active_count s) /\
  (forall tid, active_count (snd (_start_charging tid s)) = active_count s) /\
  (forall tid tx,
     active_transactions s !! tid = Some tx ->
     active_count (snd (_finish_transaction tid s)) =
       if decide (t_status tx = ACTIVE) then pred (active_count s) else active_count s).
Proof.
  intros Hwf. unfold active_count, get_active_transactions.
  split; [|split; [|split; [|split]]].
  - intros cid tag ms uuid now Hfresh Hret.
    destruct (connectors s !! cid) as [c|] eqn:Hc;
      [|by rewrite (start_transaction_unknown _ _ _ _ _ _ Hc) in Hret].
    destruct (decide (c_status c = AVAILABLE)) as [Hav|Hne];
      [|by rewrite (start_transaction_busy _ _ _ _ _ _ _ Hc Hne) in Hret].
    rewrite (start_transaction_ok _ _ _ _ _ _ _ Hc Hav). simpl.
    by apply active_insert_new.
  - intros tid reason now tx Ht. destruct (Hwf tid tx Ht) as [[c Hc] _].
    rewrite (stop_transaction_ok _ reason _ _ _ _ Ht Hc). simpl.
    by apply active_insert_inactive.
  - intros now. destruct (_tick_spec now s Hwf) as (s' & Hs' & Hpost).
    rewrite Hs'. simpl. rewrite (tick_post_fmap _ _ _ Hpost).
    apply active_fmap. intros tx. apply ticked_status.
  - intros tid. destruct (active_transactions s !! tid) as [tx|] eqn:Ht.
    + destruct (Hwf tid tx Ht) as [[c Hc] _].
      rewrite (_start_charging_ok _ _ _ _ Ht Hc). simpl.
      by apply (active_insert_same _ _ tx).
    + by rewrite (_start_charging_unknown _ _ Ht).
  - intros tid tx Ht. destruct (Hwf tid tx Ht) as [[c Hc] _].
    rewrite (_finish_transaction_ok _ _ _ _ Ht Hc). simpl.
    by apply active_insert_inactive.
Qed.

Lemma active_count_changes_witness :
  active_count (snd (stop_transaction "T1" "Local" (sec 8) one_charging)) = 0%nat /\
  active_count (snd (_tick (sec 8) one_charging)) = 1%nat.
Proof.
  destruct (active_count_changes one_charging one_charging_wf)
    as (_ & Hstop & Htick & _).
  split.
  - exact (Hstop "T1" "Local" (sec 8) one_charging_tx eq_refl).
  - exact (Htick (sec 8)).
Defined.

(** *** The identity of a transaction *)

Lemma same_identity_refl tx : same_identity tx tx.
Proof. by repeat split. Qed.

Lemma same_identity_trans tx1 tx2 tx3 :
  same_identity tx1 tx2 -> same_identity tx2 tx3 -> same_identity tx1 tx3.
Proof.
  intros (?&?&?&?&?) (?&?&?&?&?). repeat split; congruence.
Qed.

Lemma same_identity_ticked s now tx : same_identity tx (ticked s now tx).
Proof. unfold ticked. destruct (charging_now s tx); by repeat split. Qed.

Lemma action_identity s s' tid tx :
  action s s' -> active_transactions s !! tid = Some tx ->
  exists tx', active_transactions s' !! tid = Some tx' /\ same_identity tx tx'.
Proof.
  intros Ha Ht. destruct Ha as
    [s | cid' tag ms uuid now c s Hfresh Hc Hav | tid' now tx' c s Ht' Hc
     | now s s' Hpost | tid' tx' c s Ht' Hc | tid' tx' c s Ht' Hc]; simpl.
  - exists tx. split; [done | apply same_identity_refl].
  - exists tx. rewrite lookup_insert_ne by congruence.
    split; [done | apply same_identity_refl].
  - destruct (decide (tid' = tid)) as [->|Hne].
    + rewrite lookup_insert_eq. eexists. split; [reflexivity|].
      rewrite Ht in Ht'. injection Ht' as <-. by repeat split.
    + rewrite lookup_insert_ne by done. exists tx.
      split; [done | apply same_identity_refl].
  - destruct Hpost as (_ & _ & _ & _ & Htk & _).
    exists (ticked s now tx). rewrite Htk, Ht.
    split; [done | apply same_identity_ticked].
  - destruct (decide (tid' = tid)) as [->|Hne].
    + rewrite lookup_insert_eq. eexists. split; [reflexivity|].
      rewrite Ht in Ht'. injection Ht' as <-. by repeat split.
    + rewrite lookup_insert_ne by done. exists tx.
      split; [done | apply same_identity_refl].
  - destruct (decide (tid' = tid)) as [->|Hne].
    + rewrite lookup_insert_eq. eexists. split; [reflexivity|].
      rewrite Ht in Ht'. injection Ht' as <-. by repeat split.
    + rewrite lookup_insert_ne by done. exists tx.
      split; [done | apply same_identity_refl].
Qed.

Lemma steps_identity s s' tid tx :
  wf s -> rtc step s s' -> active_transactions s !! tid = Some tx ->
  exists tx', active_transactions s' !! tid = Some tx' /\ same_identity tx tx'.
Proof.
  intros Hwf Hs. revert tx. induction Hs as [|s1 s2 s3 H12 H23 IH]; intros tx Ht.
  - exists tx. split; [done | apply same_identity_refl].
  - destruct (action_identity s1 s2 tid tx (step_action _ _ Hwf H12) Ht)
      as (tx2 & Ht2 & Hid2).
    destruct (IH (step_wf _ _ Hwf H12) tx2 Ht2) as (tx3 & Ht3 & Hid3).
    exists tx3. split; [done|]. by eapply same_identity_trans.
Qed.

Lemma action_keyed s s' : action s s' -> keyed s -> keyed s'.
Proof.
  intros Ha Hk tid tx' Ht'.
  destruct Ha as
    [s | cid' tag ms uuid now c s Hfresh Hc Hav | tid0 now tx0 c s Ht0 Hc
     | now s s' Hpost | tid0 tx0 c s Ht0 Hc | tid0 tx0 c s Ht0 Hc]; simpl in Ht'.
  - by apply Hk.
  - rewrite lookup_insert in Ht'. destruct (decide (uuid = tid)) as [->|Hne];
      [by injection Ht' as <- | by apply Hk].
  - rewrite lookup_insert in Ht'. destruct (decide (tid0 = tid)) as [->|Hne];
      [injection Ht' as <-; simpl; by apply Hk | by apply Hk].
  - destruct Hpost as (_ & _ & _ & _ & Htk & _). rewrite Htk in Ht'.
    destruct (active_transactions s !! tid) as [tx|] eqn:Ht; [|done].
    injection Ht' as <-. destruct (same_identity_ticked s now tx) as [-> _].
    by apply Hk.
  - rewrite lookup_insert in Ht'. destruct (decide (tid0 = tid)) as [->|Hne];
      [injection Ht' as <-; simpl; by apply Hk | by apply Hk].
  - rewrite lookup_insert in Ht'. destruct (decide (tid0 = tid)) as [->|Hne];
      [injection Ht' as <-; simpl; by apply Hk | by apply Hk].
Qed.

Lemma reachable_keyed o s : reachable o s -> keyed s.
Proof.
  revert s. unfold reachable.
  apply (rtc_ind_r keyed (init o)); [done|].
  intros y z Hxy Hyz IH. eapply action_keyed; [|exact IH].
  apply step_action; [|exact Hyz]. by apply (reachable_wf o).
Qed.

(** X8. In a reachable state a transaction is stored under its own id, and
    whatever happens afterwards [get_transaction] still finds it, with the
    same id, connector, id tag, start time and meter start: a transaction
    is never removed from the table, moved to another connector or
    restarted. *)
Theorem transaction_identity (o : Options) (s : State) (tid : string)
    (tx : Transaction) :
  reachable o s -> active_transactions s !! tid = Some tx ->
  transaction_id tx = tid /\
  forall s', rtc step s s' ->
    exists tx', get_transaction tid s' = Some tx' /\
      transaction_id tx' = tid /\
      t_connector_id tx' = t_connector_id tx /\
      id_tag tx' = id_tag tx /\ start_time tx' = start_time tx /\
      meter_start tx' = meter_start tx.
Proof.
  intros Hr Ht. pose proof (reachable_keyed o s Hr) as Hk.
  split; [by apply Hk|]. intros s' Hs.
  destruct (steps_identity s s' tid tx (reachable_wf o s Hr) Hs Ht)
    as (tx' & Ht' & Hid & Hrest).
  exists tx'. split; [done|]. split; [|done]. rewrite Hid. by apply Hk.
Qed.

Lemma transaction_identity_witness :
  exists tx', get_transaction "T1" one_ticked = Some tx' /\
    transaction_id tx' = "T1" /\ t_connector_id tx' = 1 /\
    id_tag tx' = "tag" /\ start_time tx' = 0 /\ meter_start tx' = 0%Q.
Proof.
  refine (proj2 (transaction_identity _ one_started "T1" _ started_reachable eq_refl)
            one_ticked _).
  eapply rtc_l; [apply step_start_charging|].
  eapply rtc_l; [apply step_tick|]. apply rtc_refl.
Defined.

(** *** A whole charging session *)

Lemma advance_idle t s : timers s = [] -> advance_to t s = s.
Proof. destruct s as [o conns txs en tms log]. simpl. by intros ->. Qed.

Lemma advance_charge t d tid s tx c :
  timers s = [mkTimer d (CbStartCharging tid)] -> d <= t ->
  active_transactions s !! tid = Some tx ->
  connectors s !! t_connector_id tx = Some c ->
  advance_to t s = charging tid tx c (set_timers [] s).
Proof.
  intros Htm Hle Ht Hc. unfold advance_to. rewrite Htm.
  cbn [run_timers due callback run_callback].
  destruct (decide (d <= t)) as [_|]; [|lia].
  by rewrite (_start_charging_ok tid (set_timers [] s) tx c Ht Hc).
Qed.

Lemma advance_finish t d tid s tx c :
  timers s = [mkTimer d (CbFinishTransaction tid)] -> d <= t ->
  active_transactions s !! tid = Some tx ->
  connectors s !! t_connector_id tx = Some c ->
  advance_to t s = finished tid tx c (set_timers [] s).
Proof.
  intros Htm Hle Ht Hc. unfold advance_to. rewrite Htm.
  cbn [run_timers due callback run_callback].
  destruct (decide (d <= t)) as [_|]; [|lia].
  by rewrite (_finish_transaction_ok tid (set_timers [] s) tx c Ht Hc).
Qed.

(** X9. A session without interference: on an Available connector, with no
    timer pending, a transaction is started, stopped more than three
    seconds later, and two more seconds pass. The statuses notified for the
    connector are then Preparing, Charging, Finishing, Available, in this
    order; the connector is Available again; the transaction is Completed,
    with the stop time of the call and meter stop equal to meter start (no
    tick ran, so no energy was delivered); no timer is left, and every
    other transaction and connector is as before. *)
Theorem normal_cycle (cid : Z) (tag : string) (ms : Q) (uuid reason : string)
    (now t_stop : Z) (s : State) (c : Connector) :
  connectors s !! cid = Some c -> c_status c = AVAILABLE ->
  timers s = [] -> now + 3000000 < t_stop ->
  let s' := advance_to (t_stop + 2000000)
              (run [(now, CStart cid tag ms uuid); (t_stop, CStop uuid reason)] s) in
  statuses_of cid s' =
    statuses_of cid s ++ [PREPARING; CHARGING; FINISHING; AVAILABLE] /\
  connector_status s' cid = Some AVAILABLE /\
  get_transaction uuid s' =
    Some (mkTransaction uuid cid tag now ms (Some (ms + 0)%Q) COMPLETED 0%Q
            (max_power (options s) * 0.1)%Q (Some t_stop)) /\
  timers s' = [] /\
  (forall tid, tid ≠ uuid -> get_transaction tid s' = get_transaction tid s) /\
  (forall cid', cid' ≠ cid -> connectors s' !! cid' = connectors s !! cid').
Proof.
  intros Hc Hav Htm Hle s'. subst s'.
  cbn [run exec]. rewrite (advance_idle now s Htm).
  rewrite (start_transaction_ok _ _ _ _ _ _ _ Hc Hav). cbn [snd].
  erewrite (advance_charge t_stop (now + 3000000) uuid);
    [| simpl; by rewrite Htm | lia
     | simpl; apply lookup_insert_eq | simpl; apply lookup_insert_eq].
  erewrite stop_transaction_ok;
    [| simpl; apply lookup_insert_eq | simpl; apply lookup_insert_eq].
  cbn [snd].
  erewrite (advance_finish (t_stop + 2000000) (t_stop + 2000000) uuid);
    [| reflexivity | lia
     | simpl; apply lookup_insert_eq | simpl; apply lookup_insert_eq].
  split; [|split; [|split; [|split; [|split]]]].
  - unfold statuses_of. simpl. rewrite !statuses_snoc, !decide_True by done.
    by rewrite <- !app_assoc.
  - unfold connector_status. simpl. by rewrite lookup_insert_eq.
  - unfold get_transaction. simpl. by rewrite lookup_insert_eq.
  - done.
  - intros tid Hne. unfold get_transaction. simpl.
    by rewrite !lookup_insert_ne.
  - intros cid' Hne. simpl. by rewrite !lookup_insert_ne.
Qed.

Lemma normal_cycle_witness :
  statuses_of 1
    (advance_to (sec 12)
       (run [(sec 0, CStart 1 "tag" 0 "T1"); (sec 10, CStop "T1" "Local")]
            one_connector))
  = [PREPARING; CHARGING; FINISHING; AVAILABLE].
Proof.
  refine (proj1 (normal_cycle 1 "tag" 0 "T1" "Local" (sec 0) (sec 10) one_connector
                   (new_connector 1) eq_refl eq_refl eq_refl _)).
  vm_compute. reflexivity.
Defined.

(** *** Ticks without a charging transaction *)

(** X10. Energy is accumulated only on a connector that is Charging, in a
    state where the connector of every transaction exists and has a
    counter, as in every reachable state. A
    transaction that is not Active, or whose connector is not Charging
    (during the three seconds of Preparing, or once Finishing), is left
    unchanged by a tick; and when no transaction of the table is Active on
    a Charging connector the tick changes nothing at all. *)
Theorem tick_without_charging (now : Z) (s : State) :
  wf s ->
  (forall tid tx, active_transactions s !! tid = Some tx ->
     t_status tx ≠ ACTIVE \/ connector_status s (t_connector_id tx) ≠ Some CHARGING ->
     get_transaction tid (snd (_tick now s)) = Some tx) /\
  ((forall tid tx, active_transactions s !! tid = Some tx ->
      t_status tx ≠ ACTIVE \/ connector_status s (t_connector_id tx) ≠ Some CHARGING) ->
   _tick now s = (Ret tt, s)).
Proof.
  intros Hwf.
  assert (Hoff : forall tx,
            t_status tx ≠ ACTIVE \/
            connector_status s (t_connector_id tx) ≠ Some CHARGING ->
            charging_now s tx = false).
  { intros tx Hor. unfold charging_now. apply andb_false_iff.
    destruct Hor as [H|H]; [left | right]; by apply bool_decide_eq_false_2. }
  split.
  - intros tid tx Ht Hor.
    destruct (_tick_spec now s Hwf) as (s' & -> & _ & _ & _ & _ & Htk & _).
    unfold get_transaction. simpl. rewrite Htk, Ht. simpl.
    unfold ticked. by rewrite (Hoff tx Hor).
  - intros Hall. unfold _tick, _update_transactions.
    cut (active_transactions s ⊆ active_transactions s ->
         map_fold (fun tid tx (r : outcome unit * State) =>
                     match r with
                     | (Ret _, s') => update_transaction now tid tx s'
                     | (Raise e, s') => (Raise e, s')
                     end) (Ret tt, s) (active_transactions s) = (Ret tt, s));
      [intros H; by apply H|].
    apply (map_fold_weak_ind
             (fun r m => m ⊆ active_transactions s -> r = (Ret tt, s))); [done|].
    intros tid tx m r Hm IH Hsub.
    assert (Htx : active_transactions s !! tid = Some tx).
    { eapply lookup_weaken; [|exact Hsub]. apply lookup_insert_eq. }
    rewrite IH by (etrans; [|exact Hsub]; by apply insert_subseteq).
    destruct (Hwf tid tx Htx) as [[c Hc] _].
    apply (update_transaction_skip now tid tx s c Hc).
    by apply Hoff, (Hall tid).
Qed.

Lemma tick_without_charging_witness :
  _tick 1000000 one_started = (Ret tt, one_started).
Proof.
  apply (proj2 (tick_without_charging 1000000 one_started
                  (reachable_wf _ _ started_reachable))).
  intros tid tx Ht. right.
  assert (Hin : (tid, tx) ∈ map_to_list (active_transactions one_started))
    by (by apply elem_of_map_to_list).
  vm_compute in Hin. apply list_elem_of_singleton in Hin.
  injection Hin as -> ->. vm_compute. discriminate.
Defined.

(** *** The stop fields of a transaction *)

Lemma elem_of_add_timer tm x l : x ∈ add_timer tm l -> x = tm \/ x ∈ l.
Proof.
  induction l as [|y l IH]; simpl.
  - intros H. apply list_elem_of_singleton in H. by left.
  - destruct (decide (due y <= due tm)).
    + intros H. apply elem_of_cons in H as [->|H].
      * right. by left.
      * destruct (IH H) as [->|Hin]; [by left | right; by right].
    + intros H. apply elem_of_cons in H as [->|H]; [by left | by right].
Qed.

Lemma billing_replace pending s s' tid tx tx' :
  billing_ok pending s -> wf s' ->
  active_transactions s !! tid = Some tx ->
  active_transactions s' = <[tid := tx']> (active_transactions s) ->
  billed tx' -> (t_status tx ≠ ACTIVE -> t_status tx' ≠ ACTIVE) ->
  billing_ok pending s'.
Proof.
  intros (Hwf & Hb & Hp) Hwf' Ht Heq Hb' Hst. split; [done|]. split.
  - intros tid0 tx0. rewrite Heq, lookup_insert.
    destruct (decide (tid = tid0)) as [->|Hne]; [by intros [= <-] | apply Hb].
  - intros tm tid0 Hin Hcb. destruct (Hp tm tid0 Hin Hcb) as (tx0 & Ht0 & Hna).
    rewrite Heq, lookup_insert. destruct (decide (tid = tid0)) as [->|Hne].
    + exists tx'. split; [done|]. apply Hst. congruence.
    + by exists tx0.
Qed.

Lemma billing_timers pending pending' s :
  billing_ok pending s -> pending' ⊆ pending -> billing_ok pending' s.
Proof.
  intros (Hwf & Hb & Hp) Hsub. split; [done|]. split; [done|].
  intros tm tid Hin. apply Hp. by apply Hsub.
Qed.

Lemma billing_set_timers pending l s :
  billing_ok pending s -> billing_ok pending (set_timers l s).
Proof. intros H. exact H. Qed.

Lemma billing_callback pending tm s :
  billing_ok (tm :: pending) s ->
  billing_ok pending (snd (run_callback (callback tm) s)).
Proof.
  intros Hok. pose proof Hok as (Hwf & Hb & Hp).
  assert (Hok' : billing_ok pending s).
  { eapply billing_timers; [exact Hok|]. intros x Hx. by right. }
  destruct tm as [d [tid|tid]]; simpl.
  - destruct (active_transactions s !! tid) as [tx|] eqn:Ht;
      [|by rewrite (_start_charging_unknown _ _ Ht)].
    destruct (Hwf tid tx Ht) as [[c Hc] _].
    rewrite (_start_charging_ok _ _ _ _ Ht Hc). simpl.
    eapply (billing_replace pending s _ tid tx); [done| |done|reflexivity| |done].
    + eapply action_wf; [exact Hwf | by apply act_charging].
    + exact (Hb tid tx Ht).
  - destruct (Hp (mkTimer d (CbFinishTransaction tid)) tid) as (tx & Ht & Hna);
      [by left | done |].
    destruct (Hwf tid tx Ht) as [[c Hc] _].
    rewrite (_finish_transaction_ok _ _ _ _ Ht Hc). simpl.
    eapply (billing_replace pending s _ tid tx); [done| |done|reflexivity| |done].
    + eapply action_wf; [exact Hwf | by apply act_finished].
    + destruct (Hb tid tx Ht) as [_ Hn]. split; [done|]. intros _. by apply Hn.
Qed.

Lemma billing_run_timers t pending : forall s,
  billing_ok pending s ->
  billing_ok (timers (run_timers t pending s)) (run_timers t pending s).
Proof.
  induction pending as [|tm rest IH]; intros s Hok.
  - simpl. eapply billing_timers; [exact Hok | done].
  - simpl. destruct (decide (due tm <= t)); [|exact Hok].
    apply IH. apply (billing_callback rest tm (set_timers rest s)). exact Hok.
Qed.

Lemma billing_exec t c s :
  billing_ok (timers s) s ->
  match c with
  | CStart _ _ _ uuid => active_transactions s !! uuid = None
  | _ => True
  end ->
  billing_ok (timers (exec t c s)) (exec t c s).
Proof.
  intros Hok Hfresh. pose proof Hok as (Hwf & Hb & Hp).
  destruct c as [cid tag ms uuid | tid reason |]; simpl.
  - destruct (connectors s !! cid) as [c|] eqn:Hc;
      [|by rewrite (start_transaction_unknown _ _ _ _ _ _ Hc)].
    destruct (decide (c_status c = AVAILABLE)) as [Hav|Hne];
      [|by rewrite (start_transaction_busy _ _ _ _ _ _ _ Hc Hne)].
    rewrite (start_transaction_ok _ _ _ _ _ _ _ Hc Hav). simpl.
    split; [|split].
    + eapply action_wf; [exact Hwf | by apply act_started].
    + intros tid tx. simpl. rewrite lookup_insert.
      destruct (decide (uuid = tid)) as [->|Hne]; [|apply Hb].
      intros [= <-]. split; simpl; [done | by intros []].
    + intros tm tid Hin Hcb. apply elem_of_add_timer in Hin as [->|Hin]; [done|].
      destruct (Hp tm tid Hin Hcb) as (tx & Ht & Hna).
      exists tx. split; [|done]. simpl. rewrite lookup_insert_ne; [done|].
      intros ->. congruence.
  - destruct (active_transactions s !! tid) as [tx|] eqn:Ht;
      [|by rewrite (stop_transaction_unknown _ _ _ _ Ht)].
    destruct (Hwf tid tx Ht) as [[c Hc] _].
    rewrite (stop_transaction_ok _ reason _ _ _ _ Ht Hc). simpl.
    split; [|split].
    + eapply action_wf; [exact Hwf | by apply act_stopped].
    + intros tid0 tx0. simpl. rewrite lookup_insert.
      destruct (decide (tid = tid0)) as [->|Hne]; [|apply Hb].
      intros [= <-]. split; simpl; [done|]. intros _. split; [done | by eexists].
    + intros tm tid0 Hin Hcb. simpl. rewrite lookup_insert.
      destruct (decide (tid = tid0)) as [->|Hne]; [by eexists|].
      apply elem_of_add_timer in Hin as [->|Hin]; [simpl in Hcb; congruence|].
      exact (Hp tm tid0 Hin Hcb).
  - destruct (_tick_spec t s Hwf) as (s' & Hs' & Hpost). rewrite Hs'. simpl.
    pose proof (tick_post_fmap _ _ _ Hpost) as Hmap.
    destruct Hpost as (_ & _ & -> & _ & Htk & _).
    split; [|split].
    + replace s' with (snd (_tick t s)) by (by rewrite Hs').
      by eapply step_wf; [|apply step_tick].
    + intros tid tx'. rewrite Htk.
      destruct (active_transactions s !! tid) as [tx|] eqn:Ht; [|done].
      intros [= <-]. pose proof (Hb tid tx Ht) as [Ha Hn].
      unfold ticked. destruct (charging_now s tx) eqn:Hch; [|done].
      apply charging_now_true in Hch as [Hact _].
      split; simpl; [intros _; by apply Ha | done].
    + intros tm tid Hin Hcb. destruct (Hp tm tid Hin Hcb) as (tx & Ht & Hna).
      exists tx. rewrite Htk, Ht. simpl. by rewrite ticked_inactive.
Qed.

Lemma billing_run trace : forall s,
  billing_ok (timers s) s -> fresh_ids trace s ->
  billing_ok (timers (run trace s)) (run trace s).
Proof.
  induction trace as [|[t c] rest IH]; intros s Hok Hfresh; [done|].
  simpl in Hfresh |- *. destruct Hfresh as [Hf Hrest].
  apply IH; [|exact Hrest].
  apply billing_exec; [by apply billing_run_timers | exact Hf].
Qed.

(** X11. Along every run from construction in which the transaction ids
    are fresh, with the timers firing when they are due, the stop fields of
    a transaction agree with its status: an Active transaction has neither
    meter stop nor stop time, and a Stopped or Completed one has a stop
    time and the meter stop [meter_start + energy_delivered]. *)
Theorem billing_consistent (o : Options) (trace : list (Z * Command))
    (tid : string) (tx : Transaction) :
  fresh_ids trace (init o) ->
  get_transaction tid (run trace (init o)) = Some tx ->
  (t_status tx = ACTIVE -> meter_stop tx = None /\ stop_time tx = None) /\
  (t_status tx ≠ ACTIVE ->
   meter_stop tx = Some (meter_start tx + t_energy_delivered tx)%Q /\
   is_Some (stop_time tx)).
Proof.
  intros Hfresh Ht.
  assert (Hinit : billing_ok (timers (init o)) (init o)).
  { split; [apply init_wf|]. split; [done|]. intros tm tid0 Hin. simpl in Hin.
    by apply elem_of_nil in Hin. }
  destruct (billing_run trace (init o) Hinit Hfresh) as (_ & Hb & _).
  exact (Hb tid tx Ht).
Qed.

Lemma billing_consistent_witness :
  exists tx, get_transaction "T1" (run short_session one_connector) = Some tx /\
    t_status tx = STOPPED /\
    meter_stop tx = Some (meter_start tx + t_energy_delivered tx)%Q.
Proof.
  exists (mkTransaction "T1" 1 "tag" 0 0 (Some (0 + 0)%Q) STOPPED 0
            (22000 * 0.1)%Q (Some (sec 10))).
  split; [reflexivity|]. split; [reflexivity|].
  refine (proj1 (proj2 (billing_consistent (mkOptions 1 22000 5000)
                          short_session "T1" _ _ eq_refl) _)).
  - vm_compute. done.
  - discriminate.
Defined.

End ChargerMore.


(* ===================================================================== *)
(** ** Further properties of the inverter                                *)
(* ===================================================================== *)

Module InverterMore.
Import Inverter InverterProofs.
Local Open Scope R_scope.

(** *** Scheduling a fault *)

(** X12. [_schedule_next_fault] returns nothing when faults are disabled.
    When they are enabled it raises [ZeroDivisionError] for a mean interval
    of 0, and then so does the constructor; for a positive mean interval of
    [d] days it returns the virtual time plus a whole number of minutes
    below [d * 1440]; for a negative one the offset is negative or 0, so
    the fault is scheduled in the past. *)
Theorem schedule_next_fault_spec (o : Options) (vt wall_ms : Z) :
  (fault_enabled o = false -> _schedule_next_fault o vt wall_ms = Ret None) /\
  (fault_enabled o = true -> mean_fault_interval o = 0%Z ->
   _schedule_next_fault o vt wall_ms = Raise ZeroDivisionError /\
   init o vt wall_ms = Raise ZeroDivisionError) /\
  (fault_enabled o = true -> (0 < mean_fault_interval o)%Z ->
   exists k, _schedule_next_fault o vt wall_ms = Ret (Some (vt + k * 60000000)%Z) /\
     (0 <= k < mean_fault_interval o * 1440)%Z /\
     (k = wall_ms mod (mean_fault_interval o * 1440))%Z) /\
  (fault_enabled o = true -> (mean_fault_interval o < 0)%Z ->
   exists k, _schedule_next_fault o vt wall_ms = Ret (Some (vt + k * 60000000)%Z) /\
     (mean_fault_interval o * 1440 < k <= 0)%Z).
Proof.
  unfold init, _schedule_next_fault.
  split; [intros ->; reflexivity|]. split; [|split].
  - intros -> ->. split; reflexivity.
  - intros -> Hpos. cbn [negb].
    destruct (decide (mean_fault_interval o * 24 * 60 = 0)%Z) as [|_]; [lia|].
    exists (wall_ms mod (mean_fault_interval o * 24 * 60))%Z.
    split; [do 2 f_equal; lia|].
    replace (mean_fault_interval o * 24 * 60)%Z
      with (mean_fault_interval o * 1440)%Z by lia.
    split; [|reflexivity]. apply Z.mod_pos_bound. lia.
  - intros -> Hneg. cbn [negb].
    destruct (decide (mean_fault_interval o * 24 * 60 = 0)%Z) as [|_]; [lia|].
    exists (wall_ms mod (mean_fault_interval o * 24 * 60))%Z.
    split; [do 2 f_equal; lia|].
    replace (mean_fault_interval o * 24 * 60)%Z
      with (mean_fault_interval o * 1440)%Z by lia.
    apply Z.mod_neg_bound. lia.
Qed.

Lemma schedule_next_fault_spec_witness :
  exists k,
    _schedule_next_fault faulty_options 0 123456789 = Ret (Some (0 + k * 60000000)%Z) /\
    (0 <= k < mean_fault_interval faulty_options * 1440)%Z /\
    (k = 123456789 mod (mean_fault_interval faulty_options * 1440))%Z.
Proof.
  exact (proj1 (proj2 (proj2 (schedule_next_fault_spec faulty_options 0 123456789)))
           eq_refl eq_refl).
Defined.

(** *** What a tick leaves unchanged *)

Lemma frame_after_reset s :
  simulation_start_time (after_reset s) = simulation_start_time s /\
  next_fault_time (after_reset s) = next_fault_time s /\
  fault_end_time (after_reset s) = fault_end_time s /\
  current_tick_interval_ms (after_reset s) = current_tick_interval_ms s /\
  last_grid_power_update (after_reset s) = last_grid_power_update s.
Proof.
  unfold reset_yearly, reset_monthly, reset_daily.
  repeat case_match; repeat split; reflexivity.
Qed.

Lemma frame_after_report solar s :
  simulation_start_time (after_report solar s) = simulation_start_time s /\
  grid_power_data (after_report solar s) = grid_power_data (record_sample solar s) /\
  last_grid_power_update (after_report solar s) =
    last_grid_power_update (note_batch (record_sample solar s)) /\
  monthly (after_report solar s) =
    (if fault_active s then monthly s else monthly s + (solar * 5) / 60 / 1000) /\
  yearly (after_report solar s) =
    (if fault_active s then yearly s else yearly s + (solar * 5) / 60 / 1000).
Proof.
  unfold after_report, accumulate, note_batch, record_sample.
  repeat case_match; simpl in *; simplify_eq; repeat split; try done; congruence.
Qed.

Lemma frame_record_sample solar s :
  options (record_sample solar s) = options s /\
  virtual_time (record_sample solar s) = virtual_time s /\
  last_grid_power_update (record_sample solar s) = last_grid_power_update s.
Proof. unfold record_sample. by case_match. Qed.

Lemma init_fields o start wall s0 :
  init o start wall = Ret s0 ->
  options s0 = o /\ virtual_time s0 = start /\
  simulation_start_time s0 = IZR start / 1000000 * 1000 /\
  fault_active s0 = false /\
  daily s0 = 0 /\ monthly s0 = 0 /\ yearly s0 = 0 /\
  grid_power_data s0 = replicate 288 0 /\ last_grid_power_update s0 = None.
Proof.
  unfold init. destruct (_schedule_next_fault o start wall) as [nft|e];
    [|intros H; discriminate H].
  intros H. apply Ret_inj in H. subst s0. fields. done.
Qed.

(** *** The time warp factor *)

Lemma interval_tick w s :
  current_tick_interval_ms (snd (_tick w s)) = current_tick_interval_ms s.
Proof.
  destruct (frame_after_reset s) as (_ & _ & _ & Hi & _).
  destruct (_tick_state w s) as (s2 & Hframe & _ & [Hs|Hs]); rewrite Hs;
    destruct Hframe as (_ & _ & _ & Hi2 & _).
  - destruct (fields_after_report (solar_of w (after_reset s)) s2)
      as (_ & _ & _ & _ & _ & Hi3 & _).
    by rewrite Hi3, Hi2.
  - by rewrite Hi2.
Qed.

Lemma interval_run trace : forall s,
  current_tick_interval_ms (run trace s) =
    last_interval trace (current_tick_interval_ms s) /\
  options (run trace s) = options s.
Proof.
  induction trace as [|c trace IH]; intros s; [done|].
  rewrite run_cons. destruct (IH (exec c s)) as [-> ->].
  destruct c as [w|ms]; cbn [last_interval exec].
  - by rewrite interval_tick, options_tick.
  - unfold update_tick_interval. destruct (Rle_dec ms 0); done.
Qed.

Lemma last_interval_pos trace : forall ms0, 0 < ms0 -> 0 < last_interval trace ms0.
Proof.
  induction trace as [|c trace IH]; intros ms0 H0; [done|].
  destruct c as [w|ms]; cbn [last_interval]; apply IH; [done|].
  destruct (Rle_dec ms 0); lra.
Qed.

(** X13. With a positive initial interval, after any run of ticks and
    calls of [update_tick_interval] the current interval is the last valid
    (positive) argument given, or the interval before the run when there
    was none: an argument of 0 or less is ignored and ticks do not change
    it. [get_current_time_warp_factor] is then the initial interval divided
    by that value, and never 0. *)
Theorem warp_factor_run (trace : list Command) (s : State) :
  0 < initial_tick_interval_ms (options s) -> 0 < current_tick_interval_ms s ->
  let ms := last_interval trace (current_tick_interval_ms s) in
  current_tick_interval_ms (run trace s) = ms /\ 0 < ms /\
  get_current_time_warp_factor (run trace s) =
    initial_tick_interval_ms (options s) / ms /\
  0 < get_current_time_warp_factor (run trace s).
Proof.
  intros Hinit Hcur ms.
  destruct (interval_run trace s) as [Hi Ho].
  pose proof (last_interval_pos trace _ Hcur) as Hpos. fold ms in Hi, Hpos.
  split; [exact Hi|]. split; [exact Hpos|].
  unfold get_current_time_warp_factor. rewrite Hi, Ho.
  destruct (Rle_dec ms 0); [lra|].
  destruct (Rle_dec (initial_tick_interval_ms (options s)) 0); [lra|].
  split; [reflexivity|].
  unfold Rdiv. apply Rmult_lt_0_compat; [done|]. by apply Rinv_0_lt_compat.
Qed.

Lemma warp_factor_run_witness :
  get_current_time_warp_factor
    (run [CUpdateTickInterval 500; CTick half_cloud; CUpdateTickInterval (-5)]
         before_noon) = 2.
Proof.
  assert (H1 : 0 < initial_tick_interval_ms (options before_noon))
    by (unfold before_noon, default_options; fields;
        cbn [initial_tick_interval_ms]; lra).
  assert (H2 : 0 < current_tick_interval_ms before_noon)
    by (unfold before_noon; fields; lra).
  destruct (warp_factor_run
              [CUpdateTickInterval 500; CTick half_cloud; CUpdateTickInterval (-5)]
              before_noon H1 H2) as (_ & _ & Hw & _).
  rewrite Hw. cbn [last_interval].
  destruct (Rle_dec 500 0) as [|_]; [lra|].
  destruct (Rle_dec (-5) 0) as [_|]; [|lra].
  unfold before_noon, default_options. fields. cbn [initial_tick_interval_ms]. lra.
Defined.

(** *** The energy counters *)

Lemma monthly_after_reset s :
  monthly (after_reset s) =
    if ((day (virtual_time s + 300000000) =? 1) &&
        (hour (virtual_time s + 300000000) =? 0) &&
        (minute (virtual_time s + 300000000) =? 0))%Z
    then 0 else monthly s.
Proof.
  assert (H1 : forall x, monthly (reset_yearly x) = monthly x)
    by (intros x; unfold reset_yearly; by case_match).
  assert (H3 : forall x, monthly (reset_daily x) = monthly x)
    by (intros x; unfold reset_daily; by case_match).
  rewrite H1. unfold reset_monthly at 1.
  rewrite virtual_time_reset_daily, virtual_time_advance.
  case_match; [reflexivity|]. by rewrite H3.
Qed.

Lemma yearly_after_reset s :
  yearly (after_reset s) =
    if ((month (virtual_time s + 300000000) =? 1) &&
        (day (virtual_time s + 300000000) =? 1) &&
        (hour (virtual_time s + 300000000) =? 0) &&
        (minute (virtual_time s + 300000000) =? 0))%Z
    then 0 else yearly s.
Proof.
  assert (H2 : forall x, yearly (reset_monthly x) = yearly x)
    by (intros x; unfold reset_monthly; by case_match).
  assert (H3 : forall x, yearly (reset_daily x) = yearly x)
    by (intros x; unfold reset_daily; by case_match).
  unfold reset_yearly at 1.
  rewrite virtual_time_reset_monthly, virtual_time_reset_daily, virtual_time_advance.
  case_match; [reflexivity|]. by rewrite H2, H3.
Qed.

Lemma ordered_after_reset s : ordered s -> ordered (after_reset s).
Proof.
  intros (H0 & H1 & H2). unfold ordered.
  rewrite daily_after_reset, monthly_after_reset, yearly_after_reset.
  unfold resets_at.
  destruct (month (virtual_time s + 300000000) =? 1)%Z,
           (day (virtual_time s + 300000000) =? 1)%Z,
           (hour (virtual_time s + 300000000) =? 0)%Z,
           (minute (virtual_time s + 300000000) =? 0)%Z;
    cbn [andb]; lra.
Qed.

Lemma ordered_frame s s2 : same_but_fault s s2 -> ordered s -> ordered s2.
Proof.
  intros (_ & _ & _ & _ & Hd & Hm & Hy & _) H. unfold ordered.
  by rewrite Hd, Hm, Hy.
Qed.

Lemma ordered_after_report solar s :
  0 <= solar -> ordered s -> ordered (after_report solar s).
Proof.
  intros Hs (H0 & H1 & H2). unfold ordered.
  destruct (fields_after_report solar s) as (_ & _ & _ & _ & _ & _ & _ & ->).
  destruct (frame_after_report solar s) as (_ & _ & _ & -> & ->).
  destruct (fault_active s); lra.
Qed.

Lemma ordered_tick w s : ordered s -> ordered (snd (_tick w s)).
Proof.
  intros Ho.
  destruct (_tick_state w s) as (s2 & Hframe & _ & [Hs|Hs]); rewrite Hs.
  - apply ordered_after_report; [apply solar_of_bounds|].
    eapply ordered_frame; [exact Hframe|]. by apply ordered_after_reset.
  - eapply ordered_frame; [exact Hframe|]. by apply ordered_after_reset.
Qed.

(** X14. The energy counters stay ordered: when they start with
    [0 <= daily <= monthly <= yearly], as they do after construction, this
    holds after every run, whatever the resets, the faults and the
    exceptions in it. *)
Theorem energy_counters_ordered (trace : list Command) (s : State) :
  0 <= daily s -> daily s <= monthly s -> monthly s <= yearly s ->
  0 <= daily (run trace s) /\ daily (run trace s) <= monthly (run trace s) /\
  monthly (run trace s) <= yearly (run trace s).
Proof.
  intros H0 H1 H2. assert (Ho : ordered s) by done. clear H0 H1 H2.
  revert s Ho. induction trace as [|c trace IH]; intros s Ho; [exact Ho|].
  rewrite run_cons. apply IH. destruct c as [w|ms]; cbn [exec].
  - by apply ordered_tick.
  - unfold update_tick_interval. destruct (Rle_dec ms 0); exact Ho.
Qed.

Lemma energy_counters_ordered_witness :
  0 <= daily (run [CTick half_cloud; CTick clear_sky] before_noon) /\
  daily (run [CTick half_cloud; CTick clear_sky] before_noon)
    <= monthly (run [CTick half_cloud; CTick clear_sky] before_noon) /\
  monthly (run [CTick half_cloud; CTick clear_sky] before_noon)
    <= yearly (run [CTick half_cloud; CTick clear_sky] before_noon).
Proof.
  apply energy_counters_ordered; unfold before_noon; fields; lra.
Defined.

(** X15. The three counters receive the same energy in a tick. After the
    resets of the tick (daily at midnight, monthly at midnight of day 1,
    yearly at midnight of 1 January, each tested on the virtual time after
    the advance), each counter grows by the same [e >= 0]: nothing when
    the fault flag is set after the fault update, and otherwise the solar
    power of the payload over five minutes, in kWh. *)
Theorem tick_energy_accounting (w : Oracle) (s s' : State) (l : list Payload) :
  _tick w s = (Ret l, s') ->
  let t' := (virtual_time s + 300000000)%Z in
  exists e,
    0 <= e /\
    daily s' = (if ((hour t' =? 0) && (minute t' =? 0))%Z then 0 else daily s) + e /\
    monthly s' =
      (if ((day t' =? 1) && (hour t' =? 0) && (minute t' =? 0))%Z
       then 0 else monthly s) + e /\
    yearly s' =
      (if ((month t' =? 1) && (day t' =? 1) && (hour t' =? 0) && (minute t' =? 0))%Z
       then 0 else yearly s) + e /\
    (fault_active s' = true -> e = 0) /\
    (fault_active s' = false ->
     forall ts el d, In (InverterTick ts el d) l -> e = solarPower d * 5 / 60 / 1000).
Proof.
  intros Htick t'.
  destruct (_tick_ret w s l s' Htick) as (s2 & Hf & Hs' & Hl).
  pose proof (_update_fault_status_frame w (after_reset s)) as Hframe.
  rewrite Hf in Hframe. cbn [snd] in Hframe.
  destruct Hframe as (_ & _ & _ & _ & Hd2 & Hm2 & Hy2 & _).
  rewrite daily_after_reset in Hd2. rewrite monthly_after_reset in Hm2.
  rewrite yearly_after_reset in Hy2. unfold resets_at in Hd2.
  fold t' in Hd2, Hm2, Hy2.
  destruct (fields_after_report (solar_of w (after_reset s)) s2)
    as (_ & _ & Hfa & _ & _ & _ & _ & Hd3).
  destruct (frame_after_report (solar_of w (after_reset s)) s2)
    as (_ & _ & _ & Hm3 & Hy3).
  rewrite <- Hs' in Hfa, Hd3, Hm3, Hy3.
  rewrite Hd2 in Hd3. rewrite Hm2 in Hm3. rewrite Hy2 in Hy3.
  rewrite <- Hfa in Hd3, Hm3, Hy3.
  pose proof (solar_of_bounds w (after_reset s)) as [[Hs0 _] _].
  destruct (fault_active s') eqn:Hfault.
  - exists 0. rewrite Hd3, Hm3, Hy3.
    split; [lra|]. split; [lra|]. split; [lra|]. split; [lra|].
    split; [reflexivity|]. intros H. discriminate H.
  - exists (solar_of w (after_reset s) * 5 / 60 / 1000).
    rewrite Hd3, Hm3, Hy3.
    split; [lra|]. split; [reflexivity|]. split; [reflexivity|].
    split; [reflexivity|]. split; [intros H; discriminate H|].
    intros _ ts el d Hin. rewrite Hl in Hin. apply in_app_or in Hin as [Hin|Hin];
      [exfalso; exact (in_batch_of _ _ _ _ Hin)|].
    apply in_report_of in Hin as [_ Hd]. by rewrite Hd.
Qed.

(** *** Faults disabled *)

Lemma tick_returns_disabled w s :
  fault_enabled (options s) = false ->
  exists l, _tick w s =
              (Ret l, after_report (solar_of w (after_reset s)) (after_reset s)).
Proof.
  intros Hd. rewrite _tick_unfold.
  rewrite _update_fault_status_disabled by (by rewrite options_after_reset).
  eexists. apply pair_equal_spec. split; reflexivity.
Qed.

Lemma tick_energy_accounting_witness :
  exists l s' e,
    _tick half_cloud before_noon = (Ret l, s') /\ 0 <= e /\
    daily s' =
      (if ((hour (virtual_time before_noon + 300000000) =? 0) &&
           (minute (virtual_time before_noon + 300000000) =? 0))%Z
       then 0 else daily before_noon) + e.
Proof.
  destruct (tick_returns_disabled half_cloud before_noon eq_refl) as [l Hl].
  destruct (tick_energy_accounting _ _ _ _ Hl) as (e & He & Hd & _).
  exists l. eexists. exists e. split; [exact Hl|]. split; [exact He | exact Hd].
Defined.

Lemma quiet_tick w s : quiet s -> quiet (snd (_tick w s)).
Proof.
  intros (Hen & Hfa & Hn). unfold quiet.
  rewrite options_tick, fault_active_tick_disabled by exact Hen.
  split; [exact Hen|]. split; [exact Hfa|].
  rewrite _tick_disabled by exact Hen.
  destruct (fields_after_report (solar_of w (after_reset s)) (after_reset s))
    as (_ & _ & _ & -> & _).
  destruct (frame_after_reset s) as (_ & -> & _). exact Hn.
Qed.

Lemma quiet_run trace : forall s, quiet s -> quiet (run trace s).
Proof.
  induction trace as [|c trace IH]; intros s Hq; [done|].
  rewrite run_cons. apply IH. destruct c as [w|ms]; cbn [exec].
  - by apply quiet_tick.
  - unfold update_tick_interval. destruct (Rle_dec ms 0); exact Hq.
Qed.

(** X16. An inverter constructed with faults disabled never has a fault:
    after any run the fault flag is off and no fault is scheduled, the
    next tick returns without an exception, and its payload reports fault
    code 0 and the inverter on. *)
Theorem faults_disabled (o : Options) (start wall : Z) (s0 : State)
    (trace : list Command) (w : Oracle) :
  init o start wall = Ret s0 -> fault_enabled o = false ->
  fault_active (run trace s0) = false /\
  next_fault_time (run trace s0) = None /\
  exists l s', _tick w (run trace s0) = (Ret l, s') /\
    fault_active s' = false /\
    forall ts el d, In (InverterTick ts el d) l ->
      faultCode d = 0%Z /\ inverterOn d = 1%Z.
Proof.
  intros Hinit Hen.
  assert (Hq0 : quiet s0).
  { unfold init, _schedule_next_fault in Hinit. rewrite Hen in Hinit.
    cbn [negb] in Hinit. apply Ret_inj in Hinit. subst s0. done. }
  pose proof (quiet_run trace s0 Hq0) as Hq.
  pose proof (quiet_tick w _ Hq) as (_ & Hfa' & _).
  destruct Hq as (Hen' & Hfa & Hn).
  split; [exact Hfa|]. split; [exact Hn|].
  destruct (tick_returns_disabled w _ Hen') as [l Hl].
  rewrite <- (_tick_disabled w _ Hen') in Hl.
  exists l, (snd (_tick w (run trace s0))).
  split; [exact Hl|]. split; [exact Hfa'|].
  intros ts el d Hin.
  destruct (_tick_ret w _ l _ Hl) as (s2 & _ & _ & Hleq).
  rewrite Hleq in Hin. apply in_app_or in Hin as [Hin|Hin];
    [exfalso; exact (in_batch_of _ _ _ _ Hin)|].
  apply in_report_of in Hin as [_ Hd]. rewrite Hd.
  cbn [faultCode inverterOn]. by rewrite Hfa'.
Qed.

Lemma faults_disabled_witness :
  fault_active (run [CTick half_cloud; CTick clear_sky] before_noon) = false.
Proof.
  exact (proj1 (faults_disabled default_options 1718970900000000 0 before_noon
                  [CTick half_cloud; CTick clear_sky] clear_sky
                  before_noon_is_init eq_refl)).
Defined.

(** *** The payloads *)

Lemma batch_of_record_sample solar s :
  batch_of (record_sample solar s) =
    if bool_decide (mode (options s) = "gridPower") &&
       match last_grid_power_update s with
       | None => true
       | Some l => bool_decide (300 * 1000000 <= virtual_time s - l)%Z
       end
    then [GridPowerPeriodic (grid_power_data (record_sample solar s)) (virtual_time s)]
    else [].
Proof.
  unfold batch_of.
  destruct (frame_record_sample solar s) as (-> & -> & ->). reflexivity.
Qed.

Lemma last_note_batch s :
  last_grid_power_update (note_batch s) =
    match batch_of s with
    | [] => last_grid_power_update s
    | _ => Some (virtual_time s)
    end.
Proof. unfold note_batch. by destruct (batch_of s). Qed.

(** The payloads of a tick that returns. *)
Lemma tick_payloads w s l s' :
  _tick w s = (Ret l, s') ->
  virtual_time s' = (virtual_time s + 300000000)%Z /\
  options s' = options s /\
  simulation_start_time s' = simulation_start_time s /\
  exists d,
    dailyEnergy d = daily s' /\ monthlyEnergy d = monthly s' /\
    yearlyEnergy d = yearly s' /\
    l = (if bool_decide (mode (options s) = "gridPower") && batch_due s
         then [GridPowerPeriodic (grid_power_data s') (virtual_time s')] else []) ++
        (if bool_decide (mode (options s) = "inverter")
         then [InverterTick (virtual_time s')
                 (IZR (virtual_time s') / 1000000 * 1000 - simulation_start_time s) d]
         else []) /\
    last_grid_power_update s' =
      (if bool_decide (mode (options s) = "gridPower") && batch_due s
       then Some (virtual_time s') else last_grid_power_update s).
Proof.
  intros Htick.
  destruct (_tick_ret w s l s' Htick) as (s2 & Hf & Hs' & Hl).
  pose proof (_update_fault_status_frame w (after_reset s)) as Hframe.
  rewrite Hf in Hframe. cbn [snd] in Hframe.
  destruct Hframe as (Ho2 & Hvt2 & Hsst2 & _ & _ & _ & _ & _ & Hlast2).
  rewrite options_after_reset in Ho2. rewrite virtual_time_after_reset in Hvt2.
  destruct (frame_after_reset s) as (Hsst1 & _ & _ & _ & Hlast1).
  rewrite Hsst1 in Hsst2. rewrite Hlast1 in Hlast2.
  destruct (fields_after_report (solar_of w (after_reset s)) s2)
    as (Ho3 & Hvt3 & _).
  destruct (frame_after_report (solar_of w (after_reset s)) s2)
    as (Hsst3 & Hg3 & Hlast3 & _).
  rewrite <- Hs' in Ho3, Hvt3, Hsst3, Hg3, Hlast3.
  rewrite Ho2 in Ho3. rewrite Hvt2 in Hvt3. rewrite Hsst2 in Hsst3.
  split; [exact Hvt3|]. split; [exact Ho3|]. split; [exact Hsst3|].
  assert (Hdue : match last_grid_power_update s2 with
                 | None => true
                 | Some l0 => bool_decide (300 * 1000000 <= virtual_time s2 - l0)%Z
                 end = batch_due s).
  { rewrite Hlast2, Hvt2. unfold batch_due.
    destruct (last_grid_power_update s) as [l0|]; [|reflexivity].
    apply bool_decide_ext. lia. }
  assert (Hb : batch_of (record_sample (solar_of w (after_reset s)) s2) =
               if bool_decide (mode (options s) = "gridPower") && batch_due s
               then [GridPowerPeriodic (grid_power_data s') (virtual_time s')]
               else []).
  { rewrite batch_of_record_sample, Hdue, Ho2, <- Hg3, Hvt3, Hvt2. reflexivity. }
  eexists (mkInverterData _ _ _ _ _ _ _ (daily s') (monthly s') (yearly s')).
  split; [reflexivity|]. split; [reflexivity|]. split; [reflexivity|].
  split.
  - rewrite Hl, Hb. f_equal. unfold report_of. rewrite Ho3, Hsst3. reflexivity.
  - rewrite Hlast3, last_note_batch, Hb.
    destruct (frame_record_sample (solar_of w (after_reset s)) s2) as (_ & Hv & Hla).
    rewrite Hv, Hla, Hlast2, Hvt2, Hvt3.
    by destruct (bool_decide (mode (options s) = "gridPower") && batch_due s).
Qed.

(** X17. What a tick that returns passes to [on_data]. In mode "inverter":
    exactly one payload, stamped with the virtual time after the advance,
    whose energy fields are the counters after the tick. In mode
    "gridPower": one batch holding the samples as they are after the
    tick, unless a batch was sent for a later virtual time, and the time of
    the last batch is updated with it. In any other mode: nothing. *)
Theorem payloads_by_mode (w : Oracle) (s s' : State) (l : list Payload) :
  _tick w s = (Ret l, s') ->
  virtual_time s' = (virtual_time s + 300000000)%Z /\
  (mode (options s) = "inverter" ->
   exists d,
     l = [InverterTick (virtual_time s')
            (IZR (virtual_time s') / 1000000 * 1000 - simulation_start_time s) d] /\
     dailyEnergy d = daily s' /\ monthlyEnergy d = monthly s' /\
     yearlyEnergy d = yearly s') /\
  (mode (options s) = "gridPower" ->
   l = (if batch_due s
        then [GridPowerPeriodic (grid_power_data s') (virtual_time s')] else []) /\
   last_grid_power_update s' =
     (if batch_due s then Some (virtual_time s') else last_grid_power_update s)) /\
  (mode (options s) <> "inverter" -> mode (options s) <> "gridPower" -> l = []).
Proof.
  intros Htick.
  destruct (tick_payloads w s l s' Htick)
    as (Hvt & _ & _ & d & Hd & Hm & Hy & Hl & Hlast).
  split; [exact Hvt|]. split; [|split].
  - intros Hmode. exists d. split; [|done].
    rewrite Hl, Hmode. reflexivity.
  - intros Hmode. rewrite Hl, Hlast, Hmode. cbn [andb].
    rewrite bool_decide_eq_true_2 by reflexivity.
    rewrite bool_decide_eq_false_2 by discriminate.
    cbn [andb]. by rewrite app_nil_r.
  - intros Hi Hg. rewrite Hl.
    by rewrite !bool_decide_eq_false_2 by done.
Qed.

Lemma payloads_by_mode_witness :
  exists l s' d,
    _tick half_cloud before_noon = (Ret l, s') /\
    l = [InverterTick (virtual_time s')
           (IZR (virtual_time s') / 1000000 * 1000
            - simulation_start_time before_noon) d] /\
    dailyEnergy d = daily s'.
Proof.
  destruct (tick_returns_disabled half_cloud before_noon eq_refl) as [l Hl].
  destruct (proj1 (proj2 (payloads_by_mode _ _ _ _ Hl)) eq_refl)
    as (d & Hd & He & _).
  exists l. eexists. exists d. split; [exact Hl|]. split; [exact Hd | exact He].
Defined.

Lemma virtual_time_run trace : forall s,
  virtual_time (run trace s) =
    (virtual_time s + 300000000 * Z.of_nat (length (ticks_of trace)))%Z.
Proof.
  induction trace as [|c trace IH]; intros s; [cbn; lia|].
  rewrite run_cons, IH. destruct c as [w|ms]; cbn [exec ticks_of length].
  - rewrite virtual_time_tick. lia.
  - unfold update_tick_interval. destruct (Rle_dec ms 0); reflexivity.
Qed.

Lemma start_time_tick w s :
  simulation_start_time (snd (_tick w s)) = simulation_start_time s /\
  (update_not_ahead s -> update_not_ahead (snd (_tick w s))).
Proof.
  destruct (frame_after_reset s) as (Hsst1 & _ & _ & _ & Hlast1).
  destruct (_tick_state w s) as (s2 & Hframe & _ & [Hs|Hs]); rewrite Hs;
    destruct Hframe as (_ & Hvt2 & Hsst2 & _ & _ & _ & _ & _ & Hlast2);
    rewrite virtual_time_after_reset in Hvt2.
  - destruct (frame_after_report (solar_of w (after_reset s)) s2)
      as (Hsst3 & _ & Hlast3 & _).
    destruct (fields_after_report (solar_of w (after_reset s)) s2)
      as (_ & Hvt3 & _).
    split; [by rewrite Hsst3, Hsst2|].
    unfold update_not_ahead. rewrite Hlast3, last_note_batch, Hvt3, Hvt2.
    destruct (frame_record_sample (solar_of w (after_reset s)) s2) as (_ & Hv & Hla).
    rewrite Hv, Hla, Hlast2, Hlast1, Hvt2.
    destruct (batch_of _); [|intros _; lia].
    destruct (last_grid_power_update s); [lia | done].
  - split; [by rewrite Hsst2|].
    unfold update_not_ahead. rewrite Hlast2, Hlast1, Hvt2.
    destruct (last_grid_power_update s); [lia | done].
Qed.

Lemma start_time_run trace : forall s,
  simulation_start_time (run trace s) = simulation_start_time s /\
  options (run trace s) = options s /\
  (update_not_ahead s -> update_not_ahead (run trace s)).
Proof.
  induction trace as [|c trace IH]; intros s; [done|].
  rewrite run_cons. destruct (IH (exec c s)) as (-> & -> & Hu).
  destruct c as [w|ms]; cbn [exec] in Hu |- *.
  - destruct (start_time_tick w s) as [-> Hu']. rewrite options_tick.
    split; [done|]. split; [done|]. intros H. by apply Hu, Hu'.
  - unfold update_tick_interval in Hu |- *. destruct (Rle_dec ms 0); done.
Qed.

(** X18. In mode "gridPower", after construction and any run, every tick
    that returns sends exactly one batch: the 288 samples as they are
    after the tick, stamped with the virtual time of the tick, which is the
    start time plus five minutes for each tick so far. *)
Theorem grid_power_batches (o : Options) (start wall : Z) (s0 s' : State)
    (trace : list Command) (w : Oracle) (l : list Payload) :
  init o start wall = Ret s0 -> mode o = "gridPower" ->
  _tick w (run trace s0) = (Ret l, s') ->
  l = [GridPowerPeriodic (grid_power_data s') (virtual_time s')] /\
  length (grid_power_data s') = 288%nat /\
  virtual_time s' =
    (start + 300000000 * (Z.of_nat (length (ticks_of trace)) + 1))%Z.
Proof.
  intros Hinit Hmode Htick.
  destruct (init_fields _ _ _ _ Hinit)
    as (Ho & Hvt & _ & _ & _ & _ & _ & Hg & Hlast).
  destruct (start_time_run trace s0) as (_ & Hopt & Hu).
  assert (Hna : update_not_ahead (run trace s0)).
  { apply Hu. unfold update_not_ahead. by rewrite Hlast. }
  destruct (tick_payloads w _ l s' Htick) as (Hvt' & _ & _ & d & _ & _ & _ & Hl & _).
  assert (Hdue : batch_due (run trace s0) = true).
  { unfold batch_due. unfold update_not_ahead in Hna.
    destruct (last_grid_power_update (run trace s0)); [|done].
    by apply bool_decide_eq_true_2. }
  split; [|split].
  - rewrite Hl, Hopt, Ho, Hmode, Hdue.
    rewrite bool_decide_eq_true_2 by reflexivity.
    rewrite bool_decide_eq_false_2 by discriminate.
    cbn [andb]. by rewrite app_nil_r.
  - replace s' with (snd (_tick w (run trace s0))) by (by rewrite Htick).
    apply length_tick, length_run. rewrite Hg. apply length_replicate.
  - rewrite Hvt', virtual_time_run, Hvt. lia.
Qed.

Lemma grid_before_noon_init :
  init grid_options 1718970900000000 0 = Ret grid_before_noon.
Proof. reflexivity. Qed.

Lemma grid_power_batches_witness :
  exists l s',
    _tick clear_sky (run [CTick half_cloud] grid_before_noon) = (Ret l, s') /\
    l = [GridPowerPeriodic (grid_power_data s') (virtual_time s')] /\
    length (grid_power_data s') = 288%nat.
Proof.
  assert (Hen : fault_enabled (options (run [CTick half_cloud] grid_before_noon))
                = false)
    by (by rewrite (proj1 (proj2 (start_time_run [CTick half_cloud]
                                    grid_before_noon)))).
  destruct (tick_returns_disabled clear_sky _ Hen) as [l Hl].
  destruct (grid_power_batches grid_options 1718970900000000 0 grid_before_noon _
              [CTick half_cloud] clear_sky l grid_before_noon_init eq_refl Hl)
    as (Hb & Hlen & _).
  exists l. eexists. split; [exact Hl|]. split; [exact Hb | exact Hlen].
Defined.

(** X19. In mode "inverter", after construction and a run with [n] ticks
    the next tick that returns sends one payload whose timestamp is the
    start time plus [n + 1] times five minutes and whose
    [elapsedEmulationTimeMs] is [300000 * (n + 1)]: the emulated clock
    counts ticks, whatever the tick interval was set to in the run. *)
Theorem elapsed_time_counts_ticks (o : Options) (start wall : Z) (s0 s' : State)
    (trace : list Command) (w : Oracle) (l : list Payload) :
  init o start wall = Ret s0 -> mode o = "inverter" ->
  _tick w (run trace s0) = (Ret l, s') ->
  exists d,
    l = [InverterTick
           (start + 300000000 * (Z.of_nat (length (ticks_of trace)) + 1))%Z
           (300000 * (INR (length (ticks_of trace)) + 1)) d].
Proof.
  intros Hinit Hmode Htick.
  destruct (init_fields _ _ _ _ Hinit) as (Ho & Hvt & Hsst & _).
  destruct (start_time_run trace s0) as (Hsst' & Hopt & _).
  destruct (tick_payloads w _ l s' Htick) as (Hvt' & _ & _ & d & _ & _ & _ & Hl & _).
  exists d. rewrite Hl, Hopt, Ho, Hmode.
  rewrite bool_decide_eq_false_2 by discriminate.
  rewrite bool_decide_eq_true_2 by reflexivity. cbn [andb app].
  rewrite Hvt', virtual_time_run, Hvt, Hsst', Hsst.
  do 2 f_equal; [lia|].
  rewrite !plus_IZR, mult_IZR, <- INR_IZR_INZ. lra.
Qed.

Lemma elapsed_time_counts_ticks_witness :
  exists l s' d,
    _tick clear_sky
      (run [CTick half_cloud; CUpdateTickInterval 10; CTick half_cloud] before_noon)
    = (Ret l, s') /\
    l = [InverterTick
           (1718970900000000 + 300000000 *
              (Z.of_nat (length (ticks_of [CTick half_cloud; CUpdateTickInterval 10;
                                           CTick half_cloud])) + 1))%Z
           (300000 * (INR (length (ticks_of [CTick half_cloud; CUpdateTickInterval 10;
                                            CTick half_cloud])) + 1)) d].
Proof.
  assert (Hen : fault_enabled
            (options (run [CTick half_cloud; CUpdateTickInterval 10; CTick half_cloud]
                          before_noon)) = false)
    by (by rewrite (proj1 (proj2 (start_time_run _ before_noon)))).
  destruct (tick_returns_disabled clear_sky _ Hen) as [l Hl].
  destruct (elapsed_time_counts_ticks default_options 1718970900000000 0 before_noon _
              [CTick half_cloud; CUpdateTickInterval 10; CTick half_cloud]
              clear_sky l before_noon_is_init eq_refl Hl) as (d & Hd).
  exists l. eexists. exists d. split; [exact Hl | exact Hd].
Defined.

(** *** The samples *)

Lemma index_at_seconds t : index_at t = ((seconds_of t / 300) mod 288)%Z.
Proof.
  unfold index_at, hour, minute. generalize (seconds_of t). intros S.
  Z.div_mod_to_equations. lia.
Qed.

Lemma index_at_next t :
  index_at (t + 300000000) = ((index_at t + 1) mod 288)%Z.
Proof.
  rewrite !index_at_seconds. unfold seconds_of.
  replace (t + 300000000)%Z with (t + 300 * 1000000)%Z by lia.
  rewrite Z.div_add by lia.
  replace ((t / 1000000 + 300) / 300)%Z with (t / 1000000 / 300 + 1)%Z.
  - by rewrite Zplus_mod_idemp_l.
  - replace (t / 1000000 + 300)%Z with (t / 1000000 + 1 * 300)%Z by lia.
    by rewrite Z.div_add by lia.
Qed.

Lemma current_index_of_eq s : current_index_of s = index_at (virtual_time s).
Proof. reflexivity. Qed.

(** X20. The sample of a tick. A tick that returns writes one slot of the
    288: the slot number is the count of whole five-minute periods since
    midnight UTC of the virtual time after the advance, so the bounds test
    of the code never fails and the next tick writes the next slot, slot 0
    after slot 287. The value written is the grid power of the payload
    divided by 1000, which is 0 when the fault flag is set; the other slots
    are as before, or 0 when the tick reset the samples. *)
Theorem sample_slot (w : Oracle) (s s' : State) (l : list Payload) :
  _tick w s = (Ret l, s') -> length (grid_power_data s) = 288%nat ->
  let t' := (virtual_time s + 300000000)%Z in
  let i := Z.to_nat ((seconds_of t' / 300) mod 288) in
  exists p,
    grid_power_data s' =
      <[i := p / 1000]> (if resets_at t' then replicate 288 0 else grid_power_data s) /\
    grid_power_data s' !! i = Some (p / 1000) /\
    (fault_active s' = true -> p = 0) /\
    (forall ts el d, In (InverterTick ts el d) l -> gridPower d = p) /\
    ((seconds_of (t' + 300000000) / 300) mod 288 =
     ((seconds_of t' / 300) mod 288 + 1) mod 288)%Z.
Proof.
  intros Htick Hlen t' i.
  destruct (_tick_ret w s l s' Htick) as (s2 & Hf & Hs' & Hl).
  pose proof (_update_fault_status_frame w (after_reset s)) as Hframe.
  rewrite Hf in Hframe. cbn [snd] in Hframe.
  destruct Hframe as (_ & Hvt2 & _ & _ & _ & _ & _ & Hg2 & _).
  rewrite virtual_time_after_reset in Hvt2. rewrite grid_after_reset in Hg2.
  destruct (fields_after_report (solar_of w (after_reset s)) s2)
    as (_ & _ & Hfa & _).
  rewrite <- Hs' in Hfa.
  pose proof (grid_after_report (solar_of w (after_reset s)) s2) as Hg.
  rewrite <- Hs', current_index_of_eq, Hvt2, Hg2 in Hg.
  pose proof (index_at_range t') as [Hlo Hhi].
  fold t' in Hg. rewrite index_at_seconds in Hg, Hlo, Hhi.
  rewrite (proj2 (Z.leb_le _ _) Hlo), (proj2 (Z.ltb_lt _ _) Hhi) in Hg.
  cbn [andb] in Hg. fold i in Hg.
  exists (grid_power_of (solar_of w (after_reset s)) s2).
  split; [exact Hg|]. split; [|split; [|split]].
  - rewrite Hg. apply list_lookup_insert_eq.
    assert (Hl288 : length (if resets_at t' then replicate 288 0
                            else grid_power_data s) = 288%nat)
      by (destruct (resets_at t'); [apply length_replicate | exact Hlen]).
    rewrite Hl288. unfold i. lia.
  - intros Hfault. unfold grid_power_of. by rewrite <- Hfa, Hfault.
  - intros ts el d Hin. rewrite Hl in Hin. apply in_app_or in Hin as [Hin|Hin];
      [exfalso; exact (in_batch_of _ _ _ _ Hin)|].
    apply in_report_of in Hin as [_ Hd]. by rewrite Hd.
  - unfold t'. rewrite <- !index_at_seconds. apply index_at_next.
Qed.

Lemma sample_slot_witness :
  exists l s' p,
    _tick half_cloud before_noon = (Ret l, s') /\
    grid_power_data s' !!
      Z.to_nat ((seconds_of (virtual_time before_noon + 300000000) / 300) mod 288)
    = Some (p / 1000).
Proof.
  destruct (tick_returns_disabled half_cloud before_noon eq_refl) as [l Hl].
  destruct (sample_slot _ _ _ _ Hl (length_replicate 288 0)) as (p & _ & Hp & _).
  exists l. eexists. exists p. split; [exact Hl | exact Hp].
Defined.

(** *** The solar power by the hour *)

Lemma hour_range t : (0 <= hour t < 24)%Z.
Proof. unfold hour. apply Z.mod_pos_bound. lia. Qed.

Lemma sin_hour_angle t :
  ((hour t <= 6 \/ 19 <= hour t)%Z -> sin (hour_angle t) <= 0) /\
  ((7 <= hour t <= 17)%Z -> sin (PI / 12) <= sin (hour_angle t)).
Proof.
  pose proof (hour_range t) as Hr. pose proof PI_RGT_0 as Hpi.
  unfold hour_angle. set (h := hour t) in *. clearbody h.
  split.
  - intros [Hlo|Hhi].
    + assert (H1 : -6 <= IZR (h - 6)) by (apply IZR_le; lia).
      assert (H2 : IZR (h - 6) <= 0) by (apply IZR_le; lia).
      destruct (Req_dec (IZR (h - 6)) 0) as [Hz|Hnz].
      * rewrite Hz. replace (PI * (0 / 12)) with 0 by lra. rewrite sin_0. lra.
      * apply Rlt_le, sin_lt_0_var; nra.
    + assert (H1 : 13 <= IZR (h - 6)) by (apply IZR_le; lia).
      assert (H2 : IZR (h - 6) <= 17) by (apply IZR_le; lia).
      apply Rlt_le, sin_lt_0; nra.
  - intros Hmid.
    assert (H1 : 1 <= IZR (h - 6)) by (apply IZR_le; lia).
    assert (H2 : IZR (h - 6) <= 11) by (apply IZR_le; lia).
    destruct (Rle_dec (PI * (IZR (h - 6) / 12)) (PI / 2)) as [Hle|Hgt].
    + apply sin_incr_1; nra.
    + rewrite <- (sin_PI_x (PI * (IZR (h - 6) / 12))).
      apply sin_incr_1; nra.
Qed.

(** X21. [_calculate_solar_power] never raises and changes nothing; its
    power depends on the virtual time only through the UTC hour [h]. It is
    0 when a fault is active and whenever [h <= 6] or [h >= 19], even if
    [astral] reports daylight; for [7 <= h <= 17], in daylight and without
    a fault, it is at least [peak_output * sin (PI / 12) * 0.7]. Without
    [astral], daylight means [6 <= h <= 18]. *)
Theorem solar_power_by_hour (w : Oracle) (s : State) :
  let h := hour (virtual_time s) in
  exists p,
    _calculate_solar_power w s = (Ret (is_daylight_of w (virtual_time s), p), s) /\
    0 <= p /\
    ((h <= 6 \/ 19 <= h)%Z -> p = 0) /\
    (fault_active s = true -> p = 0) /\
    ((7 <= h <= 17)%Z -> is_daylight_of w (virtual_time s) = true ->
     fault_active s = false ->
     peak_output * sin (PI / 12) * 0.7 <= p) /\
    (astral w = None ->
     is_daylight_of w (virtual_time s) = bool_decide (6 <= h <= 18)%Z).
Proof.
  intros h. exists (solar_of w s).
  split; [apply _calculate_solar_power_ret|].
  split; [apply solar_of_bounds|].
  pose proof (cloud_factor_bounds w) as [Hc1 Hc2].
  destruct (sin_hour_angle (virtual_time s)) as [Hneg Hpos].
  fold h in Hneg, Hpos.
  split; [|split; [|split]].
  - intros Hh. specialize (Hneg Hh). unfold solar_of, peak_output.
    destruct (negb _ || _); [reflexivity|].
    apply Rmax_left. nra.
  - apply solar_of_faulted.
  - intros Hh Hday Hfa. specialize (Hpos Hh). unfold solar_of, peak_output.
    rewrite Hday, Hfa. cbn [negb orb].
    assert (Hs : 0 < sin (PI / 12)).
    { apply sin_gt_0; pose proof PI_RGT_0; lra. }
    eapply Rle_trans; [|apply Rmax_r]. nra.
  - intros Ha. unfold is_daylight_of. rewrite Ha. fold h.
    destruct (Z.leb_spec 6 h), (Z.leb_spec h 18); cbn [andb];
      symmetry; (by apply bool_decide_eq_true_2) || (apply bool_decide_eq_false_2; lia).
Qed.

Lemma solar_power_by_hour_witness :
  exists p,
    _calculate_solar_power clear_sky evening = (Ret (true, p), evening) /\
    peak_output * sin (PI / 12) * 0.7 <= p.
Proof.
  assert (Hh : hour (virtual_time evening) = 16%Z) by reflexivity.
  assert (Hday : is_daylight_of clear_sky (virtual_time evening) = true).
  { unfold is_daylight_of. change (astral clear_sky) with (@None bool).
    rewrite Hh. reflexivity. }
  destruct (solar_power_by_hour clear_sky evening) as (p & Hp & _ & _ & _ & Hlow & _).
  exists p. split.
  - rewrite Hp, Hday. reflexivity.
  - apply Hlow; [rewrite Hh; lia | exact Hday | reflexivity].
Defined.

(** *** The fault status *)

Lemma fault_onset w s nft :
  fault_enabled (options s) = true -> fault_active s = false ->
  next_fault_time s = Some nft -> (nft <= virtual_time s)%Z ->
  (fault_duration_max (options s) = fault_duration_min (options s) ->
   _update_fault_status w s = (Raise ZeroDivisionError, s)) /\
  (fault_duration_min (options s) < fault_duration_max (options s) ->
   exists fet,
     _update_fault_status w s = (Ret tt, set_fault true (Some nft) (Some fet) s) /\
     IZR (virtual_time s) + fault_duration_min (options s) * 60 * 1000000 <= fet /\
     fet < IZR (virtual_time s) + fault_duration_max (options s) * 60 * 1000000).
Proof.
  intros Hen Hfa Hn Hle.
  unfold _update_fault_status, bind, get, modify, raise.
  rewrite Hen, Hfa, Hn. cbn [negb andb].
  rewrite bool_decide_eq_true_2 by exact Hle.
  split.
  - intros Heq.
    destruct (Req_dec_T (fault_duration_max (options s) -
                         fault_duration_min (options s)) 0) as [_|Hne];
      [reflexivity | lra].
  - intros Hlt.
    destruct (Req_dec_T (fault_duration_max (options s) -
                         fault_duration_min (options s)) 0) as [Hz|_]; [lra|].
    eexists. split; [reflexivity|].
    destruct (fmod_bounds (t_fault w)
                (fault_duration_max (options s) - fault_duration_min (options s)))
      as [H0 H1]; [lra|].
    lra.
Qed.

Lemma fault_ending w s fet :
  fault_enabled (options s) = true -> fault_active s = true ->
  fault_end_time s = Some fet -> fet <= IZR (virtual_time s) ->
  mean_fault_interval (options s) <> 0%Z ->
  _update_fault_status w s =
    (Ret tt,
     set_fault false
       (Some (virtual_time s +
              t_sched_ms w mod (mean_fault_interval (options s) * 24 * 60)
              * 60 * 1000000)%Z)
       (Some fet) s).
Proof.
  intros Hen Hfa He Hle Hm.
  unfold _update_fault_status, bind, get, modify, raise, _schedule_next_fault.
  rewrite Hen, Hfa, He. cbn [negb andb].
  destruct (Rge_dec (IZR (virtual_time s)) fet) as [_|Hn]; [|lra].
  destruct (decide (mean_fault_interval (options s) * 24 * 60 = 0)%Z); [lia|].
  reflexivity.
Qed.

Lemma fault_waiting w s :
  fault_enabled (options s) = true ->
  (fault_active s = false /\
   match next_fault_time s with
   | Some nft => (virtual_time s < nft)%Z
   | None => True
   end) \/
  (fault_active s = true /\
   match fault_end_time s with
   | Some fet => IZR (virtual_time s) < fet
   | None => True
   end) ->
  _update_fault_status w s = (Ret tt, s).
Proof.
  intros Hen Hcase.
  unfold _update_fault_status, bind, get, modify, raise, ret.
  rewrite Hen. cbn [negb].
  destruct Hcase as [[Hfa Hn]|[Hfa He]]; rewrite Hfa; cbn [negb andb].
  - destruct (next_fault_time s) as [nft|]; [|reflexivity].
    rewrite bool_decide_eq_false_2 by lia. reflexivity.
  - destruct (fault_end_time s) as [fet|]; [|reflexivity].
    destruct (Rge_dec (IZR (virtual_time s)) fet); [lra | reflexivity].
Qed.

(** X22. [_update_fault_status] with faults enabled. A fault that is due
    starts: the flag is set and the fault ends between
    [fault_duration_min] and [fault_duration_max] minutes after the
    virtual time (the maximum excluded). A fault whose end has come stops:
    the flag is cleared and the next fault is scheduled a whole number of
    minutes, below the mean interval, after the virtual time. Otherwise
    nothing changes. In all cases only the three fault fields change. *)
Theorem update_fault_status_spec (w : Oracle) (s : State) :
  fault_enabled (options s) = true ->
  (forall nft, fault_active s = false -> next_fault_time s = Some nft ->
     (nft <= virtual_time s)%Z ->
     fault_duration_min (options s) < fault_duration_max (options s) ->
     exists fet,
       _update_fault_status w s = (Ret tt, set_fault true (Some nft) (Some fet) s) /\
       IZR (virtual_time s) + fault_duration_min (options s) * 60 * 1000000 <= fet /\
       fet < IZR (virtual_time s) + fault_duration_max (options s) * 60 * 1000000) /\
  (forall fet, fault_active s = true -> fault_end_time s = Some fet ->
     fet <= IZR (virtual_time s) -> (0 < mean_fault_interval (options s))%Z ->
     exists k,
       _update_fault_status w s =
         (Ret tt, set_fault false (Some (virtual_time s + k * 60000000)%Z)
                    (Some fet) s) /\
       (0 <= k < mean_fault_interval (options s) * 1440)%Z) /\
  ((fault_active s = false /\
    match next_fault_time s with
    | Some nft => (virtual_time s < nft)%Z
    | None => True
    end) \/
   (fault_active s = true /\
    match fault_end_time s with
    | Some fet => IZR (virtual_time s) < fet
    | None => True
    end) ->
   _update_fault_status w s = (Ret tt, s)) /\
  same_but_fault s (snd (_update_fault_status w s)).
Proof.
  intros Hen. split; [|split; [|split]].
  - intros nft Hfa Hn Hle Hlt.
    exact (proj2 (fault_onset w s nft Hen Hfa Hn Hle) Hlt).
  - intros fet Hfa He Hle Hm.
    exists (t_sched_ms w mod (mean_fault_interval (options s) * 24 * 60))%Z.
    split.
    + rewrite (fault_ending w s fet Hen Hfa He Hle) by lia.
      do 4 f_equal. lia.
    + replace (mean_fault_interval (options s) * 1440)%Z
        with (mean_fault_interval (options s) * 24 * 60)%Z by lia.
      apply Z.mod_pos_bound. lia.
  - by apply fault_waiting.
  - apply _update_fault_status_frame.
Qed.

Lemma update_fault_status_spec_witness :
  exists fet,
    _update_fault_status clear_sky fault_due =
      (Ret tt, set_fault true (Some 1718970900000000%Z) (Some fet) fault_due) /\
    IZR (virtual_time fault_due) + fault_duration_min (options fault_due) * 60 * 1000000
      <= fet /\
    fet < IZR (virtual_time fault_due)
          + fault_duration_max (options fault_due) * 60 * 1000000.
Proof.
  refine (proj1 (update_fault_status_spec clear_sky fault_due eq_refl)
            1718970900000000%Z eq_refl eq_refl (Z.le_refl _) _).
  unfold fault_due, faulty_options. fields.
  cbn [fault_duration_min fault_duration_max]. lra.
Defined.

Lemma stuck_tick w nft s :
  stuck nft s -> _tick w s = (Raise ZeroDivisionError, after_reset s).
Proof.
  intros (Hen & Hfa & Hn & Hle & Heq).
  rewrite _tick_unfold.
  destruct (frame_after_reset s) as (_ & Hn' & _).
  rewrite (proj1 (fault_onset w (after_reset s) nft
                    ltac:(by rewrite options_after_reset)
                    ltac:(by rewrite fault_active_after_reset)
                    ltac:(by rewrite Hn')
                    ltac:(by rewrite virtual_time_after_reset)))
    by (by rewrite options_after_reset).
  reflexivity.
Qed.

Lemma stuck_exec nft c s : stuck nft s -> stuck nft (exec c s).
Proof.
  intros Hs. destruct c as [w|ms]; cbn [exec].
  - rewrite (stuck_tick w nft s Hs). cbn [snd].
    destruct Hs as (Hen & Hfa & Hn & Hle & Heq).
    destruct (frame_after_reset s) as (_ & Hn' & _).
    unfold stuck.
    rewrite options_after_reset, fault_active_after_reset, Hn',
      virtual_time_after_reset.
    repeat split; try done. lia.
  - unfold update_tick_interval. destruct (Rle_dec ms 0); exact Hs.
Qed.

Lemma stuck_run nft trace : forall s, stuck nft s -> stuck nft (run trace s).
Proof.
  induction trace as [|c trace IH]; intros s Hs; [done|].
  rewrite run_cons. by apply IH, stuck_exec.
Qed.

(** X23. Equal fault durations stop the emulator. With faults enabled and
    [fault_duration_min = fault_duration_max], the tick at which a fault is
    due raises [ZeroDivisionError], after the virtual time has advanced and
    before anything is sent; the fault never starts, and every tick after
    that raises again. *)
Theorem equal_fault_durations_crash (w : Oracle) (nft : Z) (s : State)
    (trace : list Command) :
  fault_enabled (options s) = true -> fault_active s = false ->
  next_fault_time s = Some nft -> (nft <= virtual_time s + 300000000)%Z ->
  fault_duration_max (options s) = fault_duration_min (options s) ->
  fst (_tick w s) = Raise ZeroDivisionError /\
  virtual_time (snd (_tick w s)) = (virtual_time s + 300000000)%Z /\
  fault_active (snd (_tick w s)) = false /\
  fst (_tick w (run trace s)) = Raise ZeroDivisionError.
Proof.
  intros Hen Hfa Hn Hle Heq.
  assert (Hs : stuck nft s) by done.
  rewrite (stuck_tick w nft s Hs). cbn [fst snd].
  split; [reflexivity|]. split; [apply virtual_time_after_reset|].
  split; [by rewrite fault_active_after_reset|].
  by rewrite (stuck_tick w nft _ (stuck_run nft trace s Hs)).
Qed.

Lemma equal_fault_durations_crash_witness :
  fst (_tick clear_sky fixed_due) = Raise ZeroDivisionError /\
  fst (_tick clear_sky (run [CTick half_cloud; CTick half_cloud] fixed_due))
    = Raise ZeroDivisionError.
Proof.
  assert (Hle : (1718970900000000 <= virtual_time fixed_due + 300000000)%Z)
    by (unfold fixed_due; fields; lia).
  destruct (equal_fault_durations_crash clear_sky 1718970900000000 fixed_due
              [CTick half_cloud; CTick half_cloud]
              eq_refl eq_refl eq_refl Hle eq_refl) as (H1 & _ & _ & H2).
  split; [exact H1 | exact H2].
Defined.

(** *** The daily reset *)

Lemma resets_at_iff t : resets_at t = true <-> (seconds_of t mod 86400 < 60)%Z.
Proof.
  unfold resets_at, hour, minute. generalize (seconds_of t). intros S.
  rewrite andb_true_iff, !Z.eqb_eq.
  Z.div_mod_to_equations. lia.
Qed.

Lemma aligned_iff t : (minute t mod 5 = 0 <-> seconds_of t mod 300 < 60)%Z.
Proof.
  unfold minute. generalize (seconds_of t). intros S.
  Z.div_mod_to_equations. lia.
Qed.

Lemma seconds_of_ticks t j :
  seconds_of (t + j * 300000000) = (seconds_of t + 300 * j)%Z.
Proof.
  unfold seconds_of.
  replace (t + j * 300000000)%Z with (t + (300 * j) * 1000000)%Z by lia.
  by rewrite Z.div_add by lia.
Qed.

Lemma aligned_reset_tick t :
  (minute t mod 5 = 0)%Z ->
  let j := (288 - (seconds_of t / 300) mod 288)%Z in
  (1 <= j <= 288)%Z /\
  forall j', (1 <= j' <= 288)%Z ->
    (resets_at (t + j' * 300000000) = true <-> j' = j).
Proof.
  intros Hal j. apply aligned_iff in Hal.
  split; [unfold j; Z.div_mod_to_equations; lia|].
  intros j' Hj'. rewrite resets_at_iff, seconds_of_ticks.
  unfold j. revert Hal. generalize (seconds_of t). intros S Hal.
  Z.div_mod_to_equations. lia.
Qed.

Lemma ticks_of_fmap ws : ticks_of (CTick <$> ws) = ws.
Proof. induction ws as [|w ws IH]; [done|]. cbn. by rewrite IH. Qed.

Lemma reset_tick w s :
  resets_at (virtual_time s + 300000000) = true ->
  0 <= daily (snd (_tick w s)) < 1.3 * peak_output * 5 / 60 / 1000 /\
  forall i, (0 < i < 288)%nat -> grid_power_data (snd (_tick w s)) !! i = Some 0.
Proof.
  intros Hr.
  assert (Hidx : index_at (virtual_time s + 300000000) = 0%Z).
  { unfold resets_at in Hr. apply andb_true_iff in Hr as [Hh Hm].
    apply Z.eqb_eq in Hh, Hm. unfold index_at. rewrite Hh, Hm. reflexivity. }
  destruct (_tick_state w s) as (s2 & Hframe & _ & [Hs|Hs]); rewrite Hs;
    destruct Hframe as (_ & Hvt2 & _ & _ & Hd2 & _ & _ & Hg2 & _);
    rewrite virtual_time_after_reset in Hvt2;
    rewrite daily_after_reset, Hr in Hd2; rewrite grid_after_reset, Hr in Hg2.
  - destruct (fields_after_report (solar_of w (after_reset s)) s2)
      as (_ & _ & _ & _ & _ & _ & _ & Hd3).
    rewrite Hd2 in Hd3. rewrite Hd3.
    pose proof (solar_of_bounds w (after_reset s)) as [[Hs0 _] Hs1].
    split; [destruct (fault_active s2); unfold peak_output in *; lra|].
    intros i Hi. rewrite grid_after_report, current_index_of_eq, Hvt2, Hidx, Hg2.
    cbn [Z.leb Z.ltb Z.compare andb Z.to_nat].
    rewrite list_lookup_insert_ne by lia.
    apply lookup_replicate_2. lia.
  - rewrite Hd2. split; [unfold peak_output; lra|].
    intros i Hi. rewrite Hg2. apply lookup_replicate_2. lia.
Qed.

(** X24. A start on a five-minute mark does get its daily reset. When the
    minute of the virtual time is a multiple of 5, exactly one of the next
    288 ticks passes the midnight test of [_tick]: tick number
    [288 - (seconds / 300) mod 288]. After that tick the daily counter
    holds at most the energy of that one tick, and every sample slot other
    than slot 0 is 0. *)
Theorem aligned_start_resets_daily (s : State) (ws : list Oracle) (w : Oracle) :
  (minute (virtual_time s) mod 5 = 0)%Z ->
  let j := (288 - (seconds_of (virtual_time s) / 300) mod 288)%Z in
  (1 <= j <= 288)%Z /\
  (forall j', (1 <= j' <= 288)%Z ->
     (resets_at (virtual_time s + j' * 300000000) = true <-> j' = j)) /\
  ((Z.of_nat (length ws) + 1)%Z = j ->
   0 <= daily (snd (_tick w (run_ticks ws s))) < 1.3 * peak_output * 5 / 60 / 1000 /\
   forall i, (0 < i < 288)%nat ->
     grid_power_data (snd (_tick w (run_ticks ws s))) !! i = Some 0).
Proof.
  intros Hal j.
  destruct (aligned_reset_tick (virtual_time s) Hal) as [Hj Huniq]. fold j in Hj, Huniq.
  split; [exact Hj|]. split; [exact Huniq|].
  intros Hlen. apply reset_tick. unfold run_ticks.
  rewrite virtual_time_run, ticks_of_fmap.
  replace (virtual_time s + 300000000 * Z.of_nat (length ws) + 300000000)%Z
    with (virtual_time s + j * 300000000)%Z by lia.
  by apply Huniq.
Qed.

Lemma aligned_start_resets_daily_witness :
  resets_at (virtual_time before_noon + 145 * 300000000) = true.
Proof.
  destruct (aligned_start_resets_daily before_noon [] clear_sky eq_refl)
    as (_ & Hu & _).
  apply (Hu 145%Z); [lia | reflexivity].
Defined.

End InverterMore.
